(** * RepoFetch: tree acquisition, filtering, ordering and batched content retrieval

    A shallow embedding of the TypeScript sources
    - [filter.ts]  ([getExtension], [matchesPattern], [filterTree], [sortEntries]),
    - [content.ts] ([fetchContent]),
    - [github.ts]  ([GitHubClient]: [updateRateLimit], [getDefaultBranch],
                    [getTree], [getBlob], [getBlobContent]),
    - [index.ts]   ([repofetch]),
    - [output.ts]  ([formatOutput], [buildTree], [sortNodes], [formatSize],
                    [formatAsciiTree], [formatContentOutput]),
    - [types.ts]   (the records),
    and the properties of the design document that are about them.

    JavaScript values are modelled as follows.
    - [string] is the Standard Library's string; the characters that matter to
      the code ('/', '.', '*', ASCII letters) lie in the ASCII range, and
      [toLowerCase] is modelled on the ASCII letters.
    - [number] is [Z] for sizes and statuses and [nat] for counters and the
      concurrency bound (a count of requests).
    - an optional field [f?: T] is [option T]; [undefined] is [None].
    - [Map<string,string>] is [gmap string string], [Set<string>] is
      [gset string]; the [Map] of the children of a tree node, whose
      insertion order matters, is an association list.
    - the non-ASCII texts of [output.ts] are given by their UTF-8 bytes; they
      are only ever concatenated. [JSON.stringify] is a parameter of the
      model (class [Serializer]).
    - a function that may throw returns a [result]; an [async] function is a
      function from the state of the system to an [outcome]: the value it
      resolves to, or the error it rejects with, and the new state. The state
      holds the mutable [_rateLimit] of the client, the server, the state of
      the progress observer, and the record of the calls made ([fetch] and
      [onProgress]), in the order they were made.
    - a loop whose number of iterations depends on a JavaScript number is
      unrolled a given number of times ([fuel]); [OutOfFuel] is the outcome
      of a run that needed more.
    - the requests of one [Promise.allSettled] are issued, and their responses
      taken, in the order of the batch; the order in which responses arrive
      within a batch is not modelled.
    - what the JavaScript runtime and the network provide ([localeCompare],
      [RegExp], [parseInt], base64 decoding, the HTTP server) is collected in
      the class [Runtime]; the model is parametric in it. Node's
      [path.extname] and [path.basename] (POSIX) are transcribed from Node's
      implementation. *)

From Stdlib Require Import ZArith Lia Bool List Ascii String Sorted.
From Stdlib Require DecimalString.
From stdpp Require Import base option list strings gmap.

Local Open Scope Z_scope.

(** ** JavaScript string primitives used by the sources *)

Module JS.

(** [s.split(c)] for a one-character separator: never empty. *)
Fixpoint split (sep : ascii) (s : string) : list string :=
  match s with
  | EmptyString => [EmptyString]
  | String c r =>
      if Ascii.eqb c sep then EmptyString :: split sep r
      else match split sep r with
           | h :: t => String c h :: t
           | [] => [String c EmptyString]
           end
  end.

(** [s.startsWith(p)]. *)
Definition startsWith (s p : string) : bool := String.prefix p s.

(** [s.includes(p)]: [p] occurs as a substring of [s]. *)
Fixpoint includes (s p : string) : bool :=
  String.prefix p s ||
  match s with
  | EmptyString => false
  | String _ r => includes r p
  end.

(** [c.toLowerCase()] on one character: the letters A-Z move to a-z. *)
Definition lowerChar (c : ascii) : ascii :=
  let n := nat_of_ascii c in
  if (Nat.leb 65 n && Nat.leb n 90)%bool then ascii_of_nat (n + 32) else c.

(** [s.toLowerCase()], on the ASCII letters. *)
Fixpoint toLowerCase (s : string) : string :=
  match s with
  | EmptyString => EmptyString
  | String c r => String (lowerChar c) (toLowerCase r)
  end.

(** [s.replace(/c/g, by)] for a one-character pattern and a replacement text
    without [$]. *)
Fixpoint replaceAll (c : ascii) (by_ : string) (s : string) : string :=
  match s with
  | EmptyString => EmptyString
  | String x r =>
      if Ascii.eqb x c then String.append by_ (replaceAll c by_ r)
      else String x (replaceAll c by_ r)
  end.

(** [s.slice(a, b)] for [0 <= a]. *)
Definition slice (s : string) (a b : Z) : string :=
  String.substring (Z.to_nat a) (Z.to_nat (b - a)) s.

(** [arr.includes(x)] on an array of strings. *)
Definition arrayIncludes (l : list string) (x : string) : bool :=
  existsb (String.eqb x) l.

(** [arr.slice(a, b)] for indices in range of [nat]. *)
Definition arraySlice {A} (l : list A) (a b : nat) : list A :=
  firstn (b - a) (skipn a l).

End JS.

(** ** Node's [path] module (POSIX flavour): [extname] and [basename]

    Both scan the path from its last character to its first; the scan state
    is the set of local variables of Node's implementation, with [-1] for
    "not seen yet". *)

Module NodePath.

Record ext_state := mkExt {
  startDot : Z;
  startPart : Z;
  end_ : Z;
  matchedSlash : bool;
  preDotState : Z }.

Definition ext_init : ext_state :=
  {| startDot := -1; startPart := 0; end_ := -1;
     matchedSlash := true; preDotState := 0 |}.

(** One pass of [for (let i = path.length - 1; i >= 0; --i)]: [chars] are the
    characters at positions [i], [i-1], ..., [0]. *)
Fixpoint ext_scan (chars : list ascii) (i : Z) (st : ext_state) : ext_state :=
  match chars with
  | [] => st
  | code :: rest =>
      if Ascii.eqb code "/" then
        if negb (matchedSlash st) then
          (* a separator before the last portion: stop *)
          {| startDot := startDot st; startPart := i + 1; end_ := end_ st;
             matchedSlash := matchedSlash st; preDotState := preDotState st |}
        else ext_scan rest (i - 1) st
      else
        let st1 :=
          if end_ st =? -1 then
            {| startDot := startDot st; startPart := startPart st; end_ := i + 1;
               matchedSlash := false; preDotState := preDotState st |}
          else st in
        let st2 :=
          if Ascii.eqb code "." then
            if startDot st1 =? -1 then
              {| startDot := i; startPart := startPart st1; end_ := end_ st1;
                 matchedSlash := matchedSlash st1; preDotState := preDotState st1 |}
            else if negb (preDotState st1 =? 1) then
              {| startDot := startDot st1; startPart := startPart st1; end_ := end_ st1;
                 matchedSlash := matchedSlash st1; preDotState := 1 |}
            else st1
          else if negb (startDot st1 =? -1) then
            {| startDot := startDot st1; startPart := startPart st1; end_ := end_ st1;
               matchedSlash := matchedSlash st1; preDotState := -1 |}
          else st1 in
        ext_scan rest (i - 1) st2
  end.

Definition rev_chars (p : string) : list ascii := rev (list_ascii_of_string p).

(** The test after the loop: no dot, no portion, no character before the
    dot, or the portion is [".."]. *)
Definition noExtension (st : ext_state) : bool :=
  (startDot st =? -1) || (end_ st =? -1) || (preDotState st =? 0) ||
  ((preDotState st =? 1) && (startDot st =? end_ st - 1) &&
   (startDot st =? startPart st + 1)).

(** [path.extname(p)]. *)
Definition extname (p : string) : string :=
  let st := ext_scan (rev_chars p) (Z.of_nat (String.length p) - 1) ext_init in
  if noExtension st then EmptyString
  else JS.slice p (startDot st) (end_ st).

Record base_state := mkBase {
  b_start : Z;
  b_end : Z;
  b_matchedSlash : bool }.

Fixpoint base_scan (chars : list ascii) (i : Z) (st : base_state) : base_state :=
  match chars with
  | [] => st
  | code :: rest =>
      if Ascii.eqb code "/" then
        if negb (b_matchedSlash st) then
          {| b_start := i + 1; b_end := b_end st; b_matchedSlash := b_matchedSlash st |}
        else base_scan rest (i - 1) st
      else if b_end st =? -1 then
        base_scan rest (i - 1)
          {| b_start := b_start st; b_end := i + 1; b_matchedSlash := false |}
      else base_scan rest (i - 1) st
  end.

(** [path.basename(p)] (no suffix argument). *)
Definition basename (p : string) : string :=
  let st := base_scan (rev_chars p) (Z.of_nat (String.length p) - 1)
              {| b_start := 0; b_end := -1; b_matchedSlash := true |} in
  if b_end st =? -1 then EmptyString else JS.slice p (b_start st) (b_end st).

End NodePath.

(** ** Data model ([types.ts]) *)

(** [TreeItem["type"]]: ["blob" | "tree"]. *)
Inductive TreeItemType := blob | tree.

(** [FileEntry["type"]]: ["file" | "directory"]. *)
Inductive FileEntryType := file | directory.

(** [EntryType]: ["file" | "dir" | "all"]. *)
Inductive EntryType := type_file | type_dir | type_all.

#[global] Instance TreeItemType_eq_dec : EqDecision TreeItemType.
Proof. solve_decision. Defined.
#[global] Instance FileEntryType_eq_dec : EqDecision FileEntryType.
Proof. solve_decision. Defined.
#[global] Instance EntryType_eq_dec : EqDecision EntryType.
Proof. solve_decision. Defined.

Module TreeItem.
Record t := mk {
  path : string;
  mode : string;
  type : TreeItemType;
  sha : string;
  size : option Z }.
End TreeItem.

Module TreeResponse.
Record t := mk {
  sha : string;
  tree : list TreeItem.t;
  truncated : bool }.
End TreeResponse.

Module FileEntry.
Record t := mk {
  path : string;
  type : FileEntryType;
  sha : string;
  size : option Z;
  extension : option string;
  content : option string }.

(** [{ ...entry, content: c }]. *)
Definition with_content (e : t) (c : option string) : t :=
  {| path := path e; type := type e; sha := sha e; size := size e;
     extension := extension e; content := c |}.
End FileEntry.

Module RateLimitInfo.
(** The numbers come from [parseInt]; [None] is [NaN]. [reset] is the
    millisecond timestamp of the [Date]. *)
Record t := mk {
  limit : option Z;
  remaining : option Z;
  used : option Z;
  reset : option Z }.
End RateLimitInfo.

Module RepoFetchResult.
Record t := mk {
  repo : string;
  branch : string;
  truncated : bool;
  files : list FileEntry.t;
  rateLimit : option RateLimitInfo.t;
  isAuthenticated : option bool }.
End RepoFetchResult.

Module RepoFetchOptions.
Record t := mk {
  branch : option string;
  token : option string;
  extensions : option (list string);
  exclude : option (list string);
  include : option (list string);
  type : option EntryType;
  content : option bool;
  shas : option (list string);
  maxFileSize : option Z;
  concurrency : option nat }.
End RepoFetchOptions.

(** ** The HTTP boundary

    A request is the endpoint addressed under [API_BASE] together with the
    headers sent; a response is what the client reads of it: status, the four
    rate-limit headers, and the JSON body. *)

Inductive Endpoint :=
| GetRepo (repo : string)                 (* /repos/${repo} *)
| GetCommit (repo ref : string)           (* /repos/${repo}/commits/${ref} *)
| GetTree (repo sha : string)             (* /repos/${repo}/git/trees/${sha}?recursive=1 *)
| GetBlob (repo sha : string).            (* /repos/${repo}/git/blobs/${sha} *)

Record Request := mkRequest {
  endpoint : Endpoint;
  req_headers : list (string * string) }.

Inductive Body :=
| BodyRepo (default_branch : string)      (* { default_branch } *)
| BodyCommit (tree_sha : string)          (* { commit: { tree: { sha } } } *)
| BodyTree (t : TreeResponse.t)
| BodyBlob (content : string)             (* { content, encoding: "base64" } *)
| BodyOther.

Record Response := mkResponse {
  status : Z;
  statusText : string;
  x_ratelimit_limit : option string;
  x_ratelimit_remaining : option string;
  x_ratelimit_used : option string;
  x_ratelimit_reset : option string;
  body : Body }.

(** [res.ok]. *)
Definition ok (res : Response) : bool := (200 <=? status res) && (status res <=? 299).

(** What the code throws. The messages of the sources are kept as
    constructors carrying the interpolated values. *)
Inductive error :=
| RepoNotFound (repo : string)            (* Repository "${repo}" not found or is private *)
| RateLimitExceeded                       (* GitHub API rate limit exceeded. ... *)
| GitHubApiError (st : Z) (txt : string)  (* GitHub API error: ${status} ${statusText} *)
| FailedToGetCommit (st : Z) (txt : string)
| FailedToGetTree (st : Z) (txt : string)
| FailedToGetBlob (st : Z) (txt : string)
| FetchFailed                             (* fetch() rejected: no response *)
| UnexpectedBody                          (* the JSON has not the shape read from it *)
| InvalidRegExp (source : string).        (* new RegExp(source) threw SyntaxError *)

Inductive result (A : Type) :=
| Ok (a : A)
| Throw (e : error).
Arguments Ok {A} a.
Arguments Throw {A} e.

Definition rbind {A B} (r : result A) (k : A -> result B) : result B :=
  match r with
  | Ok a => k a
  | Throw e => Throw e
  end.

Declare Scope result_scope.
Delimit Scope result_scope with res.
Notation "x <- r ;; k" := (rbind r (fun x => k))
  (at level 100, r at next level, right associativity) : result_scope.

(** ** What the runtime provides *)

Inductive Event :=
| EvRequest (rq : Request)                 (* a call of fetch() *)
| EvProgress (completed total : nat).      (* a call of onProgress *)

Class Runtime := {
  (** [a.localeCompare(b)] *)
  localeCompare : string -> string -> Z;
  (** [new RegExp(source)]: [None] when the source is not a regular expression *)
  RegExp : Type;
  newRegExp : string -> option RegExp;
  RegExp_test : RegExp -> string -> bool;
  (** [parseInt(s, 10)]: [None] is [NaN] *)
  parseInt10 : string -> option Z;
  (** [Buffer.from(s, "base64").toString("utf-8")] *)
  base64_decode : string -> string;
  (** the server: answers a request and moves on; [None] is a network failure *)
  Net : Type;
  respond : Request -> Net -> option Response * Net;
  (** the state an [onProgress] observer keeps *)
  Obs : Type }.

(** ** [filter.ts] *)

Module FilterOptions.
Record t := mk {
  extensions : option (list string);
  exclude : option (list string);
  include : option (list string);
  type : option EntryType;
  maxFileSize : option Z }.
End FilterOptions.

Section Filter.
Context `{RT : Runtime}.
Local Open Scope string_scope.
Local Open Scope Z_scope.
Local Open Scope res.

Definition getExtension (filePath : string) : string :=
  let ext := NodePath.extname filePath in
  JS.toLowerCase ext.

(** The source text of the regular expression built from a wildcard pattern. *)
Definition patternSource (pattern : string) : string :=
  String.append "^"
    (String.append (JS.replaceAll "*" ".*" (JS.replaceAll "." "\." pattern)) "$").

Definition matchesPattern (filePath pattern : string) : result bool :=
  if JS.includes pattern "*" then
    match newRegExp (patternSource pattern) with
    | None => Throw (InvalidRegExp (patternSource pattern))
    | Some regex =>
        Ok (RegExp_test regex filePath || RegExp_test regex (NodePath.basename filePath))
    end
  else
    Ok (JS.includes filePath pattern || JS.includes (NodePath.basename filePath) pattern).

(** [patterns.some((pattern) => matchesPattern(path, pattern))]. *)
Fixpoint somePattern (filePath : string) (patterns : list string) : result bool :=
  match patterns with
  | [] => Ok false
  | pattern :: rest =>
      m <- matchesPattern filePath pattern ;;
      if m then Ok true else somePattern filePath rest
  end.

(** A JavaScript number used as a condition. *)
Definition truthy (n : option Z) : bool :=
  match n with
  | Some v => negb (v =? 0)
  | None => false
  end.

Definition nonEmpty {A} (l : option (list A)) : bool :=
  match l with
  | Some (_ :: _) => true
  | _ => false
  end.

Definition normalizeExt (e : string) : string :=
  if JS.startsWith e "." then JS.toLowerCase e
  else String.append "." (JS.toLowerCase e).

(** [a > b] on optional numbers that were found truthy. *)
Definition gtNum (a b : option Z) : bool :=
  match a, b with
  | Some x, Some y => x >? y
  | _, _ => false
  end.

(** The body of the loop of [filterTree] for one item: [Ok None] is
    [continue], [Ok (Some e)] is [entries.push(e)]. *)
Definition filterItem (options : FilterOptions.t) (item : TreeItem.t)
  : result (option FileEntry.t) :=
  let extensions := FilterOptions.extensions options in
  let exclude := FilterOptions.exclude options in
  let include := FilterOptions.include options in
  let maxFileSize := FilterOptions.maxFileSize options in
  let typeFilter := default type_all (FilterOptions.type options) in
  let isFile := bool_decide (TreeItem.type item = blob) in
  let isDir := bool_decide (TreeItem.type item = tree) in
  let ext := getExtension (TreeItem.path item) in
  if bool_decide (typeFilter = type_file) && negb isFile then Ok None
  else if bool_decide (typeFilter = type_dir) && negb isDir then Ok None
  else
    inc <- (if nonEmpty include
            then somePattern (TreeItem.path item) (default [] include)
            else Ok true) ;;
    if negb inc then Ok None
    else
      exc <- (if nonEmpty exclude
              then somePattern (TreeItem.path item) (default [] exclude)
              else Ok false) ;;
      if exc then Ok None
      else if isFile &&
              nonEmpty extensions &&
              negb (JS.arrayIncludes (map normalizeExt (default [] extensions)) ext)
      then Ok None
      else if isFile && truthy maxFileSize && truthy (TreeItem.size item) &&
              gtNum (TreeItem.size item) maxFileSize
      then Ok None
      else
        Ok (Some {| FileEntry.path := TreeItem.path item;
                    FileEntry.type := if isFile then file else directory;
                    FileEntry.sha := TreeItem.sha item;
                    FileEntry.size := TreeItem.size item;
                    FileEntry.extension :=
                      if isFile then (if String.eqb ext "" then None else Some ext)
                      else None;
                    FileEntry.content := None |}).

Fixpoint filterTree (items : list TreeItem.t) (options : FilterOptions.t)
  : result (list FileEntry.t) :=
  match items with
  | [] => Ok []
  | item :: rest =>
      r <- filterItem options item ;;
      entries <- filterTree rest options ;;
      Ok (match r with Some e => e :: entries | None => entries end)
  end.

(** The comparison loop of [sortEntries]: [n] iterations are left, the next
    one at index [i]. *)
Fixpoint compareParts (aParts bParts : list string) (i n : nat) : Z :=
  match n with
  | O => Z.of_nat (length aParts) - Z.of_nat (length bParts)
  | S n' =>
      let aIsLast := Nat.eqb i (length aParts - 1) in
      let bIsLast := Nat.eqb i (length bParts - 1) in
      if negb aIsLast && bIsLast then -1
      else if aIsLast && negb bIsLast then 1
      else
        let cmp := localeCompare (nth i aParts "") (nth i bParts "") in
        if negb (cmp =? 0) then cmp
        else compareParts aParts bParts (S i) n'
  end.

(** The comparator passed to [entries.sort]. *)
Definition compareEntries (a b : FileEntry.t) : Z :=
  let aParts := JS.split "/" (FileEntry.path a) in
  let bParts := JS.split "/" (FileEntry.path b) in
  let minLen := Nat.min (length aParts) (length bParts) in
  compareParts aParts bParts 0 minLen.

(** [Array.prototype.sort] is a stable sort: an element goes before the first
    one it does not compare greater than. *)
Fixpoint sortInsert {A} (cmp : A -> A -> Z) (x : A) (l : list A) : list A :=
  match l with
  | [] => [x]
  | y :: t => if cmp x y <=? 0 then x :: y :: t else y :: sortInsert cmp x t
  end.

Fixpoint arraySort {A} (cmp : A -> A -> Z) (l : list A) : list A :=
  match l with
  | [] => []
  | x :: t => sortInsert cmp x (arraySort cmp t)
  end.

Definition sortEntries (entries : list FileEntry.t) : list FileEntry.t :=
  arraySort compareEntries entries.

End Filter.

(** ** [github.ts]: the client

    The client object has two immutable fields and the mutable [_rateLimit];
    the latter lives in the state [Sys] that every call threads, next to the
    server, the observer's state and the record of the calls made. *)

Module GitHubClient.
Record t := mk {
  token : option string;
  headers : list (string * string) }.
End GitHubClient.

Module FetchContentOptions.
Record t `{RT : Runtime} := mk {
  concurrency : option nat;
  maxFileSize : option Z;
  filterShas : option (gset string);
  onProgress : option (nat -> nat -> Obs -> Obs) }.
End FetchContentOptions.

Section Client.
Context `{RT : Runtime}.
Local Open Scope string_scope.
Local Open Scope Z_scope.

Record Sys := mkSys {
  _rateLimit : option RateLimitInfo.t;
  net : Net;
  obs : Obs;
  trace : list Event }.

(** The outcome of an asynchronous call: it resolves, it rejects, or the
    bounded unrolling of a loop did not reach the end of the loop. *)
Inductive outcome (A : Type) :=
| Done (a : A) (s : Sys)
| Thrown (e : error) (s : Sys)
| OutOfFuel.
Arguments Done {A} a s.
Arguments Thrown {A} e s.
Arguments OutOfFuel {A}.

Definition M (A : Type) : Type := Sys -> outcome A.

Definition ret {A} (a : A) : M A := fun s => Done a s.

Definition throw {A} (e : error) : M A := fun s => Thrown e s.

Definition bind {A B} (m : M A) (k : A -> M B) : M B :=
  fun s =>
    match m s with
    | Done a s' => k a s'
    | Thrown e s' => Thrown e s'
    | OutOfFuel => OutOfFuel
    end.

(** A pure function that may throw, called from asynchronous code. *)
Definition lift {A} (r : result A) : M A :=
  match r with
  | Ok a => ret a
  | Throw e => throw e
  end.

(** What [Promise.allSettled] makes of one promise. *)
Definition settle {A} (m : M A) : M (result A) :=
  fun s =>
    match m s with
    | Done a s' => Done (Ok a) s'
    | Thrown e s' => Done (Throw e) s'
    | OutOfFuel => OutOfFuel
    end.

Declare Scope M_scope.
Delimit Scope M_scope with M.
Notation "x <- m ;; k" := (bind m (fun x => k))
  (at level 100, m at next level, right associativity) : M_scope.
Notation "m ;;; k" := (bind m (fun _ => k))
  (at level 100, right associativity) : M_scope.
Local Open Scope M_scope.

(** A JavaScript string used as a condition. *)
Definition truthyStr (s : option string) : bool :=
  match s with
  | Some v => negb (String.eqb v "")
  | None => false
  end.

(** [new GitHubClient(token)]. *)
Definition newGitHubClient (token : option string) : M GitHubClient.t :=
  fun s =>
    Done {| GitHubClient.token := token;
            GitHubClient.headers :=
              [("Accept", "application/vnd.github.v3+json");
               ("User-Agent", "repofetch-cli")] ++
              (if truthyStr token
               then [("Authorization", String.append "Bearer " (default "" token))]
               else []) |}
         {| _rateLimit := None; net := net s; obs := obs s; trace := trace s |}.

(** [get isAuthenticated()]. *)
Definition isAuthenticated (client : GitHubClient.t) : bool :=
  truthyStr (GitHubClient.token client).

(** [get rateLimit()]. *)
Definition rateLimit (client : GitHubClient.t) : M (option RateLimitInfo.t) :=
  fun s => Done (_rateLimit s) s.

(** [fetch(url, { headers })]. *)
Definition fetch (client : GitHubClient.t) (e : Endpoint) : M Response :=
  fun s =>
    let rq := {| endpoint := e; req_headers := GitHubClient.headers client |} in
    let '(r, n) := respond rq (net s) in
    let s' := {| _rateLimit := _rateLimit s; net := n; obs := obs s;
                 trace := trace s ++ [EvRequest rq] |} in
    match r with
    | Some res => Done res s'
    | None => Thrown FetchFailed s'
    end.

Definition updateRateLimit (res : Response) : M unit :=
  fun s =>
    let limit := x_ratelimit_limit res in
    let remaining := x_ratelimit_remaining res in
    let used := x_ratelimit_used res in
    let reset := x_ratelimit_reset res in
    if truthyStr limit && truthyStr remaining && truthyStr used && truthyStr reset then
      Done tt
        {| _rateLimit :=
             Some {| RateLimitInfo.limit := parseInt10 (default "" limit);
                     RateLimitInfo.remaining := parseInt10 (default "" remaining);
                     RateLimitInfo.used := parseInt10 (default "" used);
                     RateLimitInfo.reset :=
                       (fun n => n * 1000) <$> parseInt10 (default "" reset) |};
           net := net s; obs := obs s; trace := trace s |}
    else Done tt s.

(** [(await res.json()).default_branch] and its kin. *)
Definition json_default_branch (res : Response) : M string :=
  match body res with BodyRepo b => ret b | _ => throw UnexpectedBody end.

Definition json_commit_tree_sha (res : Response) : M string :=
  match body res with BodyCommit sha => ret sha | _ => throw UnexpectedBody end.

Definition json_tree (res : Response) : M TreeResponse.t :=
  match body res with BodyTree t => ret t | _ => throw UnexpectedBody end.

Definition json_blob_content (res : Response) : M string :=
  match body res with BodyBlob c => ret c | _ => throw UnexpectedBody end.

Definition getDefaultBranch (client : GitHubClient.t) (repo : string) : M string :=
  res <- fetch client (GetRepo repo) ;;
  updateRateLimit res ;;;
  if negb (ok res) then
    if status res =? 404 then throw (RepoNotFound repo)
    else if status res =? 403 then throw RateLimitExceeded
    else throw (GitHubApiError (status res) (statusText res))
  else
    json_default_branch res.

Definition getTree (client : GitHubClient.t) (repo branch : string)
  : M (TreeResponse.t * string) :=
  let targetBranch := branch in
  res <- fetch client (GetCommit repo targetBranch) ;;
  updateRateLimit res ;;;
  rb <-
     (if negb (ok res) && ((status res =? 404) || (status res =? 422)) then
        targetBranch <- getDefaultBranch client repo ;;
        res <- fetch client (GetCommit repo targetBranch) ;;
        updateRateLimit res ;;;
        ret (res, targetBranch)
      else ret (res, targetBranch)) ;;
  let '(res, targetBranch) := rb in
  if negb (ok res) then
    if status res =? 403 then throw RateLimitExceeded
    else throw (FailedToGetCommit (status res) (statusText res))
  else
    treeSha <- json_commit_tree_sha res ;;
    treeRes <- fetch client (GetTree repo treeSha) ;;
    updateRateLimit treeRes ;;;
    if negb (ok treeRes) then
      throw (FailedToGetTree (status treeRes) (statusText treeRes))
    else
      tree_ <- json_tree treeRes ;;
      ret (tree_, targetBranch).

(** [getBlob] returns the parsed body; only its [content] is read. *)
Definition getBlob (client : GitHubClient.t) (repo sha : string) : M string :=
  res <- fetch client (GetBlob repo sha) ;;
  updateRateLimit res ;;;
  if negb (ok res) then throw (FailedToGetBlob (status res) (statusText res))
  else json_blob_content res.

Definition getBlobContent (client : GitHubClient.t) (repo sha : string) : M string :=
  content <- getBlob client repo sha ;;
  ret (base64_decode content).

(** ** [content.ts] *)

Definition DEFAULT_CONCURRENCY : nat := 5.
Definition DEFAULT_MAX_FILE_SIZE : Z := 1024 * 1024.

(** The predicate of [entries.filter] that selects the files to fetch. *)
Definition needsContent (maxFileSize : Z) (filterShas : option (gset string))
    (e : FileEntry.t) : bool :=
  if negb (bool_decide (FileEntry.type e = file)) then false
  else if truthy (FileEntry.size e) && gtNum (FileEntry.size e) (Some maxFileSize) then false
  else if match filterShas with
          | Some shas => negb (bool_decide (FileEntry.sha e ∈ shas))
          | None => false
          end then false
  else true.

(** [Promise.allSettled(batch.map(async (entry) => ...))]: the requests are
    issued in the order of the batch and the outcomes are reported in that
    order; nothing later runs before all of them have settled. *)
Fixpoint allSettled (client : GitHubClient.t) (repo : string) (batch : list FileEntry.t)
  : M (list (result (string * string))) :=
  match batch with
  | [] => ret []
  | entry :: rest =>
      r <- settle (content <- getBlobContent client repo (FileEntry.sha entry) ;;
                   ret (FileEntry.sha entry, content)) ;;
      rs <- allSettled client repo rest ;;
      ret (r :: rs)
  end.

(** [onProgress?.(completed, total)]. *)
Definition callOnProgress (onProgress : option (nat -> nat -> Obs -> Obs))
    (completed total : nat) : M unit :=
  match onProgress with
  | None => ret tt
  | Some f =>
      fun s => Done tt {| _rateLimit := _rateLimit s; net := net s;
                          obs := f completed total (obs s);
                          trace := trace s ++ [EvProgress completed total] |}
  end.

(** [for (const result of batchResults) { ... }]. *)
Fixpoint recordResults (onProgress : option (nat -> nat -> Obs -> Obs)) (total : nat)
    (batchResults : list (result (string * string)))
    (results : gmap string string) (completed : nat)
  : M (gmap string string * nat) :=
  match batchResults with
  | [] => ret (results, completed)
  | r :: rest =>
      let results :=
        match r with
        | Ok (sha, content) => <[sha := content]> results
        | Throw _ => results
        end in
      let completed := S completed in
      callOnProgress onProgress completed total ;;;
      recordResults onProgress total rest results completed
  end.

(** [for (let i = 0; i < filesToFetch.length; i += concurrency) { ... }],
    unrolled at most [fuel] times. *)
Fixpoint batchLoop (fuel : nat) (client : GitHubClient.t) (repo : string)
    (filesToFetch : list FileEntry.t) (concurrency : nat)
    (onProgress : option (nat -> nat -> Obs -> Obs))
    (i : nat) (results : gmap string string) (completed : nat)
  : M (gmap string string) :=
  if Nat.ltb i (length filesToFetch) then
    match fuel with
    | O => fun _ => OutOfFuel
    | S fuel' =>
        let batch := JS.arraySlice filesToFetch i (i + concurrency) in
        batchResults <- allSettled client repo batch ;;
        rc <- recordResults onProgress (length filesToFetch) batchResults
                results completed ;;
        let '(results, completed) := rc in
        batchLoop fuel' client repo filesToFetch concurrency onProgress
          (i + concurrency) results completed
    end
  else ret results.

(** [entries.map((entry) => ...)]: merge the contents back. *)
Definition mergeContent (results : gmap string string) (entry : FileEntry.t) : FileEntry.t :=
  if bool_decide (FileEntry.type entry = file) &&
     bool_decide (is_Some (results !! FileEntry.sha entry))
  then FileEntry.with_content entry (results !! FileEntry.sha entry)
  else entry.

Definition fetchContent (fuel : nat) (client : GitHubClient.t) (repo : string)
    (entries : list FileEntry.t) (options : FetchContentOptions.t)
  : M (list FileEntry.t) :=
  let concurrency := default DEFAULT_CONCURRENCY (FetchContentOptions.concurrency options) in
  let maxFileSize := default DEFAULT_MAX_FILE_SIZE (FetchContentOptions.maxFileSize options) in
  let filterShas := FetchContentOptions.filterShas options in
  let onProgress := FetchContentOptions.onProgress options in
  let filesToFetch := filter (fun e => needsContent maxFileSize filterShas e = true) entries in
  if Nat.eqb (length filesToFetch) 0 then ret entries
  else
    results <- batchLoop fuel client repo filesToFetch concurrency onProgress 0 ∅ 0 ;;
    ret (map (mergeContent results) entries).

(** ** [index.ts] *)

Definition repofetch (fuel : nat) (repo : string) (options : RepoFetchOptions.t)
  : M RepoFetchResult.t :=
  let branch := default "main" (RepoFetchOptions.branch options) in
  let token := RepoFetchOptions.token options in
  let extensions := RepoFetchOptions.extensions options in
  let exclude := RepoFetchOptions.exclude options in
  let include := RepoFetchOptions.include options in
  let type := RepoFetchOptions.type options in
  let content := default false (RepoFetchOptions.content options) in
  let shas := RepoFetchOptions.shas options in
  let maxFileSize := default (1024 * 1024) (RepoFetchOptions.maxFileSize options) in
  let concurrency := default 5%nat (RepoFetchOptions.concurrency options) in
  client <- newGitHubClient token ;;
  tb <- getTree client repo branch ;;
  let '(tree_, actualBranch) := tb in
  entries <- lift (filterTree (TreeResponse.tree tree_)
                     {| FilterOptions.extensions := extensions;
                        FilterOptions.exclude := exclude;
                        FilterOptions.include := include;
                        FilterOptions.type := type;
                        FilterOptions.maxFileSize :=
                          if content then Some maxFileSize else None |}) ;;
  let entries := sortEntries entries in
  entries <-
    (if content || nonEmpty shas then
       let shaSet : option (gset string) := list_to_set <$> shas in
       fetchContent fuel client repo entries
         {| FetchContentOptions.concurrency := Some concurrency;
            FetchContentOptions.maxFileSize := Some maxFileSize;
            FetchContentOptions.filterShas := shaSet;
            FetchContentOptions.onProgress := None |}
     else ret entries) ;;
  ret {| RepoFetchResult.repo := repo;
         RepoFetchResult.branch := actualBranch;
         RepoFetchResult.truncated := TreeResponse.truncated tree_;
         RepoFetchResult.files := entries;
         RepoFetchResult.rateLimit := None;
         RepoFetchResult.isAuthenticated := None |}.

End Client.

Arguments Done {RT A} a s.
Arguments Thrown {RT A} e s.
Arguments OutOfFuel {RT A}.

(** ** A runtime to run the model on

    A code-unit [localeCompare], a matcher for the regular expressions that
    [patternSource] builds from patterns of plain characters, ['.'] and ['*'],
    a decimal [parseInt], a server whose answers are a table indexed by the
    number of requests served so far, and an observer that writes down the
    calls it receives. It is used to evaluate the model on concrete inputs. *)

Module Double.

Definition codeUnitCompare (a b : string) : Z :=
  match String.compare a b with
  | Eq => 0
  | Lt => -1
  | Gt => 1
  end.

Inductive tok := TAny | TOne | TChar (c : ascii).

Definition special (c : ascii) : bool :=
  existsb (Ascii.eqb c) ["("; ")"; "["; "]"; "{"; "}"; "+"; "?"; "|"; "^"; "$"; "*"; "\"]%char.

Fixpoint parse (s : string) : option (list tok) :=
  match s with
  | EmptyString => None
  | String "$" EmptyString => Some []
  | String "\" (String c r) => cons (TChar c) <$> parse r
  | String "." (String "*" r) => cons TAny <$> parse r
  | String "." r => cons TOne <$> parse r
  | String c r => if special c then None else cons (TChar c) <$> parse r
  end.

Definition compile (source : string) : option (list tok) :=
  match source with
  | String "^" r => parse r
  | _ => None
  end.

Fixpoint test (toks : list tok) (s : string) {struct toks} : bool :=
  match toks with
  | [] => String.eqb s ""
  | TChar c :: r =>
      match s with
      | String x s' => Ascii.eqb c x && test r s'
      | EmptyString => false
      end
  | TOne :: r =>
      match s with
      | String _ s' => test r s'
      | EmptyString => false
      end
  | TAny :: r =>
      (fix any (s : string) : bool :=
         test r s || match s with
                     | String _ s' => any s'
                     | EmptyString => false
                     end) s
  end.

Definition digit (c : ascii) : option Z :=
  let n := nat_of_ascii c in
  if (Nat.leb 48 n && Nat.leb n 57)%bool then Some (Z.of_nat (n - 48)) else None.

Fixpoint digits (s : string) (acc : option Z) : option Z :=
  match s with
  | EmptyString => acc
  | String c r =>
      match digit c with
      | Some d => digits r (Some (10 * default 0 acc + d))
      | None => acc
      end
  end.

Definition decimal (s : string) : option Z := digits s None.

Definition Server : Type := nat * (nat -> Endpoint -> option Response).

Definition serve (rq : Request) (n : Server) : option Response * Server :=
  (n.2 n.1 (endpoint rq), (S n.1, n.2)).

Definition Log : Type := list (nat * nat).

Definition recorder (completed total : nat) (o : Log) : Log := o ++ [(completed, total)].

Definition runtime : Runtime :=
  {| localeCompare := codeUnitCompare;
     RegExp := list tok;
     newRegExp := compile;
     RegExp_test := test;
     parseInt10 := decimal;
     base64_decode := fun s => s;
     Net := Server;
     respond := serve;
     Obs := Log |}.

(** A response with the given status and body, without rate-limit headers. *)
Definition reply (st : Z) (txt : string) (b : Body) : Response :=
  {| status := st; statusText := txt;
     x_ratelimit_limit := None; x_ratelimit_remaining := None;
     x_ratelimit_used := None; x_ratelimit_reset := None; body := b |}.

(** The same with the four rate-limit headers. *)
Definition replyLimited (st : Z) (txt : string) (l r u t : string) (b : Body) : Response :=
  {| status := st; statusText := txt;
     x_ratelimit_limit := Some l; x_ratelimit_remaining := Some r;
     x_ratelimit_used := Some u; x_ratelimit_reset := Some t; body := b |}.

Definition start (server : nat -> Endpoint -> option Response) : @Sys runtime :=
  @mkSys runtime None (0%nat, server) [] [].

Definition blobItem (path sha : string) (size : Z) : TreeItem.t :=
  {| TreeItem.path := path; TreeItem.mode := "100644"; TreeItem.type := blob;
     TreeItem.sha := sha; TreeItem.size := Some size |}.

Definition treeItem (path sha : string) : TreeItem.t :=
  {| TreeItem.path := path; TreeItem.mode := "040000"; TreeItem.type := tree;
     TreeItem.sha := sha; TreeItem.size := None |}.

Definition fileEntry (path sha : string) (size : Z) (ext : option string) : FileEntry.t :=
  {| FileEntry.path := path; FileEntry.type := file; FileEntry.sha := sha;
     FileEntry.size := Some size; FileEntry.extension := ext;
     FileEntry.content := None |}.

Definition dirEntry (path sha : string) : FileEntry.t :=
  {| FileEntry.path := path; FileEntry.type := directory; FileEntry.sha := sha;
     FileEntry.size := None; FileEntry.extension := None;
     FileEntry.content := None |}.

Definition noFilter : FilterOptions.t :=
  {| FilterOptions.extensions := None; FilterOptions.exclude := None;
     FilterOptions.include := None; FilterOptions.type := None;
     FilterOptions.maxFileSize := None |}.

(** The repository of the examples: default branch ["main"], four files and
    a directory; the last file is larger than the default bound of 1 MiB.
    [failing sha n] tells whether the blob request for [sha] fails when [n]
    requests were served before it. *)
Definition demoTree : TreeResponse.t :=
  {| TreeResponse.sha := "t1";
     TreeResponse.tree :=
       [blobItem "README.md" "b1" 10;
        treeItem "src" "d1";
        blobItem "src/a.ts" "b2" 20;
        blobItem "src/b.ts" "b3" 30;
        blobItem "src/big.bin" "b4" 2000000];
     TreeResponse.truncated := false |}.

Definition demoServer (failing : string -> nat -> bool) (n : nat) (ep : Endpoint)
  : option Response :=
  match ep with
  | GetRepo _ =>
      Some (replyLimited 200 "OK" "60" "58" "2" "1700000000" (BodyRepo "main"))
  | GetCommit _ ref =>
      if String.eqb ref "main"
      then Some (replyLimited 200 "OK" "60" "57" "3" "1700000000" (BodyCommit "t1"))
      else Some (replyLimited 404 "Not Found" "60" "59" "1" "1700000000" BodyOther)
  | GetTree _ _ =>
      Some (replyLimited 200 "OK" "60" "56" "4" "1700000000" (BodyTree demoTree))
  | GetBlob _ sha =>
      if failing sha n then Some (reply 500 "Internal Server Error" BodyOther)
      else Some (reply 200 "OK" (BodyBlob (String.append "content of " sha)))
  end.

Definition neverFails (sha : string) (n : nat) : bool := false.

(** A server on which no commit lookup succeeds, not even for ["main"]. *)
Definition brokenServer (n : nat) (ep : Endpoint) : option Response :=
  match ep with
  | GetRepo _ => Some (reply 200 "OK" (BodyRepo "main"))
  | _ => Some (reply 404 "Not Found" BodyOther)
  end.

Definition anonymous : GitHubClient.t :=
  {| GitHubClient.token := None;
     GitHubClient.headers :=
       [("Accept", "application/vnd.github.v3+json"); ("User-Agent", "repofetch-cli")] |}.

(** Entries to fetch contents for: three files within the bound, a
    directory, and a file beyond the bound. *)
Definition demoEntries : list FileEntry.t :=
  [fileEntry "README.md" "b1" 10 (Some ".md");
   dirEntry "src" "d1";
   fileEntry "src/a.ts" "b2" 20 (Some ".ts");
   fileEntry "src/b.ts" "b3" 30 (Some ".ts");
   fileEntry "src/big.bin" "b4" 2000000 (Some ".bin")].

(** Two files with the same content, hence the same object id. *)
Definition twins : list FileEntry.t :=
  [fileEntry "a/__init__.py" "e69" 5 (Some ".py");
   fileEntry "b/__init__.py" "e69" 5 (Some ".py")].

(** Two entries under one object id, the second with a size beyond the bound. *)
Definition mismatched : list FileEntry.t :=
  [fileEntry "small.txt" "s1" 5 (Some ".txt");
   fileEntry "huge.txt" "s1" 2000000 (Some ".txt")].

Definition failsFor (X : string) (sha : string) (n : nat) : bool := String.eqb sha X.

Definition failsFrom (k : nat) (sha : string) (n : nat) : bool := Nat.leb k n.

Definition twoAtATime (onProgress : option (nat -> nat -> Log -> Log))
  : @FetchContentOptions.t runtime :=
  @FetchContentOptions.mk runtime (Some 2%nat) None None onProgress.

Definition plainOptions (token : option string) (content : option bool)
  : RepoFetchOptions.t :=
  {| RepoFetchOptions.branch := None; RepoFetchOptions.token := token;
     RepoFetchOptions.extensions := None; RepoFetchOptions.exclude := None;
     RepoFetchOptions.include := None; RepoFetchOptions.type := None;
     RepoFetchOptions.content := content; RepoFetchOptions.shas := None;
     RepoFetchOptions.maxFileSize := None; RepoFetchOptions.concurrency := None |}.

Definition includeSrcExcludeTests : FilterOptions.t :=
  {| FilterOptions.extensions := None;
     FilterOptions.exclude := Some ["*.test.*"%string];
     FilterOptions.include := Some ["src"%string];
     FilterOptions.type := None;
     FilterOptions.maxFileSize := None |}.

End Double.

(** ** Vocabulary of the statements

    The conditions that the loop body of [filterTree] tests, one by one, and
    the conditions the design document words differently from the code. *)

Section FilterVocabulary.
Context `{RT : Runtime}.
Local Open Scope string_scope.
Local Open Scope Z_scope.

(** The two [continue] of the type filter. *)
Definition kindDrops (options : FilterOptions.t) (item : TreeItem.t) : bool :=
  let typeFilter := default type_all (FilterOptions.type options) in
  (bool_decide (typeFilter = type_file) && negb (bool_decide (TreeItem.type item = blob))) ||
  (bool_decide (typeFilter = type_dir) && negb (bool_decide (TreeItem.type item = tree))).

(** [matches] of the include block; [true] when the block is skipped. *)
Definition includeCheck (options : FilterOptions.t) (item : TreeItem.t) : result bool :=
  if nonEmpty (FilterOptions.include options)
  then somePattern (TreeItem.path item) (default [] (FilterOptions.include options))
  else Ok true.

(** [matches] of the exclude block; [false] when the block is skipped. *)
Definition excludeCheck (options : FilterOptions.t) (item : TreeItem.t) : result bool :=
  if nonEmpty (FilterOptions.exclude options)
  then somePattern (TreeItem.path item) (default [] (FilterOptions.exclude options))
  else Ok false.

Definition extensionDrops (options : FilterOptions.t) (item : TreeItem.t) : bool :=
  bool_decide (TreeItem.type item = blob) &&
  nonEmpty (FilterOptions.extensions options) &&
  negb (JS.arrayIncludes (map normalizeExt (default [] (FilterOptions.extensions options)))
          (getExtension (TreeItem.path item))).

Definition sizeDrops (options : FilterOptions.t) (item : TreeItem.t) : bool :=
  bool_decide (TreeItem.type item = blob) &&
  truthy (FilterOptions.maxFileSize options) && truthy (TreeItem.size item) &&
  gtNum (TreeItem.size item) (FilterOptions.maxFileSize options).

(** The entry pushed for an item that passes. *)
Definition entryOf (item : TreeItem.t) : FileEntry.t :=
  let isFile := bool_decide (TreeItem.type item = blob) in
  let ext := getExtension (TreeItem.path item) in
  {| FileEntry.path := TreeItem.path item;
     FileEntry.type := if isFile then file else directory;
     FileEntry.sha := TreeItem.sha item;
     FileEntry.size := TreeItem.size item;
     FileEntry.extension :=
       if isFile then (if String.eqb ext "" then None else Some ext) else None;
     FileEntry.content := None |}.

End FilterVocabulary.

(** The endpoints addressed and the progress reports made, read off a trace. *)
Definition requestsOf (tr : list Event) : list Endpoint :=
  omap (fun ev => match ev with
                  | EvRequest rq => Some (endpoint rq)
                  | EvProgress _ _ => None
                  end) tr.

Definition progressOf (tr : list Event) : list (nat * nat) :=
  omap (fun ev => match ev with
                  | EvRequest _ => None
                  | EvProgress completed total => Some (completed, total)
                  end) tr.

(** *** The Batched Content Fetcher, seen from outside

    What one blob request yields depends on the server alone; [blobOutcome]
    and [outcomes] are that part of [getBlobContent] and [allSettled].
    [collect] is what the loop over the settled results does to the map.
    [groups] are the "consecutive groups of size <= N" of the design
    document, and [groupsTrace] the calls they give rise to: for each group
    its requests, then its progress reports. *)

Section FetcherVocabulary.
Context `{RT : Runtime}.
Variable client : GitHubClient.t.
Variable repo : string.

Definition blobRequest (sha : string) : Request :=
  {| endpoint := GetBlob repo sha; req_headers := GitHubClient.headers client |}.

Definition blobOutcome (sha : string) (n : Net) : result (string * string) * Net :=
  let '(r, n') := respond (blobRequest sha) n in
  (match r with
   | None => Throw FetchFailed
   | Some res =>
       if negb (ok res) then Throw (FailedToGetBlob (status res) (statusText res))
       else match body res with
            | BodyBlob c => Ok (sha, base64_decode c)
            | _ => Throw UnexpectedBody
            end
   end, n').

Fixpoint outcomes (files : list FileEntry.t) (n : Net)
  : list (result (string * string)) * Net :=
  match files with
  | [] => ([], n)
  | e :: rest =>
      let '(r, n1) := blobOutcome (FileEntry.sha e) n in
      let '(rs, n2) := outcomes rest n1 in
      (r :: rs, n2)
  end.

Definition collect (rs : list (result (string * string))) (results : gmap string string)
  : gmap string string :=
  fold_left (fun m r => match r with
                        | Ok (sha, content) => <[sha := content]> m
                        | Throw _ => m
                        end) rs results.

(** The content that the settled fetches leave for an object id: that of
    the last fulfilled fetch for it, if there is one. *)
Fixpoint lastFulfilled (outs : list (result (string * string))) (sha : string)
  : option string :=
  match outs with
  | [] => None
  | r :: rest =>
      match lastFulfilled rest sha with
      | Some c => Some c
      | None =>
          match r with
          | Ok (sha', c) => if String.eqb sha' sha then Some c else None
          | Throw _ => None
          end
      end
  end.

Definition observed (onProgress : option (nat -> nat -> Obs -> Obs)) : bool :=
  match onProgress with Some _ => true | None => false end.

Definition reports (observed : bool) (total completed n : nat) : list Event :=
  if observed then map (fun k => EvProgress k total) (seq (S completed) n) else [].

Fixpoint groupsTrace (observed : bool) (total : nat) (gs : list (list FileEntry.t))
    (completed : nat) : list Event :=
  match gs with
  | [] => []
  | g :: rest =>
      map (fun e => EvRequest (blobRequest (FileEntry.sha e))) g ++
      reports observed total completed (length g) ++
      groupsTrace observed total rest (completed + length g)
  end.

Definition observe (onProgress : option (nat -> nat -> Obs -> Obs)) (total : nat)
    (ks : list nat) (o : Obs) : Obs :=
  match onProgress with
  | Some f => fold_left (fun o k => f k total o) ks o
  | None => o
  end.

End FetcherVocabulary.

(** The entries that [fetchContent] selects, and the bound it uses. *)
Definition filesToFetch `{RT : Runtime} (options : FetchContentOptions.t)
    (entries : list FileEntry.t) : list FileEntry.t :=
  filter (fun e => needsContent
                     (default DEFAULT_MAX_FILE_SIZE (FetchContentOptions.maxFileSize options))
                     (FetchContentOptions.filterShas options) e = true) entries.

Definition concurrencyOf `{RT : Runtime} (options : FetchContentOptions.t) : nat :=
  default DEFAULT_CONCURRENCY (FetchContentOptions.concurrency options).

(** Consecutive groups of at most [N] elements, in order. *)
Fixpoint groupsFuel {A} (fuel N : nat) (l : list A) : list (list A) :=
  match fuel with
  | O => []
  | S fuel' =>
      match l with
      | [] => []
      | _ :: _ => take N l :: groupsFuel fuel' N (drop N l)
      end
  end.

Definition groups {A} (N : nat) (l : list A) : list (list A) :=
  groupsFuel (length l) N l.

(** The options of [fetchContent] with another observer. *)
Definition withObserver `{RT : Runtime} (options : FetchContentOptions.t)
    (onProgress : option (nat -> nat -> Obs -> Obs)) : FetchContentOptions.t :=
  {| FetchContentOptions.concurrency := FetchContentOptions.concurrency options;
     FetchContentOptions.maxFileSize := FetchContentOptions.maxFileSize options;
     FetchContentOptions.filterShas := FetchContentOptions.filterShas options;
     FetchContentOptions.onProgress := onProgress |}.

(** The options that [repofetch] passes to [filterTree], for a given size
    bound. *)
Definition filterOptionsOf (options : RepoFetchOptions.t) (maxFileSize : option Z)
  : FilterOptions.t :=
  {| FilterOptions.extensions := RepoFetchOptions.extensions options;
     FilterOptions.exclude := RepoFetchOptions.exclude options;
     FilterOptions.include := RepoFetchOptions.include options;
     FilterOptions.type := RepoFetchOptions.type options;
     FilterOptions.maxFileSize := maxFileSize |}.

(** *** The last portion of a path

    [extname] looks at the last portion of the path: trailing slashes are
    skipped, and the portion ends at the next slash. The portion is read from
    its last character to its first. *)

Fixpoint dropSlashes (r : list ascii) : list ascii :=
  match r with
  | [] => []
  | c :: r' => if Ascii.eqb c "/" then dropSlashes r' else r
  end.

Fixpoint portion (r : list ascii) : list ascii :=
  match r with
  | [] => []
  | c :: r' => if Ascii.eqb c "/" then [] else c :: portion r'
  end.

(** The position of the first ['.'] of a list. *)
Fixpoint firstDot (cs : list ascii) : option nat :=
  match cs with
  | [] => None
  | c :: cs' => if Ascii.eqb c "." then Some 0%nat else S <$> firstDot cs'
  end.

(** The last portion of [p], as a string. *)
Definition lastPortion (p : string) : string :=
  string_of_list_ascii (rev (portion (dropSlashes (NodePath.rev_chars p)))).

(** [p] ends with a slash. *)
Definition endsWithSlash (p : string) : bool :=
  match NodePath.rev_chars p with
  | c :: _ => Ascii.eqb c "/"
  | [] => false
  end.

Fixpoint hasSlash (l : list ascii) : bool :=
  match l with
  | [] => false
  | c :: l' => Ascii.eqb c "/" || hasSlash l'
  end.

Fixpoint hasDot (s : string) : bool :=
  match s with
  | EmptyString => false
  | String c r => Ascii.eqb c "." || hasDot r
  end.

(** A segment has a ['.'] after its first character. *)
Definition innerDot (seg : string) : bool :=
  match seg with
  | EmptyString => false
  | String _ r => hasDot r
  end.

(** Invariants of the scan of [extname] on the path [p]: a dot that was
    found lies before the end of the portion; an end that was found lies
    beyond the position [i] read next. *)
Definition dot_ok (p : string) (st : NodePath.ext_state) : Prop :=
  NodePath.startDot st = -1 \/
  (0 <= NodePath.startDot st < NodePath.end_ st /\
   nth_error (list_ascii_of_string p) (Z.to_nat (NodePath.startDot st)) = Some "."%char).

Definition end_ok (i : Z) (st : NodePath.ext_state) : Prop :=
  NodePath.end_ st = -1 \/ i < NodePath.end_ st.

(** The text after the last ['.'] of a segment; [None] when it has no ['.']. *)
Fixpoint afterLastDot (s : string) : option string :=
  match s with
  | EmptyString => None
  | String c r =>
      match afterLastDot r with
      | Some x => Some x
      | None => if Ascii.eqb c "." then Some r else None
      end
  end.

(** The design document's condition for an extension: "the path has a
    non-empty final-segment suffix after the last [.]". *)
Definition spec_hasSuffix (p : string) : bool :=
  match afterLastDot (List.last (JS.split "/" p) EmptyString) with
  | Some (String _ _) => true
  | _ => false
  end.

(** ** Vocabulary of the further properties *)

(** Filter options with another list of extensions, or another size bound. *)
Definition withExtensions (options : FilterOptions.t) (extensions : option (list string))
  : FilterOptions.t :=
  {| FilterOptions.extensions := extensions;
     FilterOptions.exclude := FilterOptions.exclude options;
     FilterOptions.include := FilterOptions.include options;
     FilterOptions.type := FilterOptions.type options;
     FilterOptions.maxFileSize := FilterOptions.maxFileSize options |}.

Definition withMaxFileSize (options : FilterOptions.t) (maxFileSize : option Z)
  : FilterOptions.t :=
  {| FilterOptions.extensions := FilterOptions.extensions options;
     FilterOptions.exclude := FilterOptions.exclude options;
     FilterOptions.include := FilterOptions.include options;
     FilterOptions.type := FilterOptions.type options;
     FilterOptions.maxFileSize := maxFileSize |}.

(** The include and exclude patterns of the options. *)
Definition patternsOf (options : FilterOptions.t) : list string :=
  default [] (FilterOptions.include options) ++ default [] (FilterOptions.exclude options).

(** The state an asynchronous call ends in, when it ends. *)
Definition stateOf `{RT : Runtime} {A} (o : outcome A) : option Sys :=
  match o with
  | Done _ s => Some s
  | Thrown _ s => Some s
  | OutOfFuel => None
  end.

(** An event is a progress report or a request with the client's headers. *)
Definition sentBy (client : GitHubClient.t) (ev : Event) : Prop :=
  match ev with
  | EvRequest rq => req_headers rq = GitHubClient.headers client
  | EvProgress _ _ => True
  end.

(** From [s] to [s'] the trace grew by events of [client], and a rate-limit
    snapshot that was there is still there. *)
Definition advances `{RT : Runtime} (client : GitHubClient.t) (s s' : Sys) : Prop :=
  (is_Some (_rateLimit s) -> is_Some (_rateLimit s')) /\
  exists evs, trace s' = trace s ++ evs /\ Forall (sentBy client) evs.

(** Every run of [m] advances the state in this way. *)
Definition wellBehaved `{RT : Runtime} {A} (client : GitHubClient.t) (m : M A) : Prop :=
  forall s s', stateOf (m s) = Some s' -> advances client s s'.

(** The endpoints that [getTree] addresses. *)
Definition treeStage (repo : string) (e : Endpoint) : bool :=
  match e with
  | GetRepo r => String.eqb r repo
  | GetCommit r _ => String.eqb r repo
  | GetTree r _ => String.eqb r repo
  | GetBlob _ _ => false
  end.


(** A computation that settles every failure itself. *)
Definition neverThrows `{RT : Runtime} {A} (m : M A) : Prop :=
  forall s e s', m s <> Thrown e s'.

(** What [repofetch] makes of its options: the branch asked for, whether
    contents are fetched, the size bound of the filter and the options of
    [fetchContent]. *)
Definition branchOf (options : RepoFetchOptions.t) : string :=
  default "main"%string (RepoFetchOptions.branch options).

Definition wantsContent (options : RepoFetchOptions.t) : bool :=
  default false (RepoFetchOptions.content options) || nonEmpty (RepoFetchOptions.shas options).

Definition sizeBoundOf (options : RepoFetchOptions.t) : option Z :=
  if default false (RepoFetchOptions.content options)
  then Some (default (1024 * 1024) (RepoFetchOptions.maxFileSize options))
  else None.

Definition contentOptionsOf `{RT : Runtime} (options : RepoFetchOptions.t)
  : FetchContentOptions.t :=
  {| FetchContentOptions.concurrency :=
       Some (default 5%nat (RepoFetchOptions.concurrency options));
     FetchContentOptions.maxFileSize :=
       Some (default (1024 * 1024) (RepoFetchOptions.maxFileSize options));
     FetchContentOptions.filterShas := list_to_set <$> RepoFetchOptions.shas options;
     FetchContentOptions.onProgress := None |}.

Definition resultOf (repo branch : string) (t : TreeResponse.t) (files : list FileEntry.t)
  : RepoFetchResult.t :=
  {| RepoFetchResult.repo := repo;
     RepoFetchResult.branch := branch;
     RepoFetchResult.truncated := TreeResponse.truncated t;
     RepoFetchResult.files := files;
     RepoFetchResult.rateLimit := None;
     RepoFetchResult.isAuthenticated := None |}.

(** An entry without its content. *)
Definition erase (e : FileEntry.t) : FileEntry.t := FileEntry.with_content e None.

(** A computation that comes to an end. *)
Definition returns `{RT : Runtime} {A} (m : M A) : Prop :=
  forall s, m s <> OutOfFuel.

(** ** [output.ts] *)

Module JSText.

(** The line feed, [arr.join(sep)] and [s.repeat(n)]. *)
Definition LF : string := String (ascii_of_nat 10) EmptyString.

Definition join (sep : string) (l : list string) : string := String.concat sep l.

Fixpoint repeat (s : string) (n : nat) : string :=
  match n with
  | O => EmptyString
  | S n' => String.append s (repeat s n')
  end.

(** [String(n)] for an integer [n]: its decimal digits, after a minus sign
    when it is negative. *)
Definition ofInteger (n : Z) : string :=
  DecimalString.NilZero.string_of_int (Z.to_int n).

(** [(n / d).toFixed(1)] for [0 <= n] and [d] a power of two. The quotient
    is a binary fraction, so the division is exact in double precision,
    and [toFixed(1)] prints the integer [t] nearest to ten times the
    quotient - the larger one of two - as the digits of [t / 10], a point,
    and the digit [t mod 10]. *)
Definition toFixed1 (n d : Z) : string :=
  let t := (20 * n + d) / (2 * d) in
  String.append (ofInteger (t / 10)) (String.append "." (ofInteger (t mod 10))).

End JSText.

(** A [Map] from strings, in insertion order: [has], [get], [set] and
    [values]. *)
Module JSMap.
Section JSMap.
Context {V : Type}.

Definition t := list (string * V).

Definition has (m : t) (k : string) : bool :=
  existsb (fun kv => String.eqb (fst kv) k) m.

Fixpoint get (m : t) (k : string) : option V :=
  match m with
  | [] => None
  | (k', v) :: r => if String.eqb k' k then Some v else get r k
  end.

Fixpoint set (m : t) (k : string) (v : V) : t :=
  match m with
  | [] => [(k, v)]
  | (k', v') :: r => if String.eqb k' k then (k', v) :: r else (k', v') :: set r k v
  end.

Definition values (m : t) : list V := map snd m.

(** The value under [k] replaced by [f] of it: what the mutation of an
    object reached through [get] amounts to. *)
Fixpoint update (m : t) (k : string) (f : V -> V) : t :=
  match m with
  | [] => []
  | (k', v) :: r => if String.eqb k' k then (k', f v) :: r else (k', v) :: update r k f
  end.

End JSMap.
Arguments t : clear implicits.
End JSMap.

Module OutputOptions.
(** [format] is what the caller passes: the command line casts any text to
    [OutputFormat]. *)
Record t := mk {
  format : string;
  icons : option bool;
  showSize : option bool;
  showContent : option bool }.
End OutputOptions.

(** [interface TreeNode]. *)
Unset Elimination Schemes.
Inductive TreeNode :=
| Node (name : string) (entry : option FileEntry.t) (children : JSMap.t TreeNode).
Set Elimination Schemes.

Module TreeNode.
Definition name (n : TreeNode) : string := let 'Node x _ _ := n in x.
Definition entry (n : TreeNode) : option FileEntry.t := let 'Node _ x _ := n in x.
Definition children (n : TreeNode) : JSMap.t TreeNode := let 'Node _ _ x := n in x.
End TreeNode.

(** What [JSON.stringify] prints. *)
Class Serializer := {
  JSON_stringify : RepoFetchResult.t -> option Z -> string }.

Section Output.
Context `{RT : Runtime} `{SZ : Serializer}.
Local Open Scope string_scope.
Local Open Scope Z_scope.

(** The body of the loop over the parts of one path, from part [i] on:
    [current] is the node reached so far, [parts] the parts from [i] on. *)
Fixpoint descend (parts : list string) (entry : FileEntry.t) (current : TreeNode)
  : TreeNode :=
  match parts with
  | [] => current
  | part :: rest =>
      let isLast := match rest with [] => true | _ :: _ => false end in
      let children :=
        if negb (JSMap.has (TreeNode.children current) part)
        then JSMap.set (TreeNode.children current) part (Node part None [])
        else TreeNode.children current in
      Node (TreeNode.name current) (TreeNode.entry current)
        (JSMap.update children part
           (fun node =>
              let node :=
                if isLast
                then Node (TreeNode.name node) (Some entry) (TreeNode.children node)
                else node in
              descend rest entry node))
  end.

Definition buildTree (entries : list FileEntry.t) : TreeNode :=
  fold_left (fun root entry => descend (JS.split "/" (FileEntry.path entry)) entry root)
    entries (Node "" None []).

(** [node.entry?.type === "directory" || node.children.size > 0]. *)
Definition isDir (node : TreeNode) : bool :=
  match TreeNode.entry node with
  | Some e => bool_decide (FileEntry.type e = directory)
  | None => false
  end || (0 <? Z.of_nat (length (TreeNode.children node))).

Definition compareNodes (a b : TreeNode) : Z :=
  let aIsDir := isDir a in
  let bIsDir := isDir b in
  if aIsDir && negb bIsDir then -1
  else if negb aIsDir && bIsDir then 1
  else localeCompare (TreeNode.name a) (TreeNode.name b).

Definition sortNodes (nodes : list TreeNode) : list TreeNode :=
  arraySort compareNodes nodes.

Definition formatSize (bytes : Z) : string :=
  if bytes <? 1024 then JSText.ofInteger bytes ++ "B"
  else if bytes <? 1024 * 1024 then JSText.toFixed1 bytes 1024 ++ "KB"
  else JSText.toFixed1 bytes (1024 * 1024) ++ "MB".

(** An optional flag used as a condition. *)
Definition flag (b : option bool) : bool := default false b.

(** The line that [renderNode] pushes for a node. *)
Definition nodeLine (options : OutputOptions.t) (node : TreeNode)
    (prefix : string) (isLast : bool) : string :=
  let connector := if isLast then "└── " else "├── " in
  let isDir := isDir node in
  let icon :=
    if flag (OutputOptions.icons options) then (if isDir then "📁 " else "📄 ") else "" in
  let suffix := if isDir && negb (flag (OutputOptions.icons options)) then "/" else "" in
  let suffix :=
    match FileEntry.size <$> TreeNode.entry node with
    | Some (Some size) =>
        if flag (OutputOptions.showSize options)
        then suffix ++ " (" ++ formatSize size ++ ")"
        else suffix
    | _ => suffix
    end in
  prefix ++ connector ++ icon ++ TreeNode.name node ++ suffix.

Definition childPrefix (prefix : string) (isLast : bool) : string :=
  prefix ++ (if isLast then "    " else "│   ").

(** [children.forEach((child, index) => renderNode(child, prefix, index ===
    children.length - 1))], for children that are already rendered up to
    their prefix and position. *)
Definition forEachChild {A} (children : list A) (render : A -> string -> bool -> list string)
    (prefix : string) : list string :=
  concat (imap (fun index child =>
                  render child prefix (Nat.eqb index (length children - 1))) children).

(** [renderNode]: the lines it pushes, in order. The children are rendered
    as functions of prefix and position first and sorted afterwards, which
    lets the recursion follow the structure of the node;
    [renderNode_sortNodes] has the equation in the order of the source. *)
Fixpoint renderNode (options : OutputOptions.t) (node : TreeNode)
    (prefix : string) (isLast : bool) {struct node} : list string :=
  nodeLine options node prefix isLast ::
  match node with
  | Node _ _ children =>
      let rendered := map (fun kv => (snd kv, renderNode options (snd kv))) children in
      let sorted := arraySort (fun a b => compareNodes (fst a) (fst b)) rendered in
      forEachChild sorted (fun child => snd child) (childPrefix prefix isLast)
  end.

Definition TRUNCATED : string := "⚠️  Tree was truncated (repository too large)".

Definition asciiLines (result : RepoFetchResult.t) (options : OutputOptions.t)
  : list string :=
  let tree := buildTree (RepoFetchResult.files result) in
  let children := sortNodes (JSMap.values (TreeNode.children tree)) in
  forEachChild children (renderNode options) "" ++
  (if RepoFetchResult.truncated result then [""; TRUNCATED] else []).

Definition formatAsciiTree (result : RepoFetchResult.t) (options : OutputOptions.t)
  : string :=
  JSText.join JSText.LF (asciiLines result options).

Definition formatOutput (result : RepoFetchResult.t) (options : OutputOptions.t) : string :=
  if String.eqb (OutputOptions.format options) "json" then JSON_stringify result None
  else if String.eqb (OutputOptions.format options) "json-pretty"
       then JSON_stringify result (Some 2)
  else if String.eqb (OutputOptions.format options) "paths"
       then JSText.join JSText.LF (map FileEntry.path (RepoFetchResult.files result))
  else formatAsciiTree result options.

Definition contentLines (f : FileEntry.t) : list string :=
  match FileEntry.content f with
  | Some content =>
      if bool_decide (FileEntry.type f = file) then
        [JSText.LF ++ JSText.repeat "=" 60;
         "FILE: " ++ FileEntry.path f] ++
        (if truthy (FileEntry.size f)
         then ["SIZE: " ++ formatSize (default 0 (FileEntry.size f))] else []) ++
        [JSText.repeat "=" 60; content]
      else []
  | None => []
  end.

Definition formatContentOutput (result : RepoFetchResult.t) : string :=
  JSText.join JSText.LF (concat (map contentLines (RepoFetchResult.files result))).

End Output.

(** *** Vocabulary for the tree of [output.ts] *)

(** The parts of the path of an entry. *)
Definition partsOf (e : FileEntry.t) : list string := JS.split "/" (FileEntry.path e).

(** The node reached from [node] along the keys [p]. *)
Fixpoint nodeAt (p : list string) (node : TreeNode) : option TreeNode :=
  match p with
  | [] => Some node
  | k :: r =>
      match JSMap.get (TreeNode.children node) k with
      | Some child => nodeAt r child
      | None => None
      end
  end.

(** The key sequences of all nodes below [node], parents before children. *)
Fixpoint nodePaths (node : TreeNode) : list (list string) :=
  match node with
  | Node _ _ children =>
      concat (map (fun kv => [fst kv] :: map (cons (fst kv)) (nodePaths (snd kv))) children)
  end.

(** A tree as [buildTree] makes it: the keys of a node are distinct and
    the name of a child is its key. *)
Fixpoint wellKeyed (node : TreeNode) : Prop :=
  match node with
  | Node _ _ children =>
      NoDup (map fst children) /\
      fold_right (fun kv acc =>
                    (TreeNode.name (snd kv) = fst kv /\ wellKeyed (snd kv)) /\ acc)
        True children
  end.

(** The last entry of [entries] whose path has the parts [p]. *)
Definition lastEntryAt (p : list string) (entries : list FileEntry.t) : option FileEntry.t :=
  last (filter (fun e => partsOf e = p) entries).

(** A result without the contents of its files. *)
Definition eraseResult (r : RepoFetchResult.t) : RepoFetchResult.t :=
  {| RepoFetchResult.repo := RepoFetchResult.repo r;
     RepoFetchResult.branch := RepoFetchResult.branch r;
     RepoFetchResult.truncated := RepoFetchResult.truncated r;
     RepoFetchResult.files := map erase (RepoFetchResult.files r);
     RepoFetchResult.rateLimit := RepoFetchResult.rateLimit r;
     RepoFetchResult.isAuthenticated := RepoFetchResult.isAuthenticated r |}.

(** Induction over a tree, with the property known of every child. *)
Section TreeInduction.
Variable P : TreeNode -> Prop.
Hypothesis step : forall name entry children,
  Forall (fun kv => P (snd kv)) children -> P (Node name entry children).

Fixpoint TreeNode_induction (node : TreeNode) : P node :=
  match node with
  | Node name entry children =>
      step name entry children
        ((fix all (l : list (string * TreeNode)) : Forall (fun kv => P (snd kv)) l :=
            match l with
            | [] => List.Forall_nil _
            | kv :: r => List.Forall_cons _ kv r (TreeNode_induction (snd kv)) (all r)
            end) children)
  end.

End TreeInduction.

(** [node.entry = entry] when the part is the last one. *)
Definition mark (isLast : bool) (e : FileEntry.t) (node : TreeNode) : TreeNode :=
  if isLast then Node (TreeNode.name node) (Some e) (TreeNode.children node) else node.

Definition isNil {A} (l : list A) : bool := match l with [] => true | _ :: _ => false end.

(** The node under [part] after the first check of the loop body. *)
Definition childOrNew (cur : TreeNode) (part : string) : TreeNode :=
  default (Node part None []) (JSMap.get (TreeNode.children cur) part).

(** The entry of the node reached along [p]. *)
Definition entryAt (p : list string) (node : TreeNode) : option FileEntry.t :=
  nodeAt p node ≫= TreeNode.entry.

(** A tree without the contents of its entries. *)
Fixpoint eraseTree (node : TreeNode) : TreeNode :=
  match node with
  | Node name entry children =>
      Node name (erase <$> entry) (map (fun kv => (fst kv, eraseTree (snd kv))) children)
  end.

(** A text without a given character. *)
Fixpoint without (c : ascii) (s : string) : bool :=
  match s with
  | EmptyString => true
  | String x r => negb (Ascii.eqb x c) && without c r
  end.

Definition LFchar : ascii := ascii_of_nat 10.

(** A map with [g] applied to its values. *)
Definition mapValues {V W} (g : V -> W) (m : JSMap.t V) : JSMap.t W :=
  map (fun kv => (fst kv, g (snd kv))) m.

(** ** More examples *)

Module Samples.

(** A server that is down: every request is answered with status 500. *)
Definition unavailable (n : nat) (ep : Endpoint) : option Response :=
  Some (Double.reply 500 "Internal Server Error" BodyOther).

(** A server on which a blob changes between two requests. *)
Definition changing (n : nat) (ep : Endpoint) : option Response :=
  match ep with
  | GetBlob _ _ =>
      Some (Double.reply 200 "OK" (BodyBlob (if Nat.eqb n 0 then "first" else "second")))
  | _ => Double.demoServer Double.neverFails n ep
  end.

(** Options of [fetchContent] with a bound of zero. *)
Definition noneAtATime : @FetchContentOptions.t Double.runtime :=
  @FetchContentOptions.mk Double.runtime (Some 0%nat) None None None.

(** A pattern that is no regular expression once its wildcard is replaced. *)
Definition excludeUnbalanced : FilterOptions.t :=
  {| FilterOptions.extensions := None;
     FilterOptions.exclude := Some ["a(*"%string];
     FilterOptions.include := None;
     FilterOptions.type := None;
     FilterOptions.maxFileSize := None |}.

Definition excludeTest : FilterOptions.t :=
  {| FilterOptions.extensions := None;
     FilterOptions.exclude := Some ["test"%string];
     FilterOptions.include := None;
     FilterOptions.type := None;
     FilterOptions.maxFileSize := None |}.

Definition filesOnly : FilterOptions.t :=
  {| FilterOptions.extensions := None;
     FilterOptions.exclude := None;
     FilterOptions.include := None;
     FilterOptions.type := Some type_file;
     FilterOptions.maxFileSize := None |}.

Definition serializer : Serializer :=
  {| JSON_stringify := fun _ _ => "{}"%string |}.

(** A result with the contents of two files. *)
Definition listing : RepoFetchResult.t :=
  {| RepoFetchResult.repo := "octo/demo";
     RepoFetchResult.branch := "main";
     RepoFetchResult.truncated := false;
     RepoFetchResult.files :=
       [Double.dirEntry "src" "d1";
        FileEntry.with_content (Double.fileEntry "src/a.ts" "b2" 20 (Some ".ts"%string))
          (Some "let a"%string);
        FileEntry.with_content (Double.fileEntry "README.md" "b1" 10 (Some ".md"%string))
          (Some "# demo"%string)];
     RepoFetchResult.rateLimit := None;
     RepoFetchResult.isAuthenticated := None |}.

Definition formatted (format : string) : OutputOptions.t :=
  {| OutputOptions.format := format; OutputOptions.icons := None;
     OutputOptions.showSize := None; OutputOptions.showContent := None |}.

End Samples.

(** * Properties *)

(** ** The string primitives on the examples of Node's documentation *)

Example extname_html : NodePath.extname "index.html" = ".html"%string.
Proof. reflexivity. Qed.
Example extname_two : NodePath.extname "index.coffee.md" = ".md"%string.
Proof. reflexivity. Qed.
Example extname_trailing_dot : NodePath.extname "index." = "."%string.
Proof. reflexivity. Qed.
Example extname_none : NodePath.extname "index" = ""%string.
Proof. reflexivity. Qed.
Example extname_dotfile : NodePath.extname ".index" = ""%string.
Proof. reflexivity. Qed.
Example extname_dotfile_md : NodePath.extname ".index.md" = ".md"%string.
Proof. reflexivity. Qed.
Example extname_dotdot : NodePath.extname "a/.." = ""%string.
Proof. reflexivity. Qed.
Example extname_dir_dot : NodePath.extname "a.b/c" = ""%string.
Proof. reflexivity. Qed.
Example extname_nested : NodePath.extname "src/lib/Main.TS" = ".TS"%string.
Proof. reflexivity. Qed.
Example basename_nested : NodePath.basename "src/lib/main.ts" = "main.ts"%string.
Proof. reflexivity. Qed.
Example basename_trailing : NodePath.basename "src/lib/" = "lib"%string.
Proof. reflexivity. Qed.
Example lastPortion_dotfile : lastPortion "src/.gitignore" = ".gitignore"%string.
Proof. reflexivity. Qed.
Example lastPortion_trailing : lastPortion "src/lib/" = "lib"%string.
Proof. reflexivity. Qed.
Example split_example : JS.split "/" "src/index.ts" = ["src"; "index.ts"]%string.
Proof. reflexivity. Qed.

(** ** Entry Sorter *)

Lemma split_not_nil sep s : JS.split sep s <> [].
Proof.
  destruct s as [|c r]; simpl; [discriminate|].
  destruct (Ascii.eqb c sep); [discriminate|].
  destruct (JS.split sep r); discriminate.
Qed.

Section Sorter.
Context `{RT : Runtime}.
Hypothesis localeCompare_refl : forall s, localeCompare s s = 0.

(** The loop on a list of segments and a proper extension of it: the shorter
    list reaches its last segment first and is sent behind. *)
Lemma compareParts_prefix_left (pre rest : list string) (n i : nat) :
  rest <> [] -> (i + S n = length pre)%nat ->
  compareParts pre (pre ++ rest) i (S n) = 1.
Proof.
  intros Hrest. revert i.
  induction n as [|n IH]; intros i Hi.
  - cbn [compareParts].
    assert (Ha : Nat.eqb i (length pre - 1) = true) by (apply Nat.eqb_eq; lia).
    assert (Hb : Nat.eqb i (length (pre ++ rest) - 1) = false).
    { apply Nat.eqb_neq. rewrite length_app.
      destruct rest; [congruence|]. simpl. lia. }
    rewrite Ha, Hb. reflexivity.
  - cbn [compareParts].
    assert (Ha : Nat.eqb i (length pre - 1) = false) by (apply Nat.eqb_neq; lia).
    assert (Hb : Nat.eqb i (length (pre ++ rest) - 1) = false).
    { apply Nat.eqb_neq. rewrite length_app. lia. }
    rewrite Ha, Hb. cbn [negb andb].
    rewrite (app_nth1 pre rest) by lia.
    rewrite localeCompare_refl. cbn [Z.eqb negb].
    apply IH. lia.
Qed.

Lemma compareParts_prefix_right (pre rest : list string) (n i : nat) :
  rest <> [] -> (i + S n = length pre)%nat ->
  compareParts (pre ++ rest) pre i (S n) = -1.
Proof.
  intros Hrest. revert i.
  induction n as [|n IH]; intros i Hi.
  - cbn [compareParts].
    assert (Ha : Nat.eqb i (length pre - 1) = true) by (apply Nat.eqb_eq; lia).
    assert (Hb : Nat.eqb i (length (pre ++ rest) - 1) = false).
    { apply Nat.eqb_neq. rewrite length_app.
      destruct rest; [congruence|]. simpl. lia. }
    rewrite Ha, Hb. reflexivity.
  - cbn [compareParts].
    assert (Ha : Nat.eqb i (length pre - 1) = false) by (apply Nat.eqb_neq; lia).
    assert (Hb : Nat.eqb i (length (pre ++ rest) - 1) = false).
    { apply Nat.eqb_neq. rewrite length_app. lia. }
    rewrite Ha, Hb. cbn [negb andb].
    rewrite (app_nth1 pre rest) by lia.
    rewrite localeCompare_refl. cbn [Z.eqb negb].
    apply IH. lia.
Qed.

(** C1. The claim is that an entry whose path is a proper ancestor of another
    entry's path (["src"] and ["src/index.ts"]) is ordered before it. The
    comparator does the opposite: at the index where the ancestor is at its
    last segment and the descendant is not, it returns [1], so the ancestor is
    placed after its descendant, whatever the order the two came in. *)
Theorem sortEntries_ancestor_after_descendant (a b : FileEntry.t) (rest : list string) :
  rest <> [] ->
  JS.split "/" (FileEntry.path b) = JS.split "/" (FileEntry.path a) ++ rest ->
  compareEntries a b = 1 /\ compareEntries b a = -1 /\
  sortEntries [a; b] = [b; a] /\ sortEntries [b; a] = [b; a].
Proof.
  intros Hrest Hsplit.
  assert (Hab : compareEntries a b = 1).
  { unfold compareEntries. rewrite Hsplit.
    pose proof (split_not_nil "/" (FileEntry.path a)) as Hne.
    set (pre := JS.split "/" (FileEntry.path a)) in *.
    rewrite length_app, Nat.min_l by lia.
    destruct (length pre) as [|n] eqn:Hlen.
    { destruct pre; [congruence|discriminate]. }
    apply compareParts_prefix_left; [assumption|lia]. }
  assert (Hba : compareEntries b a = -1).
  { unfold compareEntries. rewrite Hsplit.
    pose proof (split_not_nil "/" (FileEntry.path a)) as Hne.
    set (pre := JS.split "/" (FileEntry.path a)) in *.
    rewrite length_app, Nat.min_r by lia.
    destruct (length pre) as [|n] eqn:Hlen.
    { destruct pre; [congruence|discriminate]. }
    apply compareParts_prefix_right; [assumption|lia]. }
  repeat split; try assumption.
  - unfold sortEntries. cbn [arraySort sortInsert]. rewrite Hab. reflexivity.
  - unfold sortEntries. cbn [arraySort sortInsert]. rewrite Hba. reflexivity.
Qed.

End Sorter.

Lemma codeUnitCompare_refl s : Double.codeUnitCompare s s = 0.
Proof.
  unfold Double.codeUnitCompare.
  pose proof (String.compare_antisym s s) as H.
  destruct (String.compare s s); simpl in H; congruence.
Qed.

(** The pair of the design document, under the double: ["src"] comes out
    after ["src/index.ts"]. *)
Lemma sortEntries_ancestor_after_descendant_witness :
  @sortEntries Double.runtime
    [Double.dirEntry "src" "d1"; Double.fileEntry "src/index.ts" "f1" 10 (Some ".ts"%string)]
  = [Double.fileEntry "src/index.ts" "f1" 10 (Some ".ts"%string); Double.dirEntry "src" "d1"].
Proof.
  apply (@sortEntries_ancestor_after_descendant Double.runtime codeUnitCompare_refl
           (Double.dirEntry "src" "d1")
           (Double.fileEntry "src/index.ts" "f1" 10 (Some ".ts"%string))
           ["index.ts"%string]).
  - discriminate.
  - reflexivity.
Defined.

(** ** Node's [extname]: a result that is not empty starts with a dot *)

Lemma substring_cons (s : string) (n m : nat) (c : ascii) :
  nth_error (list_ascii_of_string s) n = Some c ->
  String.substring n (S m) s = String c (String.substring (S n) m s).
Proof.
  revert n. induction s as [|a s IH]; intros n H.
  - destruct n; discriminate.
  - destruct n as [|n]; simpl in H.
    + injection H as ->. reflexivity.
    + simpl. rewrite (IH n H). reflexivity.
Qed.

Module ExtnameFacts.
Import NodePath.

Section Scan.
Variable p : string.

Lemma ext_scan_dot_ok (pre suf : list ascii) (st : ext_state) :
  list_ascii_of_string p = pre ++ suf ->
  dot_ok p st -> end_ok (Z.of_nat (length pre) - 1) st ->
  dot_ok p (ext_scan (rev pre) (Z.of_nat (length pre) - 1) st).
Proof.
  revert suf st. induction pre as [|code pre IH] using rev_ind; intros suf st Hp Hd He.
  - exact Hd.
  - rewrite rev_app_distr. cbn [rev app ext_scan].
    rewrite length_app in *. cbn [length] in *.
    replace (Z.of_nat (length pre + 1) - 1 - 1) with (Z.of_nat (length pre) - 1) by lia.
    replace (Z.of_nat (length pre + 1) - 1) with (Z.of_nat (length pre)) in * by lia.
    rewrite <- app_assoc in Hp. cbn [app] in Hp.
    assert (Hget : nth_error (list_ascii_of_string p) (length pre) = Some code).
    { rewrite Hp, nth_error_app2 by lia. rewrite Nat.sub_diag. reflexivity. }
    destruct (Ascii.eqb code "/") eqn:Hslash.
    + destruct (matchedSlash st); cbn [negb].
      * apply (IH (code :: suf)); [assumption|assumption|].
        destruct He as [He|He]; [left; assumption|right; lia].
      * destruct Hd as [Hd|Hd]; [left|right]; assumption.
    + apply (IH (code :: suf)); [assumption| |].
      * (* the dot *)
        unfold dot_ok, end_ok in *.
        repeat match goal with
               | |- context [if ?b then _ else _] => destruct b eqn:?; cbn [startDot end_ negb] in *
               end;
        rewrite ?Nat2Z.id;
        repeat match goal with
               | H : (_ =? _)%char = true |- _ => apply Ascii.eqb_eq in H; subst
               | H : (_ =? _) = true |- _ => apply Z.eqb_eq in H
               | H : (_ =? _) = false |- _ => apply Z.eqb_neq in H
               | H : negb _ = true |- _ => apply negb_true_iff in H
               | H : negb _ = false |- _ => apply negb_false_iff in H
               end;
        intuition (try lia; try congruence).
      * (* the end *)
        assert (Hst1 : forall st1 : ext_state,
                   end_ st1 = (if end_ st =? -1 then Z.of_nat (length pre) + 1 else end_ st) ->
                   end_ok (Z.of_nat (length pre) - 1) st1).
        { intros st1 E. unfold end_ok. rewrite E.
          destruct (end_ st =? -1) eqn:Hend; [right; lia|].
          apply Z.eqb_neq in Hend. destruct He as [He|He]; [congruence|right; lia]. }
        apply Hst1.
        destruct (end_ st =? -1); cbn [startDot end_];
          destruct (Ascii.eqb code ".");
          repeat match goal with
                 | |- context [if ?b then _ else _] => destruct b; cbn [startDot end_]
                 end; reflexivity.
Qed.

End Scan.

Lemma extname_test (p : string) :
  let st := ext_scan (rev_chars p) (Z.of_nat (String.length p) - 1) ext_init in
  (noExtension st = true /\ extname p = EmptyString) \/
  (noExtension st = false /\ exists r, extname p = String "." r).
Proof.
  intros st. unfold extname. fold st.
  pose proof (ext_scan_dot_ok p (list_ascii_of_string p) [] ext_init) as H.
  rewrite app_nil_r in H. specialize (H eq_refl).
  assert (Hlen : length (list_ascii_of_string p) = String.length p).
  { clear. induction p; simpl; congruence. }
  rewrite Hlen in H.
  specialize (H (or_introl eq_refl) (or_introl eq_refl)).
  fold (rev_chars p) in H. fold st in H.
  destruct (noExtension st) eqn:Hc; [left; auto|right].
  split; [reflexivity|].
  unfold noExtension in Hc.
  destruct H as [H|[[H0 H1] H2]].
  - rewrite H in Hc. discriminate.
  - unfold JS.slice.
    replace (Z.to_nat (end_ st - startDot st))
      with (S (Z.to_nat (end_ st - startDot st - 1))) by lia.
    rewrite (substring_cons _ _ _ _ H2). eauto.
Qed.

Lemma extname_dot (p : string) :
  extname p <> EmptyString -> exists r, extname p = String "." r.
Proof.
  intros Hne. destruct (extname_test p) as [[_ H]|[_ H]]; [congruence|exact H].
Qed.

End ExtnameFacts.

Lemma lowerChar_idem c : JS.lowerChar (JS.lowerChar c) = JS.lowerChar c.
Proof. destruct c as [[] [] [] [] [] [] [] []]; reflexivity. Qed.

Lemma toLowerCase_idem s : JS.toLowerCase (JS.toLowerCase s) = JS.toLowerCase s.
Proof.
  induction s as [|c s IH]; simpl; [reflexivity|].
  rewrite lowerChar_idem, IH. reflexivity.
Qed.

Lemma toLowerCase_empty s : JS.toLowerCase s = EmptyString <-> s = EmptyString.
Proof. destruct s; simpl; split; congruence. Qed.

(** ** Node's [extname], in terms of the last portion of the path *)

Module ExtnameShape.
Import NodePath.

Lemma last_cons_portion (c : ascii) (cs : list ascii) :
  last (c :: cs) = match last cs with Some c' => Some c' | None => Some c end.
Proof. destruct cs as [|c' cs]; [reflexivity|]. rewrite last_cons_cons.
       destruct (last (c' :: cs)) eqn:E; [reflexivity|].
       apply last_None in E. discriminate. Qed.

Lemma firstDot_Some_nonempty (cs : list ascii) (j : nat) :
  firstDot cs = Some j -> cs <> [].
Proof. destruct cs; [discriminate|discriminate]. Qed.

(** The scan of a portion, from a state in which the end has been found or
    is found at once. *)
Lemma ext_scan_portion (r : list ascii) :
  forall (i : Z) (st : ext_state),
  i = Z.of_nat (length r) - 1 ->
  (matchedSlash st = false /\ end_ st <> -1) \/
  (end_ st = -1 /\ exists c r', r = c :: r' /\ Ascii.eqb c "/" = false) ->
  end_ (ext_scan r i st) = (if end_ st =? -1 then i + 1 else end_ st) /\
  startPart (ext_scan r i st)
    = (if Nat.ltb (length (portion r)) (length r)
       then i - Z.of_nat (length (portion r)) + 1 else startPart st) /\
  (startDot st <> -1 ->
     startDot (ext_scan r i st) = startDot st /\
     preDotState (ext_scan r i st)
       = match last (portion r) with
         | None => preDotState st
         | Some c => if Ascii.eqb c "." then 1 else -1
         end) /\
  (startDot st = -1 ->
     match firstDot (portion r) with
     | None => startDot (ext_scan r i st) = -1 /\
               preDotState (ext_scan r i st) = preDotState st
     | Some j =>
         startDot (ext_scan r i st) = i - Z.of_nat j /\
         preDotState (ext_scan r i st)
           = if Nat.eqb (S j) (length (portion r)) then preDotState st
             else match last (portion r) with
                  | None => preDotState st
                  | Some c => if Ascii.eqb c "." then 1 else -1
                  end
     end).
Proof.
  induction r as [|c r IH]; intros i st Hi HP.
  - cbn. destruct HP as [[_ He]|[_ (c & r' & E & _)]]; [|discriminate].
    apply Z.eqb_neq in He. rewrite He. auto.
  - cbn [ext_scan portion].
    destruct (Ascii.eqb c "/") eqn:Hslash.
    + destruct HP as [[Hm He]|[_ (c' & r' & E & Hc')]].
      2: { injection E as <- <-. congruence. }
      rewrite Hm. cbn [negb startDot startPart end_ preDotState length firstDot last].
      apply Z.eqb_neq in He. rewrite He.
      change (Nat.ltb 0 (S (length r))) with true. cbn iota.
      repeat split; auto; lia.
    + cbn [length] in Hi.
      set (st1 := if end_ st =? -1 then _ else st).
      set (st2 := if Ascii.eqb c "." then _ else _).
      assert (H1 : matchedSlash st1 = false /\ end_ st1 = (if end_ st =? -1 then i + 1 else end_ st)
                   /\ end_ st1 <> -1 /\ startDot st1 = startDot st
                   /\ preDotState st1 = preDotState st /\ startPart st1 = startPart st).
      { unfold st1. destruct (Z.eqb_spec (end_ st) (-1)) as [E|E]; cbn.
        - repeat split; auto. lia.
        - destruct HP as [[Hm _]|[He _]]; [|congruence]. repeat split; auto. }
      destruct H1 as (Hm1 & He1 & Hne1 & Hsd1 & Hpd1 & Hsp1).
      assert (H2 : matchedSlash st2 = false /\ end_ st2 = end_ st1 /\ startPart st2 = startPart st).
      { unfold st2. destruct (Ascii.eqb c ".");
          repeat match goal with |- context [if ?b then _ else _] => destruct b end;
          cbn; auto. }
      destruct H2 as (Hm2 & He2 & Hsp2).
      destruct (IH (i - 1) st2) as (IHe & IHsp & IHsd & IHnd).
      { lia. }
      { left. split; [assumption|congruence]. }
      rewrite He2 in IHe.
      assert (Hne1' : (end_ st1 =? -1) = false) by (apply Z.eqb_neq; assumption).
      rewrite Hne1' in IHe.
      split; [congruence|].
      split.
      { rewrite IHsp, Hsp2. cbn [length].
        change (Nat.ltb (S (length (portion r))) (S (length r)))
          with (Nat.ltb (length (portion r)) (length r)).
        destruct (Nat.ltb (length (portion r)) (length r)); [lia|reflexivity]. }
      rewrite last_cons_portion.
      split.
      * (* a dot had been found before *)
        intros Hsd. rewrite <- Hsd1 in Hsd.
        assert (Hsd2 : startDot st2 = startDot st1 /\
                       preDotState st2 = if Ascii.eqb c "." then 1 else -1).
        { unfold st2. apply Z.eqb_neq in Hsd. rewrite Hsd. cbn [negb].
          destruct (Ascii.eqb c ".").
          - destruct (Z.eqb_spec (preDotState st1) 1) as [E|E]; cbn; auto.
          - cbn. auto. }
        destruct Hsd2 as (Hsd2 & Hpd2).
        destruct IHsd as (IH1 & IH2); [congruence|].
        split; [congruence|].
        rewrite IH2, Hpd2. destruct (last (portion r)); reflexivity.
      * (* no dot yet *)
        intros Hsd. rewrite <- Hsd1 in Hsd.
        cbn [firstDot]. destruct (Ascii.eqb c ".") eqn:Hdot.
        -- assert (Hsd2 : startDot st2 = i /\ preDotState st2 = preDotState st).
           { unfold st2. rewrite Hsd. cbn. auto. }
           destruct Hsd2 as (Hsd2 & Hpd2).
           destruct IHsd as (IH1 & IH2); [lia|].
           split; [lia|].
           rewrite IH2, Hpd2. cbn [length].
           destruct (portion r) as [|c' cs'] eqn:Ep; [reflexivity|].
           cbn [length Nat.eqb]. destruct (last (c' :: cs')) eqn:El; [reflexivity|].
           apply last_None in El. discriminate.
        -- assert (Hsd2 : startDot st2 = -1 /\ preDotState st2 = preDotState st).
           { unfold st2. rewrite Hsd. cbn. auto. }
           destruct Hsd2 as (Hsd2 & Hpd2).
           specialize (IHnd Hsd2).
           destruct (firstDot (portion r)) as [j|] eqn:Ej; cbn [fmap option_fmap option_map].
           ++ destruct IHnd as (IH1 & IH2). split; [lia|].
              rewrite IH2, Hpd2. cbn [length].
              change (Nat.eqb (S (S j)) (S (length (portion r))))
                with (Nat.eqb (S j) (length (portion r))).
              destruct (Nat.eqb (S j) (length (portion r))); [reflexivity|].
              destruct (last (portion r)) eqn:El; [reflexivity|].
              apply last_None in El. apply firstDot_Some_nonempty in Ej. congruence.
           ++ destruct IHnd as (IH1 & IH2). split; congruence.
Qed.

Lemma ext_scan_slashes (r : list ascii) :
  forall i : Z,
  ext_scan r i ext_init
  = ext_scan (dropSlashes r)
      (i - (Z.of_nat (length r) - Z.of_nat (length (dropSlashes r)))) ext_init.
Proof.
  induction r as [|c r IH]; intros i.
  - cbn. reflexivity.
  - cbn [dropSlashes]. destruct (Ascii.eqb c "/") eqn:Hslash.
    + cbn [ext_scan]. rewrite Hslash. cbn [ext_init matchedSlash negb].
      rewrite IH. f_equal. cbn [length]. lia.
    + f_equal. lia.
Qed.

Lemma dropSlashes_head (r : list ascii) :
  dropSlashes r = [] \/
  exists c r', dropSlashes r = c :: r' /\ Ascii.eqb c "/" = false.
Proof.
  induction r as [|c r IH]; [left; reflexivity|].
  cbn [dropSlashes]. destruct (Ascii.eqb c "/") eqn:Hslash; [exact IH|].
  right. eauto.
Qed.

Lemma rev_chars_length (p : string) : length (rev_chars p) = String.length p.
Proof.
  unfold rev_chars. rewrite length_rev.
  induction p; simpl; congruence.
Qed.

Lemma extname_empty_test (p : string) :
  extname p = EmptyString <->
  noExtension (ext_scan (rev_chars p) (Z.of_nat (String.length p) - 1) ext_init) = true.
Proof.
  destruct (ExtnameFacts.extname_test p) as [[H1 H2]|[H1 (r & H2)]]; rewrite H1, H2.
  - tauto.
  - split; discriminate.
Qed.

Lemma extname_empty_rev (p : string) :
  extname p = EmptyString <->
  match firstDot (portion (dropSlashes (rev_chars p))) with
  | None => True
  | Some j =>
      S j = length (portion (dropSlashes (rev_chars p))) \/
      portion (dropSlashes (rev_chars p)) = ["."; "."]%char
  end.
Proof.
  rewrite extname_empty_test.
  rewrite ext_scan_slashes, rev_chars_length.
  set (r := dropSlashes (rev_chars p)).
  replace (Z.of_nat (String.length p) - 1 - (Z.of_nat (String.length p) - Z.of_nat (length r)))
    with (Z.of_nat (length r) - 1) by lia.
  destruct (dropSlashes_head (rev_chars p)) as [E|(c & r' & E & Hc)]; fold r in E.
  - rewrite E. cbn. tauto.
  - destruct (ext_scan_portion r (Z.of_nat (length r) - 1) ext_init eq_refl)
      as (He & Hsp & _ & Hnd).
    { right. split; [reflexivity|]. eauto. }
    specialize (Hnd eq_refl). cbn [ext_init end_ startPart preDotState] in *.
    change (-1 =? -1) with true in He. cbn iota in He.
    set (st := ext_scan r (Z.of_nat (length r) - 1) ext_init) in *.
    assert (Hpl : (length (portion r) <= length r)%nat).
    { clear. induction r as [|c r IH]; [reflexivity|]. cbn [portion].
      destruct (Ascii.eqb c "/"); cbn [length]; lia. }
    assert (Hsp' : startPart st = Z.of_nat (length r) - 1 - Z.of_nat (length (portion r)) + 1).
    { rewrite Hsp. destruct (Nat.ltb_spec (length (portion r)) (length r)) as [Hlt|Hge];
        [reflexivity|lia]. }
    unfold noExtension.
    destruct (firstDot (portion r)) as [j|] eqn:Ej.
    + destruct Hnd as (Hsd & Hpd).
      assert (Hj : (j < length (portion r))%nat).
      { clear -Ej. revert j Ej. induction (portion r) as [|c cs IH]; intros j Ej; [discriminate|].
        cbn [firstDot] in Ej. destruct (Ascii.eqb c "."); [injection Ej as <-; cbn; lia|].
        destruct (firstDot cs) as [j'|]; [|discriminate]. injection Ej as <-.
        specialize (IH j' eq_refl). cbn. lia. }
      rewrite Hsd, He, Hsp', Hpd.
      destruct (Nat.eqb_spec (S j) (length (portion r))) as [Elast|Nlast].
      * cbn. rewrite !orb_true_r. cbn. tauto.
      * assert (Hlast : exists c', last (portion r) = Some c').
        { destruct (last (portion r)) eqn:El; [eauto|]. apply last_None in El.
          rewrite El in Hj. cbn in Hj. lia. }
        destruct Hlast as (c' & Hlast). rewrite Hlast.
                replace (Z.of_nat (length r) - 1 - Z.of_nat j =? -1) with false
          by (symmetry; apply Z.eqb_neq; lia).
        replace (Z.of_nat (length r) - 1 + 1 =? -1) with false
          by (symmetry; apply Z.eqb_neq; lia).
        cbn [orb].
        destruct (Ascii.eqb c' ".") eqn:Hc'; cbn [Z.eqb orb andb].
        -- split.
           ++ intros H. apply andb_true_iff in H. destruct H as [H1 H2].
              apply Z.eqb_eq in H1, H2. right.
              assert (j = 0%nat) by lia. subst j.
              assert (Hlen : length (portion r) = 2%nat) by lia.
              destruct (portion r) as [|a [|b [|? ?]]]; try discriminate.
              cbn [firstDot] in Ej.
              destruct (Ascii.eqb_spec a ".");
                [subst a|destruct (Ascii.eqb b "."); discriminate].
              rewrite last_cons_cons in Hlast. cbn in Hlast. injection Hlast as ->.
              apply Ascii.eqb_eq in Hc'. subst. reflexivity.
           ++ intros [H|H]; [congruence|]. rewrite H in *. cbn in Ej. injection Ej as <-.
              cbn. apply andb_true_iff. split; apply Z.eqb_eq; lia.
        -- split; [discriminate|]. intros [H|H]; [congruence|].
           rewrite H in Hlast. cbn in Hlast. injection Hlast as <-. discriminate.
    + destruct Hnd as (Hsd & _). rewrite Hsd. cbn. tauto.
Qed.

Lemma hasDot_In (l : list ascii) :
  hasDot (string_of_list_ascii l) = true <-> In "."%char l.
Proof.
  induction l as [|c l IH]; cbn; [split; [discriminate|tauto]|].
  rewrite orb_true_iff, IH. destruct (Ascii.eqb_spec c "."); split; intros H.
  - left. assumption.
  - left. reflexivity.
  - destruct H as [H|H]; [discriminate|right; assumption].
  - destruct H as [H|H]; [congruence|right; assumption].
Qed.

Lemma firstDot_app (cs : list ascii) (c : ascii) :
  firstDot (cs ++ [c])
  = match firstDot cs with
    | Some j => Some j
    | None => if Ascii.eqb c "." then Some (length cs) else None
    end.
Proof.
  induction cs as [|x cs IH]; cbn [app firstDot length].
  - destruct (Ascii.eqb c "."); reflexivity.
  - destruct (Ascii.eqb x "."); [reflexivity|]. rewrite IH.
    destruct (firstDot cs); [reflexivity|].
    destruct (Ascii.eqb c "."); reflexivity.
Qed.

Lemma firstDot_In (cs : list ascii) :
  (exists j, firstDot cs = Some j /\ (j < length cs)%nat) <-> In "."%char cs.
Proof.
  induction cs as [|x cs IH]; cbn [firstDot In length].
  - split; [intros (j & E & _); discriminate|tauto].
  - destruct (Ascii.eqb_spec x ".") as [->|Hx].
    + split; [auto|]. intros _. exists 0%nat. split; [reflexivity|lia].
    + rewrite <- IH. split.
      * intros (j & E & Hj). destruct (firstDot cs) as [j'|]; [|discriminate].
        cbn in E. injection E as <-. right. exists j'. split; [reflexivity|lia].
      * intros [H|(j & E & Hj)]; [congruence|]. rewrite E. exists (S j).
        split; [reflexivity|lia].
Qed.

(** [extname] is not empty exactly when the last portion of the path has a
    dot after its first character and is not [".."]. *)
Lemma extname_nonempty_iff (p : string) :
  extname p <> EmptyString <->
  innerDot (lastPortion p) = true /\ lastPortion p <> ".."%string.
Proof.
  rewrite extname_empty_rev. unfold lastPortion.
  set (cs := portion (dropSlashes (rev_chars p))).
  assert (Hdd : string_of_list_ascii (rev cs) = ".."%string <-> cs = ["."; "."]%char).
  { split.
    - intros H. apply (f_equal list_ascii_of_string) in H.
      rewrite list_ascii_of_string_of_list_ascii in H. cbn in H.
      apply (f_equal (@rev ascii)) in H. rewrite rev_involutive in H. exact H.
    - intros ->. reflexivity. }
  rewrite Hdd.
  destruct cs as [|c0 cs0] using rev_ind.
  - cbn. split; [tauto|]. intros [H _]. discriminate.
  - clear IHcs0. rewrite rev_app_distr. cbn [rev app string_of_list_ascii innerDot].
    rewrite hasDot_In, <- in_rev, <- firstDot_In, firstDot_app, length_app.
    cbn [length].
    destruct (firstDot cs0) as [j|] eqn:Ej.
    + split.
      * intros H. split.
        -- exists j. split; [reflexivity|].
           assert (Hin : exists j', firstDot cs0 = Some j' /\ (j' < length cs0)%nat).
           { apply firstDot_In. clear -Ej. revert j Ej.
             induction cs0 as [|x cs IH]; intros j Ej; [discriminate|].
             cbn [firstDot] in Ej. destruct (Ascii.eqb_spec x "."); [left; congruence|].
             destruct (firstDot cs) as [j'|]; [|discriminate]. right. eapply IH. reflexivity. }
           destruct Hin as (j' & E' & Hj'). congruence.
        -- intros E. apply H. right. assumption.
      * intros ((j' & E' & Hj') & Hne) [H|H]; [|congruence].
        injection E' as <-. lia.
    + split.
      * intros H. exfalso. apply H. destruct (Ascii.eqb c0 "."); [left; lia|exact I].
      * intros ((j' & E' & _) & _). discriminate.
Qed.

End ExtnameShape.

(** ** The last portion and the final segment *)

Module FinalSegment.
Import NodePath.

Lemma portion_app (xs ys : list ascii) :
  portion (xs ++ ys) = if hasSlash xs then portion xs else xs ++ portion ys.
Proof.
  induction xs as [|x xs IH]; cbn [app portion hasSlash]; [reflexivity|].
  destruct (Ascii.eqb x "/"); cbn [orb]; [reflexivity|].
  rewrite IH. destruct (hasSlash xs); reflexivity.
Qed.

Lemma portion_no_slash (xs : list ascii) : hasSlash xs = false -> portion xs = xs.
Proof.
  intros H. pose proof (portion_app xs []) as E. rewrite app_nil_r, H in E.
  cbn in E. rewrite app_nil_r in E. exact E.
Qed.

Lemma hasSlash_rev (xs : list ascii) : hasSlash (rev xs) = hasSlash xs.
Proof.
  assert (Happ : forall a b, hasSlash (a ++ b) = hasSlash a || hasSlash b).
  { intros a b. induction a as [|x a IH]; cbn; [reflexivity|].
    rewrite IH. apply orb_assoc. }
  induction xs as [|x xs IH]; [reflexivity|].
  cbn [rev hasSlash]. rewrite Happ, IH. cbn. rewrite orb_false_r. apply orb_comm.
Qed.

Lemma split_shape (r : string) :
  (hasSlash (list_ascii_of_string r) = false -> JS.split "/" r = [r]) /\
  (hasSlash (list_ascii_of_string r) = true ->
     exists h x t, JS.split "/" r = h :: x :: t).
Proof.
  induction r as [|c r [IH1 IH2]]; cbn [list_ascii_of_string hasSlash JS.split].
  - split; [reflexivity|discriminate].
  - destruct (Ascii.eqb c "/"); cbn [orb].
    + split; [discriminate|]. intros _.
      destruct (JS.split "/" r) as [|x t] eqn:E; [destruct (split_not_nil _ _ E)|eauto].
    + split.
      * intros H. rewrite (IH1 H). reflexivity.
      * intros H. destruct (IH2 H) as (h & x & t & ->). eauto.
Qed.

(** Without the skipping of trailing slashes, the portion is the last element
    of [split("/")]. *)
Lemma portion_last_split (p : string) :
  string_of_list_ascii (rev (portion (rev (list_ascii_of_string p))))
  = List.last (JS.split "/" p) EmptyString.
Proof.
  induction p as [|c p IH]; [reflexivity|].
  cbn [list_ascii_of_string rev JS.split].
  rewrite portion_app, hasSlash_rev.
  destruct (split_shape p) as [H1 H2].
  destruct (hasSlash (list_ascii_of_string p)) eqn:Hs.
  - rewrite IH. destruct (H2 eq_refl) as (h & x & t & E). rewrite E.
    destruct (Ascii.eqb c "/"); reflexivity.
  - rewrite (H1 eq_refl).
    rewrite <- hasSlash_rev in Hs. cbn [portion].
    destruct (Ascii.eqb c "/") eqn:Hc.
    + rewrite app_nil_r, rev_involutive, string_of_list_ascii_of_string. reflexivity.
    + rewrite rev_app_distr, rev_involutive. cbn.
      rewrite string_of_list_ascii_of_string. reflexivity.
Qed.

(** For a path that does not end with a slash, the last portion is its final
    segment. *)
Lemma lastPortion_final_segment (p : string) :
  endsWithSlash p = false ->
  lastPortion p = List.last (JS.split "/" p) EmptyString.
Proof.
  unfold endsWithSlash, lastPortion. intros H.
  rewrite <- portion_last_split. fold (rev_chars p).
  destruct (rev_chars p) as [|c r]; [reflexivity|].
  cbn [dropSlashes]. rewrite H. reflexivity.
Qed.

End FinalSegment.

(** ** Entry Filter *)

Section FilterFacts.
Context `{RT : Runtime}.

(** The loop body, as the sequence of its tests. *)
Lemma filterItem_steps (options : FilterOptions.t) (item : TreeItem.t) :
  filterItem options item =
  if kindDrops options item then Ok None
  else rbind (includeCheck options item) (fun inc =>
    if negb inc then Ok None
    else rbind (excludeCheck options item) (fun exc =>
      if exc then Ok None
      else if extensionDrops options item then Ok None
      else if sizeDrops options item then Ok None
      else Ok (Some (entryOf item)))).
Proof.
  unfold filterItem, kindDrops, includeCheck, excludeCheck, extensionDrops, sizeDrops, entryOf.
  destruct (bool_decide (default type_all (FilterOptions.type options) = type_file)
            && negb (bool_decide (TreeItem.type item = blob))); [reflexivity|].
  cbn [orb]. reflexivity.
Qed.

Lemma filterTree_In (items : list TreeItem.t) (options : FilterOptions.t) :
  forall out, filterTree items options = Ok out ->
  forall e, In e out -> exists item, In item items /\ filterItem options item = Ok (Some e).
Proof.
  induction items as [|item items IH]; intros out H e He; cbn [filterTree] in H.
  - injection H as <-. destruct He.
  - destruct (filterItem options item) as [r|] eqn:Hitem; cbn [rbind] in H; [|discriminate].
    destruct (filterTree items options) as [entries|] eqn:Hrest; cbn [rbind] in H; [|discriminate].
    injection H as <-.
    destruct r as [e'|].
    + destruct He as [->|He].
      * exists item. split; [left; reflexivity|assumption].
      * destruct (IH _ eq_refl e He) as (it & Hin & Hit). exists it. split; [right|]; assumption.
    + destruct (IH _ eq_refl e He) as (it & Hin & Hit). exists it. split; [right|]; assumption.
Qed.

Lemma filterTree_item (items : list TreeItem.t) (options : FilterOptions.t) :
  forall out, filterTree items options = Ok out ->
  forall item, In item items ->
  exists r, filterItem options item = Ok r /\ (forall e, r = Some e -> In e out).
Proof.
  induction items as [|it items IH]; intros out H item Hin; [destruct Hin|].
  cbn [filterTree] in H.
  destruct (filterItem options it) as [r|] eqn:Hitem; cbn [rbind] in H; [|discriminate].
  destruct (filterTree items options) as [entries|] eqn:Hrest; cbn [rbind] in H; [|discriminate].
  injection H as <-.
  destruct Hin as [->|Hin].
  - exists r. split; [assumption|]. intros e ->. left. reflexivity.
  - destruct (IH _ eq_refl item Hin) as (r' & Hr' & Hout).
    exists r'. split; [assumption|]. intros e He. specialize (Hout e He).
    destruct r; [right|]; assumption.
Qed.

Lemma filterItem_Some (options : FilterOptions.t) (item : TreeItem.t) (e : FileEntry.t) :
  filterItem options item = Ok (Some e) -> e = entryOf item.
Proof.
  rewrite filterItem_steps.
  destruct (kindDrops options item); [discriminate|].
  destruct (includeCheck options item) as [[]|]; cbn [rbind negb]; try discriminate.
  destruct (excludeCheck options item) as [[]|]; cbn [rbind]; try discriminate.
  destruct (extensionDrops options item); [discriminate|].
  destruct (sizeDrops options item); [discriminate|].
  congruence.
Qed.

Lemma somePattern_false (filePath : string) (patterns : list string) :
  somePattern filePath patterns = Ok false ->
  forall p, In p patterns -> matchesPattern filePath p = Ok false.
Proof.
  induction patterns as [|q patterns IH]; intros H p Hp; [destruct Hp|].
  cbn [somePattern] in H.
  destruct (matchesPattern filePath q) as [[]|] eqn:Hq; cbn [rbind] in H; try discriminate.
  destruct Hp as [->|Hp]; [assumption|]. apply IH; assumption.
Qed.

Lemma somePattern_true (filePath : string) (patterns : list string) :
  somePattern filePath patterns = Ok true ->
  exists p, In p patterns /\ matchesPattern filePath p = Ok true.
Proof.
  induction patterns as [|q patterns IH]; intros H; [discriminate|].
  cbn [somePattern] in H.
  destruct (matchesPattern filePath q) as [[]|] eqn:Hq; cbn [rbind] in H; try discriminate.
  - exists q. split; [left; reflexivity|assumption].
  - destruct (IH H) as (p & Hp & Hm). exists p. split; [right|]; assumption.
Qed.

(** C8, as the code has it. Every entry that [filterTree] returns has an
    extension exactly when it is a file and Node's [path.extname] of its path
    is not empty, that is, when the last portion of its path - the final
    segment, for a path that does not end with a slash - has a dot after its
    first character and is not [".."]; the extension is then [path.extname]
    of the path in lower case, it starts with the dot, and lower-casing
    leaves it as it is. A directory has no extension. *)
Theorem filterTree_extension (items : list TreeItem.t) (options : FilterOptions.t)
    (out : list FileEntry.t) (e : FileEntry.t) :
  filterTree items options = Ok out -> In e out ->
  (is_Some (FileEntry.extension e) <->
     FileEntry.type e = file /\ NodePath.extname (FileEntry.path e) <> EmptyString) /\
  (is_Some (FileEntry.extension e) <->
     FileEntry.type e = file /\
     innerDot (lastPortion (FileEntry.path e)) = true /\
     lastPortion (FileEntry.path e) <> ".."%string) /\
  (endsWithSlash (FileEntry.path e) = false ->
     lastPortion (FileEntry.path e)
     = List.last (JS.split "/" (FileEntry.path e)) EmptyString) /\
  (forall x, FileEntry.extension e = Some x ->
     x = JS.toLowerCase (NodePath.extname (FileEntry.path e)) /\
     JS.toLowerCase x = x /\ exists r, x = String "." r) /\
  (FileEntry.type e = directory -> FileEntry.extension e = None).
Proof.
  intros Hout He.
  assert (Hiff : is_Some (FileEntry.extension e) <->
            FileEntry.type e = file /\ NodePath.extname (FileEntry.path e) <> EmptyString).
  { destruct (filterTree_In _ _ _ Hout e He) as (item & _ & Hitem).
    apply filterItem_Some in Hitem. subst e.
    unfold entryOf, getExtension. cbn [FileEntry.extension FileEntry.type FileEntry.path].
    destruct (bool_decide (TreeItem.type item = blob)).
    - destruct (String.eqb_spec (JS.toLowerCase (NodePath.extname (TreeItem.path item))) "")
        as [Hempty|Hne].
      + apply (proj1 (toLowerCase_empty _)) in Hempty.
        split; [intros [x Hx]; discriminate|intros [_ H]; congruence].
      + split; [|intros _; eexists; reflexivity].
        intros _. split; [reflexivity|]. intros E. apply Hne. rewrite E. reflexivity.
    - split; [intros [x Hx]; discriminate|intros [H _]; discriminate]. }
  split; [exact Hiff|].
  split. { rewrite Hiff, ExtnameShape.extname_nonempty_iff. reflexivity. }
  split; [apply FinalSegment.lastPortion_final_segment|].
  destruct (filterTree_In _ _ _ Hout e He) as (item & _ & Hitem).
  apply filterItem_Some in Hitem. subst e.
  unfold entryOf, getExtension. cbn [FileEntry.extension FileEntry.type FileEntry.path].
  destruct (bool_decide (TreeItem.type item = blob)).
  - destruct (String.eqb_spec (JS.toLowerCase (NodePath.extname (TreeItem.path item))) "")
      as [Hempty|Hne].
    + split; [intros x Hx; discriminate|reflexivity].
    + assert (Hext : NodePath.extname (TreeItem.path item) <> EmptyString).
      { intros E. apply Hne. rewrite E. reflexivity. }
      split; [|discriminate].
      intros x Hx. injection Hx as <-.
      split; [reflexivity|]. split; [apply toLowerCase_idem|].
      destruct (ExtnameFacts.extname_dot _ Hext) as (r & ->).
      eexists. reflexivity.
  - split; [intros x Hx; discriminate|reflexivity].
Qed.

End FilterFacts.

(** C8 at a concrete tree: a file with an upper-case extension. *)
Lemma filterTree_extension_witness :
  let item := Double.blobItem "src/Main.TS" "s1" 10 in
  let e := Double.fileEntry "src/Main.TS" "s1" 10 (Some ".ts"%string) in
  @filterTree Double.runtime [item] Double.noFilter = Ok [e] /\
  In e [e] /\
  (is_Some (FileEntry.extension e) <->
     FileEntry.type e = file /\ NodePath.extname (FileEntry.path e) <> EmptyString).
Proof.
  intros item e.
  assert (H1 : @filterTree Double.runtime [item] Double.noFilter = Ok [e]) by reflexivity.
  assert (H2 : In e [e]) by (left; reflexivity).
  split; [exact H1|]. split; [exact H2|].
  exact (proj1 (@filterTree_extension Double.runtime [item] Double.noFilter [e] e H1 H2)).
Defined.

(** C8 as the design document words it fails on a dot-file: [".gitignore"]
    has the non-empty suffix ["gitignore"] after its last dot, and
    [filterTree] gives the entry no extension. *)
Lemma filterTree_extension_dotfile :
  let e := Double.fileEntry ".gitignore" "s1" 10 None in
  @filterTree Double.runtime [Double.blobItem ".gitignore" "s1" 10] Double.noFilter = Ok [e] /\
  ~ (is_Some (FileEntry.extension e) <->
       FileEntry.type e = file /\ spec_hasSuffix (FileEntry.path e) = true).
Proof.
  intros e. split; [reflexivity|].
  intros [_ H].
  destruct H as [x Hx]; [split; reflexivity|discriminate].
Qed.

(** The other direction fails too: ["index."] has nothing after its last dot
    and gets the extension ["."]. *)
Example filterTree_extension_trailing_dot :
  @filterTree Double.runtime [Double.blobItem "index." "s1" 10] Double.noFilter
  = Ok [Double.fileEntry "index." "s1" 10 (Some "."%string)] /\
  spec_hasSuffix "index." = false.
Proof. split; reflexivity. Qed.

Section FilterOrder.
Context `{RT : Runtime}.

(** The type filter comes first: an item of the wrong kind is dropped before
    any pattern is compiled. *)
Lemma filterItem_kind_first (options : FilterOptions.t) (item : TreeItem.t) :
  kindDrops options item = true -> filterItem options item = Ok None.
Proof. intros H. rewrite filterItem_steps, H. reflexivity. Qed.

(** Include comes before exclude: an item that no include pattern matches is
    dropped before any exclude pattern is compiled. *)
Lemma filterItem_include_second (options : FilterOptions.t) (item : TreeItem.t) :
  kindDrops options item = false -> includeCheck options item = Ok false ->
  filterItem options item = Ok None.
Proof. intros H1 H2. rewrite filterItem_steps, H1, H2. reflexivity. Qed.

Lemma filterItem_excluded (options : FilterOptions.t) (item : TreeItem.t)
    (r : option FileEntry.t) (p : string) :
  filterItem options item = Ok r ->
  In p (default [] (FilterOptions.exclude options)) ->
  matchesPattern (TreeItem.path item) p = Ok true ->
  r = None.
Proof.
  rewrite filterItem_steps. intros H Hp Hm.
  destruct (kindDrops options item); [congruence|].
  destruct (includeCheck options item) as [[]|]; cbn [rbind negb] in H; try congruence.
  unfold excludeCheck in H.
  destruct (FilterOptions.exclude options) as [[|q qs]|]; try (destruct Hp; fail).
  change (default [] (Some (q :: qs))) with (q :: qs) in *.
  cbn [nonEmpty] in H.
  destruct (somePattern (TreeItem.path item) (q :: qs)) as [[]|] eqn:Hsome;
    cbn [rbind] in H; try congruence.
  pose proof (somePattern_false _ _ Hsome p Hp). congruence.
Qed.

(** C9. When [filterTree] returns, each item went through the tests in the
    order kind, include, exclude, extension and size: an item of the wrong
    kind is dropped; otherwise one that no include pattern matches is
    dropped; otherwise - so also when an include pattern matched it - one
    that an exclude pattern matches is dropped, and no entry of the output
    has its path; otherwise the extension and size tests decide. *)
Theorem filterTree_order (items : list TreeItem.t) (options : FilterOptions.t)
    (out : list FileEntry.t) (item : TreeItem.t) :
  filterTree items options = Ok out -> In item items ->
  exists r,
    filterItem options item = Ok r /\
    (forall e, r = Some e -> In e out) /\
    (kindDrops options item = true -> r = None) /\
    (kindDrops options item = false -> includeCheck options item = Ok false -> r = None) /\
    (forall p, In p (default [] (FilterOptions.exclude options)) ->
       matchesPattern (TreeItem.path item) p = Ok true ->
       r = None /\ forall e, In e out -> FileEntry.path e <> TreeItem.path item) /\
    (kindDrops options item = false -> includeCheck options item = Ok true ->
     excludeCheck options item = Ok false ->
     r = if extensionDrops options item || sizeDrops options item
         then None else Some (entryOf item)).
Proof.
  intros Hout Hin.
  destruct (filterTree_item _ _ _ Hout item Hin) as (r & Hr & Hrout).
  exists r. split; [assumption|]. split; [assumption|].
  split; [|split; [|split]].
  - intros H. rewrite (filterItem_kind_first _ _ H) in Hr. congruence.
  - intros H1 H2. rewrite (filterItem_include_second _ _ H1 H2) in Hr. congruence.
  - intros p Hp Hm. split; [eapply filterItem_excluded; eassumption|].
    intros e He Hpath.
    destruct (filterTree_In _ _ _ Hout e He) as (item' & _ & Hitem').
    pose proof (filterItem_Some _ _ _ Hitem') as ->.
    cbn [entryOf FileEntry.path] in Hpath.
    rewrite <- Hpath in Hm.
    pose proof (filterItem_excluded _ _ _ _ Hitem' Hp Hm). discriminate.
  - intros H1 H2 H3. rewrite filterItem_steps, H1, H2, H3 in Hr. cbn [rbind negb] in Hr.
    destruct (extensionDrops options item); cbn [orb]; [congruence|].
    destruct (sizeDrops options item); congruence.
Qed.

End FilterOrder.

(** C9 at a concrete tree: ["src/a.test.ts"] matches the include pattern
    ["src"] and the exclude pattern ["*.test.*"], and is dropped. *)
Lemma filterTree_order_witness :
  let items := [Double.blobItem "src/a.test.ts" "s1" 10;
                Double.blobItem "src/a.ts" "s2" 20;
                Double.blobItem "README.md" "s3" 30] in
  let out := [Double.fileEntry "src/a.ts" "s2" 20 (Some ".ts"%string)] in
  let item := Double.blobItem "src/a.test.ts" "s1" 10 in
  @filterTree Double.runtime items Double.includeSrcExcludeTests = Ok out /\
  In item items /\
  @matchesPattern Double.runtime "src/a.test.ts" "src" = Ok true /\
  @matchesPattern Double.runtime "src/a.test.ts" "*.test.*" = Ok true /\
  @filterItem Double.runtime Double.includeSrcExcludeTests item = Ok None.
Proof.
  intros items out item.
  assert (H1 : @filterTree Double.runtime items Double.includeSrcExcludeTests = Ok out) by reflexivity.
  assert (H2 : In item items) by (left; reflexivity).
  assert (H3 : @matchesPattern Double.runtime "src/a.test.ts" "*.test.*" = Ok true) by reflexivity.
  split; [exact H1|]. split; [exact H2|]. split; [reflexivity|]. split; [exact H3|].
  destruct (@filterTree_order Double.runtime items Double.includeSrcExcludeTests out item H1 H2)
    as (r & Hr & _ & _ & _ & Hex & _).
  destruct (Hex "*.test.*"%string (or_introl eq_refl) H3) as [-> _].
  exact Hr.
Defined.

(** ** Remote Tree Client *)

Section ClientFacts.
Context `{RT : Runtime}.

Lemma requestsOf_app (t1 t2 : list Event) :
  requestsOf (t1 ++ t2) = requestsOf t1 ++ requestsOf t2.
Proof. unfold requestsOf. apply omap_app. Qed.

Lemma fetch_Done (client : GitHubClient.t) (e : Endpoint) (s s' : Sys) (res : Response) :
  fetch client e s = Done res s' ->
  requestsOf (trace s') = requestsOf (trace s) ++ [e] /\
  obs s' = obs s /\ _rateLimit s' = _rateLimit s.
Proof.
  unfold fetch. destruct (respond _ (net s)) as [[r|] n]; intros H; inversion H; subst.
  cbn. rewrite requestsOf_app. auto.
Qed.

Lemma fetch_Thrown (client : GitHubClient.t) (e : Endpoint) (s s' : Sys) (err : error) :
  fetch client e s = Thrown err s' ->
  err = FetchFailed /\
  requestsOf (trace s') = requestsOf (trace s) ++ [e] /\
  obs s' = obs s /\ _rateLimit s' = _rateLimit s.
Proof.
  unfold fetch. destruct (respond _ (net s)) as [[r|] n]; intros H; inversion H; subst.
  cbn. rewrite requestsOf_app. auto.
Qed.

Lemma fetch_fuel (client : GitHubClient.t) (e : Endpoint) (s : Sys) :
  fetch client e s <> OutOfFuel.
Proof. unfold fetch. destruct (respond _ (net s)) as [[r|] n]; discriminate. Qed.

Lemma updateRateLimit_Done (res : Response) (s : Sys) :
  exists s', updateRateLimit res s = Done tt s' /\
             trace s' = trace s /\ net s' = net s /\ obs s' = obs s.
Proof.
  unfold updateRateLimit.
  destruct (_ && _); eexists; (split; [reflexivity|cbn; auto]).
Qed.

Lemma updateRateLimit_inv (res : Response) (s s' : Sys) (u : unit) :
  updateRateLimit res s = Done u s' ->
  trace s' = trace s /\ net s' = net s /\ obs s' = obs s.
Proof.
  destruct (updateRateLimit_Done res s) as (s'' & H & Hs). rewrite H.
  intros E; inversion E; subst. exact Hs.
Qed.

(** Whatever its outcome, [getDefaultBranch] makes one request. *)
Lemma getDefaultBranch_requests (client : GitHubClient.t) (repo : string) (s : Sys) :
  (exists d s', getDefaultBranch client repo s = Done d s' /\
                requestsOf (trace s') = requestsOf (trace s) ++ [GetRepo repo]) \/
  (exists e s', getDefaultBranch client repo s = Thrown e s' /\
                requestsOf (trace s') = requestsOf (trace s) ++ [GetRepo repo]).
Proof.
  unfold getDefaultBranch, bind.
  destruct (fetch client (GetRepo repo) s) as [res s0|e s0|] eqn:Hf.
  - apply fetch_Done in Hf. destruct Hf as (Ht & _).
    destruct (updateRateLimit_Done res s0) as (s1 & Hu & Htr & _). rewrite Hu.
    rewrite <- Htr in Ht.
    destruct (negb (ok res)).
    + right. repeat destruct (_ =? _); do 2 eexists; (split; [reflexivity|exact Ht]).
    + unfold json_default_branch.
      destruct (body res); [left|right..]; do 2 eexists; (split; [reflexivity|exact Ht]).
  - apply fetch_Thrown in Hf. destruct Hf as (-> & Ht & _).
    right. do 2 eexists. split; [reflexivity|exact Ht].
  - exfalso. exact (fetch_fuel _ _ _ Hf).
Qed.

Lemma not_ok_404_422 (res : Response) :
  status res = 404 \/ status res = 422 ->
  negb (ok res) && ((status res =? 404) || (status res =? 422)) = true.
Proof. unfold ok. intros [->| ->]; reflexivity. Qed.

(** C7. The first commit lookup was answered 404 or 422. Then [getTree]
    asks for the default branch. If that fails, the failure is the outcome.
    If it yields [d], the commit lookup is made once more, for [d]: when the
    answer is again not a success - 404 and 422 included - [getTree] throws
    after these three requests, without a further attempt; when it is a
    success and the tree request succeeds, [getTree] returns the tree with
    [d] as the resolved branch, after four requests. *)
Theorem getTree_fallback_once (client : GitHubClient.t) (repo branch : string)
    (s s0 s1 : Sys) (res1 : Response) :
  fetch client (GetCommit repo branch) s = Done res1 s0 ->
  updateRateLimit res1 s0 = Done tt s1 ->
  status res1 = 404 \/ status res1 = 422 ->
  (forall e s2, getDefaultBranch client repo s1 = Thrown e s2 ->
     getTree client repo branch s = Thrown e s2 /\
     requestsOf (trace s2) = requestsOf (trace s) ++ [GetCommit repo branch; GetRepo repo]) /\
  (forall d s2, getDefaultBranch client repo s1 = Done d s2 ->
     (forall e s3, fetch client (GetCommit repo d) s2 = Thrown e s3 ->
        getTree client repo branch s = Thrown e s3) /\
     (forall res2 s3 s4,
        fetch client (GetCommit repo d) s2 = Done res2 s3 ->
        updateRateLimit res2 s3 = Done tt s4 ->
        (ok res2 = false ->
           getTree client repo branch s =
             Thrown (if status res2 =? 403 then RateLimitExceeded
                     else FailedToGetCommit (status res2) (statusText res2)) s4 /\
           requestsOf (trace s4) =
             requestsOf (trace s) ++ [GetCommit repo branch; GetRepo repo; GetCommit repo d]) /\
        (ok res2 = true ->
           forall sha treeRes s5 s6 t,
             body res2 = BodyCommit sha ->
             fetch client (GetTree repo sha) s4 = Done treeRes s5 ->
             updateRateLimit treeRes s5 = Done tt s6 ->
             ok treeRes = true -> body treeRes = BodyTree t ->
             getTree client repo branch s = Done (t, d) s6 /\
             requestsOf (trace s6) =
               requestsOf (trace s) ++
               [GetCommit repo branch; GetRepo repo; GetCommit repo d; GetTree repo sha]))).
Proof.
  intros Hf1 Hu1 Hst.
  pose proof (not_ok_404_422 _ Hst) as Hfall.
  pose proof (fetch_Done _ _ _ _ _ Hf1) as (Ht0 & _).
  pose proof (updateRateLimit_inv _ _ _ _ Hu1) as (Ht1 & _).
  assert (Hreq1 : requestsOf (trace s1) = requestsOf (trace s) ++ [GetCommit repo branch])
    by (rewrite Ht1; exact Ht0).
  split.
  - intros e s2 Hd. split.
    + unfold getTree, bind. rewrite Hf1, Hu1, Hfall, Hd. reflexivity.
    + destruct (getDefaultBranch_requests client repo s1) as [(d & s' & H & Ht)|(e' & s' & H & Ht)];
        rewrite H in Hd; inversion Hd; subst.
      rewrite Ht, Hreq1, <- app_assoc. reflexivity.
  - intros d s2 Hd.
    assert (Hreq2 : requestsOf (trace s2) =
                    requestsOf (trace s) ++ [GetCommit repo branch; GetRepo repo]).
    { destruct (getDefaultBranch_requests client repo s1) as [(d' & s' & H & Ht)|(e' & s' & H & Ht)];
        rewrite H in Hd; inversion Hd; subst.
      rewrite Ht, Hreq1, <- app_assoc. reflexivity. }
    split.
    + intros e s3 Hf2. unfold getTree, bind. rewrite Hf1, Hu1, Hfall, Hd, Hf2. reflexivity.
    + intros res2 s3 s4 Hf2 Hu2.
      pose proof (fetch_Done _ _ _ _ _ Hf2) as (Ht3 & _).
      pose proof (updateRateLimit_inv _ _ _ _ Hu2) as (Ht4 & _).
      assert (Hreq4 : requestsOf (trace s4) =
                      requestsOf (trace s) ++
                      [GetCommit repo branch; GetRepo repo; GetCommit repo d]).
      { rewrite Ht4, Ht3, Hreq2, <- app_assoc. reflexivity. }
      split.
      * intros Hok. split; [|exact Hreq4].
        unfold getTree, bind. rewrite Hf1, Hu1, Hfall, Hd, Hf2, Hu2. cbn [ret].
        rewrite Hok. cbn [negb]. destruct (status res2 =? 403); reflexivity.
      * intros Hok sha treeRes s5 s6 t Hbody Hf3 Hu3 Hok3 Hbody3.
        pose proof (fetch_Done _ _ _ _ _ Hf3) as (Ht5 & _).
        pose proof (updateRateLimit_inv _ _ _ _ Hu3) as (Ht6 & _).
        split.
        -- unfold getTree, bind. rewrite Hf1, Hu1, Hfall, Hd, Hf2, Hu2. cbn [ret].
           rewrite Hok. cbn [negb]. unfold json_commit_tree_sha. rewrite Hbody. cbn [ret].
           rewrite Hf3, Hu3, Hok3. cbn [negb]. unfold json_tree. rewrite Hbody3. reflexivity.
        -- rewrite Ht6, Ht5, Hreq4, <- app_assoc. reflexivity.
Qed.

End ClientFacts.

(** C7 on the repository of the examples: the branch ["doesnotexist"] is not
    found, the default branch is ["main"], and the tree comes back with
    ["main"] as the resolved branch after four requests. *)
Lemma getTree_fallback_once_witness :
  let s := Double.start (Double.demoServer Double.neverFails) in
  let client := Double.anonymous in
  exists res1 s0 s1 s6,
    fetch client (GetCommit "octo/demo" "doesnotexist") s = Done res1 s0 /\
    updateRateLimit res1 s0 = Done tt s1 /\
    (status res1 = 404 \/ status res1 = 422) /\
    getTree client "octo/demo" "doesnotexist" s = Done (Double.demoTree, "main"%string) s6 /\
    requestsOf (trace s6) =
      [GetCommit "octo/demo" "doesnotexist"; GetRepo "octo/demo";
       GetCommit "octo/demo" "main"; GetTree "octo/demo" "t1"].
Proof.
  intros s client.
  eassert (H1 : fetch client (GetCommit "octo/demo" "doesnotexist") s = Done _ _)
    by (lazy; reflexivity).
  match type of H1 with _ = Done ?res1 ?s0 =>
    eassert (H2 : updateRateLimit res1 s0 = Done tt _) by (lazy; reflexivity);
    assert (H3 : status res1 = 404 \/ status res1 = 422) by (left; reflexivity)
  end.
  pose proof (proj2 (getTree_fallback_once client _ _ s _ _ _ H1 H2 H3)) as Hfb.
  match type of H2 with _ = Done tt ?s1 =>
    eassert (Hd : getDefaultBranch client "octo/demo" s1 = Done "main"%string _)
      by (lazy; reflexivity)
  end.
  specialize (Hfb _ _ Hd). destruct Hfb as [_ Hfb].
  match type of Hd with _ = Done _ ?s2 =>
    eassert (Hf2 : fetch client (GetCommit "octo/demo" "main") s2 = Done _ _)
      by (lazy; reflexivity)
  end.
  match type of Hf2 with _ = Done ?res2 ?s3 =>
    eassert (Hu2 : updateRateLimit res2 s3 = Done tt _) by (lazy; reflexivity)
  end.
  specialize (Hfb _ _ _ Hf2 Hu2). destruct Hfb as [_ Hfb].
  specialize (Hfb eq_refl "t1"%string).
  match type of Hu2 with _ = Done tt ?s4 =>
    eassert (Hf3 : fetch client (GetTree "octo/demo" "t1") s4 = Done _ _)
      by (lazy; reflexivity)
  end.
  match type of Hf3 with _ = Done ?res3 ?s5 =>
    eassert (Hu3 : updateRateLimit res3 s5 = Done tt _) by (lazy; reflexivity)
  end.
  specialize (Hfb _ _ _ Double.demoTree eq_refl Hf3 Hu3 eq_refl eq_refl).
  destruct Hfb as [Hres Htrace].
  do 4 eexists.
  split; [exact H1|]. split; [exact H2|]. split; [exact H3|].
  split; [exact Hres|exact Htrace].
Defined.

(** The retry is not repeated: on a server where the lookup of the default
    branch fails as well, [getTree] throws after three requests. *)
Example getTree_no_second_retry :
  exists s',
    @getTree Double.runtime Double.anonymous "octo/demo" "doesnotexist"
      (Double.start Double.brokenServer)
    = Thrown (FailedToGetCommit 404 "Not Found") s' /\
    requestsOf (trace s') =
      [GetCommit "octo/demo" "doesnotexist"; GetRepo "octo/demo";
       GetCommit "octo/demo" "main"].
Proof. eexists. split; lazy; reflexivity. Qed.

(** ** Batched Content Fetcher *)

(** *** Consecutive groups *)

Section Groups.
Context {A : Type}.
Implicit Types l : list A.

Lemma groupsFuel_irrelevant (N : nat) :
  (1 <= N)%nat ->
  forall fuel1 fuel2 l, (length l <= fuel1)%nat -> (length l <= fuel2)%nat ->
  groupsFuel fuel1 N l = groupsFuel fuel2 N l.
Proof.
  intros HN. induction fuel1 as [|fuel1 IH]; intros fuel2 l H1 H2.
  - destruct l; [destruct fuel2; reflexivity|simpl in H1; lia].
  - destruct l as [|x l]; [destruct fuel2; reflexivity|].
    destruct fuel2 as [|fuel2]; [simpl in H2; lia|].
    cbn [groupsFuel]. f_equal.
    apply IH; rewrite length_drop; simpl in *; lia.
Qed.

Lemma groupsFuel_enough (N : nat) :
  (1 <= N)%nat -> forall fuel l, (length l <= fuel)%nat -> groupsFuel fuel N l = groups N l.
Proof.
  intros HN fuel l Hl. unfold groups. apply groupsFuel_irrelevant; [assumption..|lia].
Qed.

Lemma groups_nil (N : nat) : groups N (@nil A) = [].
Proof. reflexivity. Qed.

Lemma groups_cons (N : nat) l :
  (1 <= N)%nat -> l <> [] -> groups N l = take N l :: groups N (drop N l).
Proof.
  intros HN Hl. destruct l as [|x l]; [congruence|].
  unfold groups at 1. cbn [length groupsFuel]. f_equal.
  apply groupsFuel_enough; [assumption|].
  rewrite length_drop. simpl. lia.
Qed.

Lemma groups_ind (N : nat) (P : list A -> Prop) :
  (1 <= N)%nat ->
  P [] ->
  (forall l, l <> [] -> P (drop N l) -> P l) ->
  forall l, P l.
Proof.
  intros HN Hnil Hstep l.
  remember (length l) as n eqn:Hn. revert l Hn.
  induction n as [n IH] using lt_wf_ind. intros l Hn.
  destruct l as [|x l]; [assumption|].
  apply Hstep; [discriminate|].
  apply (IH (length (drop N (x :: l)))); [|reflexivity].
  rewrite length_drop. subst n. simpl. lia.
Qed.

Lemma groups_concat (N : nat) l : (1 <= N)%nat -> concat (groups N l) = l.
Proof.
  intros HN. pattern l. apply (groups_ind N); [assumption|reflexivity|].
  clear l. intros l Hl IH.
  rewrite groups_cons by assumption. cbn [concat]. rewrite IH. apply take_drop.
Qed.

Lemma groups_sizes (N : nat) l :
  (1 <= N)%nat -> Forall (fun g => (1 <= length g <= N)%nat) (groups N l).
Proof.
  intros HN. pattern l. apply (groups_ind N); [assumption|constructor|].
  clear l. intros l Hl IH.
  rewrite groups_cons by assumption. constructor; [|assumption].
  rewrite length_take. destruct l; [congruence|]. simpl. lia.
Qed.

(** Group [k] is the slice that the loop takes at [i = k * N]. *)
Lemma groups_lookup (N : nat) l (k : nat) :
  (1 <= N)%nat -> (k * N < length l)%nat ->
  groups N l !! k = Some (JS.arraySlice l (k * N) (k * N + N)).
Proof.
  intros HN. revert k. pattern l. apply (groups_ind N); [assumption|intros k Hk; simpl in Hk; lia|].
  clear l. intros l Hl IH k Hk. rewrite groups_cons by assumption.
  unfold JS.arraySlice. replace (k * N + N - k * N)%nat with N by lia.
  destruct k as [|k]; [reflexivity|].
  cbn [lookup list_lookup]. rewrite IH.
  2: { rewrite length_drop. simpl in Hk. lia. }
  unfold JS.arraySlice.
  assert (E : (k * N + N - k * N = N)%nat) by lia. rewrite E.
  rewrite drop_drop. reflexivity.
Qed.

Lemma groups_length (N : nat) l (k : nat) :
  (1 <= N)%nat -> (length l <= k * N)%nat -> groups N l !! k = None.
Proof.
  intros HN. revert k. pattern l. apply (groups_ind N); [assumption|intros k Hk; reflexivity|].
  clear l. intros l Hl IH k Hk. rewrite groups_cons by assumption.
  destruct k as [|k].
  - destruct l; [congruence|simpl in Hk; lia].
  - cbn [lookup list_lookup]. apply IH. rewrite length_drop. simpl in Hk. lia.
Qed.

End Groups.

(** *** The loop of [fetchContent] *)

Section FetcherFacts.
Context `{RT : Runtime}.
Variable client : GitHubClient.t.
Variable repo : string.

Lemma outcomes_app (l1 l2 : list FileEntry.t) (n : Net) :
  outcomes client repo (l1 ++ l2) n =
  ((outcomes client repo l1 n).1 ++ (outcomes client repo l2 (outcomes client repo l1 n).2).1,
   (outcomes client repo l2 (outcomes client repo l1 n).2).2).
Proof.
  revert n. induction l1 as [|e l1 IH]; intros n; cbn [app outcomes].
  - cbn [fst snd app]. destruct (outcomes client repo l2 n); reflexivity.
  - destruct (blobOutcome client repo (FileEntry.sha e) n) as [r n1].
    rewrite IH. destruct (outcomes client repo l1 n1) as [rs n2]. cbn [fst snd].
    destruct (outcomes client repo l2 n2); reflexivity.
Qed.

Lemma outcomes_length (l : list FileEntry.t) (n : Net) :
  length (outcomes client repo l n).1 = length l.
Proof.
  revert n. induction l as [|e l IH]; intros n; cbn [outcomes]; [reflexivity|].
  destruct (blobOutcome client repo (FileEntry.sha e) n) as [r n1].
  specialize (IH n1). destruct (outcomes client repo l n1). cbn [fst length] in *. congruence.
Qed.

(** Each outcome is a failure or the content under the object id of the
    entry at the same position. *)
Lemma outcomes_lookup (l : list FileEntry.t) (n : Net) (k : nat) (e : FileEntry.t) :
  l !! k = Some e ->
  (exists err, (outcomes client repo l n).1 !! k = Some (Throw err)) \/
  (exists c, (outcomes client repo l n).1 !! k = Some (Ok (FileEntry.sha e, c))).
Proof.
  revert n k. induction l as [|x l IH]; intros n k Hk; [discriminate|].
  cbn [outcomes].
  destruct (blobOutcome client repo (FileEntry.sha x) n) as [r n1] eqn:Hb.
  specialize (IH n1). destruct (outcomes client repo l n1) as [rs n2]. cbn [fst] in *.
  destruct k as [|k]; cbn [lookup list_lookup] in *.
  - injection Hk as ->. unfold blobOutcome in Hb.
    destruct (respond _ n) as [[res|] n']; injection Hb as <- _.
    + destruct (negb (ok res)); [left; eauto|].
      destruct (body res); eauto.
    + left; eauto.
  - apply IH. assumption.
Qed.

Lemma collect_app (rs1 rs2 : list (result (string * string))) (m : gmap string string) :
  collect (rs1 ++ rs2) m = collect rs2 (collect rs1 m).
Proof. unfold collect. apply fold_left_app. Qed.

(** One settled blob request. *)
Lemma settle_getBlobContent (sha : string) (s : Sys) :
  exists s',
    settle (bind (getBlobContent client repo sha) (fun content => ret (sha, content))) s
    = Done (blobOutcome client repo sha (net s)).1 s' /\
    net s' = (blobOutcome client repo sha (net s)).2 /\
    obs s' = obs s /\
    trace s' = trace s ++ [EvRequest (blobRequest client repo sha)].
Proof.
  unfold settle, getBlobContent, getBlob, bind, fetch, blobOutcome.
  change {| endpoint := GetBlob repo sha; req_headers := GitHubClient.headers client |}
    with (blobRequest client repo sha).
  destruct (respond (blobRequest client repo sha) (net s)) as [[res|] n'].
  - match goal with
    | |- context [updateRateLimit res ?s0] =>
        destruct (updateRateLimit_Done res s0) as (s1 & Hu & Ht & Hn & Ho); rewrite Hu
    end.
    cbn [trace net obs] in *.
    destruct (negb (ok res)).
    + eexists. split; [reflexivity|]. cbn [fst snd]. auto.
    + unfold json_blob_content.
      destruct (body res); eexists; (split; [reflexivity|]); cbn [fst snd]; auto.
  - eexists. split; [reflexivity|]. cbn. auto.
Qed.

Lemma allSettled_spec (batch : list FileEntry.t) (s : Sys) :
  exists s',
    allSettled client repo batch s = Done (outcomes client repo batch (net s)).1 s' /\
    net s' = (outcomes client repo batch (net s)).2 /\
    obs s' = obs s /\
    trace s' = trace s ++ map (fun e => EvRequest (blobRequest client repo (FileEntry.sha e))) batch.
Proof.
  revert s. induction batch as [|e batch IH]; intros s.
  - exists s. cbn. rewrite app_nil_r. auto.
  - cbn [allSettled outcomes].
    destruct (settle_getBlobContent (FileEntry.sha e) s) as (s1 & H1 & Hn1 & Ho1 & Ht1).
    unfold bind at 1. rewrite H1.
    destruct (blobOutcome client repo (FileEntry.sha e) (net s)) as [r n1]. cbn [fst snd] in *.
    destruct (IH s1) as (s2 & H2 & Hn2 & Ho2 & Ht2).
    unfold bind. rewrite H2. rewrite Hn1 in *.
    destruct (outcomes client repo batch n1) as [rs n2]. cbn [fst snd] in *.
    exists s2. split; [reflexivity|]. split; [assumption|]. split; [congruence|].
    rewrite Ht2, Ht1, <- app_assoc. reflexivity.
Qed.

Lemma recordResults_spec (onProgress : option (nat -> nat -> Obs -> Obs)) (total : nat)
    (rs : list (result (string * string))) :
  forall (results : gmap string string) (completed : nat) (s : Sys),
  exists s',
    recordResults onProgress total rs results completed s
    = Done (collect rs results, (completed + length rs)%nat) s' /\
    net s' = net s /\
    obs s' = observe onProgress total (seq (S completed) (length rs)) (obs s) /\
    trace s' = trace s ++ reports (observed onProgress) total completed (length rs).
Proof.
  induction rs as [|r rs IH]; intros results completed s.
  - exists s. cbn. rewrite Nat.add_0_r.
    destruct onProgress; cbn; rewrite app_nil_r; auto.
  - cbn [recordResults].
    set (results' := match r with Ok (sha, content) => <[sha:=content]> results | Throw _ => results end).
    assert (Hcall : exists s1, callOnProgress onProgress (S completed) total s = Done tt s1 /\
              net s1 = net s /\
              obs s1 = observe onProgress total [S completed] (obs s) /\
              trace s1 = trace s ++ reports (observed onProgress) total completed 1).
    { destruct onProgress as [f|]; cbn.
      - eexists. split; [reflexivity|]. cbn. auto.
      - exists s. rewrite app_nil_r. auto. }
    destruct Hcall as (s1 & Hc & Hn1 & Ho1 & Ht1).
    unfold bind. rewrite Hc.
    destruct (IH results' (S completed) s1) as (s2 & H2 & Hn2 & Ho2 & Ht2).
    rewrite H2. exists s2.
    split. { cbn [length]. do 2 f_equal. lia. }
    split; [congruence|].
    split.
    + rewrite Ho2, Ho1. cbn [length seq]. destruct onProgress; reflexivity.
    + rewrite Ht2, Ht1, <- app_assoc. f_equal.
      cbn [length]. unfold reports. destruct (observed onProgress); reflexivity.
Qed.

End FetcherFacts.

Section FetcherLoop.
Context `{RT : Runtime}.
Variable client : GitHubClient.t.
Variable repo : string.

Lemma observe_app (onProgress : option (nat -> nat -> Obs -> Obs)) (total : nat)
    (ks1 ks2 : list nat) (o : Obs) :
  observe onProgress total (ks1 ++ ks2) o =
  observe onProgress total ks2 (observe onProgress total ks1 o).
Proof. destruct onProgress; [apply fold_left_app|reflexivity]. Qed.

Lemma batchLoop_spec (files : list FileEntry.t) (N : nat)
    (onProgress : option (nat -> nat -> Obs -> Obs)) :
  (1 <= N)%nat ->
  forall (fuel i : nat) (results : gmap string string) (completed : nat) (s : Sys),
  (length files - i <= fuel)%nat ->
  exists s',
    batchLoop fuel client repo files N onProgress i results completed s
    = Done (collect (outcomes client repo (drop i files) (net s)).1 results) s' /\
    net s' = (outcomes client repo (drop i files) (net s)).2 /\
    obs s' = observe onProgress (length files)
               (seq (S completed) (length files - i)) (obs s) /\
    trace s' = trace s ++
               groupsTrace client repo (observed onProgress) (length files)
                 (groups N (drop i files)) completed.
Proof.
  intros HN.
  assert (Hdone : forall i results completed s, (length files <= i)%nat ->
            exists s', ret results s
              = Done (collect (outcomes client repo (drop i files) (net s)).1 results) s' /\
              net s' = (outcomes client repo (drop i files) (net s)).2 /\
              obs s' = observe onProgress (length files)
                         (seq (S completed) (length files - i)) (obs s) /\
              trace s' = trace s ++
                         groupsTrace client repo (observed onProgress) (length files)
                           (groups N (drop i files)) completed).
  { intros i results completed s Hi. exists s.
    rewrite drop_ge by lia.
    replace (length files - i)%nat with 0%nat by lia.
    cbn. rewrite app_nil_r. destruct onProgress; auto. }
  induction fuel as [|fuel IH]; intros i results completed s Hfuel.
  - cbn [batchLoop].
    destruct (Nat.ltb_spec i (length files)) as [Hlt|Hge]; [lia|].
    apply Hdone. assumption.
  - cbn [batchLoop].
    destruct (Nat.ltb_spec i (length files)) as [Hlt|Hge]; [|apply Hdone; assumption].
    unfold JS.arraySlice.
    assert (E : (i + N - i = N)%nat) by lia. rewrite E. clear E.
    set (rem := drop i files).
    set (batch := take N rem).
    assert (Hrem : rem <> []).
    { intros E. apply (f_equal length) in E. unfold rem in E.
      rewrite length_drop in E. simpl in E. lia. }
    assert (Hsplit : rem = batch ++ drop (i + N) files).
    { unfold batch, rem. rewrite <- drop_drop. symmetry. apply take_drop. }
    assert (Hblen : (length batch + (length files - (i + N)) = length files - i)%nat).
    { unfold batch, rem. rewrite length_take, length_drop. lia. }
    destruct (allSettled_spec client repo batch s) as (s1 & H1 & Hn1 & Ho1 & Ht1).
    unfold bind at 1. rewrite H1.
    destruct (recordResults_spec onProgress (length files)
                (outcomes client repo batch (net s)).1 results completed s1)
      as (s2 & H2 & Hn2 & Ho2 & Ht2).
    unfold bind at 1. rewrite H2.
    rewrite outcomes_length in *.
    destruct (IH (i + N)%nat (collect (outcomes client repo batch (net s)).1 results)
                 (completed + length batch)%nat s2) as (s3 & H3 & Hn3 & Ho3 & Ht3); [lia|].
    exists s3. rewrite H3.
    rewrite Hsplit, outcomes_app. cbn [fst snd]. rewrite collect_app.
    rewrite Hn2, Hn1 in *.
    split; [reflexivity|]. split; [assumption|]. split.
    + rewrite Ho3, Ho2, Ho1, <- Hblen, seq_app, observe_app.
      do 2 f_equal; lia.
    + rewrite Ht3, Ht2, Ht1, <- !app_assoc. f_equal.
      rewrite <- Hsplit.
      rewrite (groups_cons N rem HN Hrem). cbn [groupsTrace].
      fold batch. do 3 f_equal.
      unfold rem. rewrite drop_drop. reflexivity.
Qed.

Lemma mergeContent_empty (e : FileEntry.t) : mergeContent ∅ e = e.
Proof.
  unfold mergeContent. rewrite lookup_empty.
  rewrite (bool_decide_eq_false_2 (is_Some None)) by (intros [x Hx]; discriminate).
  rewrite andb_false_r. reflexivity.
Qed.

(** What a call of [fetchContent] does, when the bound is at least one and
    the loop is unrolled often enough. *)
Lemma fetchContent_spec (fuel : nat) (entries : list FileEntry.t)
    (options : FetchContentOptions.t) (s : Sys) :
  (1 <= concurrencyOf options)%nat ->
  (length (filesToFetch options entries) <= fuel)%nat ->
  exists s',
    fetchContent fuel client repo entries options s
    = Done (map (mergeContent
                   (collect (outcomes client repo (filesToFetch options entries) (net s)).1 ∅))
              entries) s' /\
    net s' = (outcomes client repo (filesToFetch options entries) (net s)).2 /\
    obs s' = observe (FetchContentOptions.onProgress options)
               (length (filesToFetch options entries))
               (seq 1 (length (filesToFetch options entries))) (obs s) /\
    trace s' = trace s ++
               groupsTrace client repo (observed (FetchContentOptions.onProgress options))
                 (length (filesToFetch options entries))
                 (groups (concurrencyOf options) (filesToFetch options entries)) 0.
Proof.
  intros HN Hfuel. unfold fetchContent.
  change (filter _ entries) with (filesToFetch options entries).
  change (default DEFAULT_CONCURRENCY (FetchContentOptions.concurrency options))
    with (concurrencyOf options).
  set (files := filesToFetch options entries) in *.
  destruct (Nat.eqb_spec (length files) 0) as [Hz|Hnz].
  - destruct files; [|discriminate]. exists s. cbn.
    rewrite app_nil_r.
    replace (map (mergeContent ∅) entries) with entries.
    2: { clear. induction entries as [|e l IH]; [reflexivity|].
         cbn [map]. rewrite mergeContent_empty, <- IH. reflexivity. }
    destruct (FetchContentOptions.onProgress options); auto.
  - destruct (batchLoop_spec files (concurrencyOf options)
                (FetchContentOptions.onProgress options) HN fuel 0 ∅ 0 s) as (s' & H & Hn & Ho & Ht);
      [lia|].
    rewrite Nat.sub_0_r in *. rewrite drop_0 in *.
    exists s'. unfold bind. rewrite H. auto.
Qed.

End FetcherLoop.

Section FetcherClaims.
Context `{RT : Runtime}.
Variable client : GitHubClient.t.
Variable repo : string.

(** With a bound of zero the loop never advances: however often it is
    unrolled, it does not come to its end. *)
Lemma batchLoop_zero_diverges (files : list FileEntry.t)
    (onProgress : option (nat -> nat -> Obs -> Obs)) :
  files <> [] ->
  forall fuel results completed s,
    batchLoop fuel client repo files 0 onProgress 0 results completed s = OutOfFuel.
Proof.
  intros Hne. induction fuel as [|fuel IH]; intros results completed s.
  - destruct files; [congruence|reflexivity].
  - cbn [batchLoop]. destruct files as [|e l] eqn:E; [congruence|]. rewrite <- E in *.
    replace (Nat.ltb 0 (length files)) with true by (rewrite E; reflexivity).
    unfold JS.arraySlice. cbn [Nat.add Nat.sub take]. cbn [allSettled].
    unfold bind, ret. cbn [recordResults]. unfold ret. apply IH.
Qed.

(** C3. With a bound [N >= 1], [fetchContent] returns, and the calls it makes
    are those of the consecutive groups of the files to fetch, group after
    group: the requests of a group, then the progress reports of that group,
    then the next group. The groups depend on the list and on [N] only: they
    concatenate to the list, each has between 1 and [N] members, and group
    [k] is the slice from [k * N] to [k * N + N]. *)
Theorem fetchContent_groups (fuel : nat) (entries : list FileEntry.t)
    (options : FetchContentOptions.t) (s : Sys) :
  (1 <= concurrencyOf options)%nat ->
  (length (filesToFetch options entries) <= fuel)%nat ->
  (exists out s',
     fetchContent fuel client repo entries options s = Done out s' /\
     trace s' = trace s ++
       groupsTrace client repo (observed (FetchContentOptions.onProgress options))
         (length (filesToFetch options entries))
         (groups (concurrencyOf options) (filesToFetch options entries)) 0) /\
  concat (groups (concurrencyOf options) (filesToFetch options entries))
    = filesToFetch options entries /\
  Forall (fun g => (1 <= length g <= concurrencyOf options)%nat)
    (groups (concurrencyOf options) (filesToFetch options entries)) /\
  (forall k, (k * concurrencyOf options < length (filesToFetch options entries))%nat ->
     groups (concurrencyOf options) (filesToFetch options entries) !! k
     = Some (JS.arraySlice (filesToFetch options entries)
               (k * concurrencyOf options)
               (k * concurrencyOf options + concurrencyOf options))) /\
  (forall k, (length (filesToFetch options entries) <= k * concurrencyOf options)%nat ->
     groups (concurrencyOf options) (filesToFetch options entries) !! k = None).
Proof.
  intros HN Hfuel.
  destruct (fetchContent_spec client repo fuel entries options s HN Hfuel)
    as (s' & H & _ & _ & Ht).
  split; [eauto|].
  split; [apply groups_concat; assumption|].
  split; [apply groups_sizes; assumption|].
  split; intros k Hk; [apply groups_lookup|apply groups_length]; assumption.
Qed.

Lemma collect_lookup (rs : list (result (string * string))) :
  forall (m : gmap string string) (sha : string),
  is_Some (collect rs m !! sha) <-> is_Some (m !! sha) \/ exists c, In (Ok (sha, c)) rs.
Proof.
  induction rs as [|r rs IH]; intros m sha.
  - cbn. split; [auto|]. intros [H|[c []]]; assumption.
  - change (collect (r :: rs) m)
      with (collect rs (match r with Ok (sha, content) => <[sha:=content]> m | Throw _ => m end)).
    rewrite IH. destruct r as [[sha' c']|err].
    + rewrite lookup_insert_is_Some. split.
      * intros [[->|[_ H]]|[c H]].
        -- right. exists c'. left. reflexivity.
        -- left. assumption.
        -- right. exists c. right. assumption.
      * intros [H|[c [H|H]]].
        -- destruct (decide (sha' = sha)); [left; left; assumption|left; right; auto].
        -- injection H as -> ->. left. left. reflexivity.
        -- right. exists c. assumption.
    + split.
      * intros [H|[c H]]; [left; assumption|right; exists c; right; assumption].
      * intros [H|[c [H|H]]]; [left; assumption|discriminate|right; exists c; assumption].
Qed.

Lemma mergeContent_hit (results : gmap string string) (e : FileEntry.t) :
  FileEntry.type e = file -> is_Some (results !! FileEntry.sha e) ->
  exists c, mergeContent results e = FileEntry.with_content e (Some c).
Proof.
  intros Ht [c Hc]. exists c. unfold mergeContent.
  rewrite bool_decide_eq_true_2 by assumption.
  rewrite bool_decide_eq_true_2 by (rewrite Hc; eauto).
  rewrite Hc. reflexivity.
Qed.

Lemma mergeContent_miss (results : gmap string string) (e : FileEntry.t) :
  FileEntry.type e <> file \/ results !! FileEntry.sha e = None ->
  mergeContent results e = e.
Proof.
  intros [H|H]; unfold mergeContent.
  - rewrite bool_decide_eq_false_2 by assumption. reflexivity.
  - rewrite (bool_decide_eq_false_2 (is_Some _)) by (rewrite H; intros [x Hx]; discriminate).
    rewrite andb_false_r. reflexivity.
Qed.

Lemma needsContent_file (maxFileSize : Z) (filterShas : option (gset string))
    (e : FileEntry.t) :
  needsContent maxFileSize filterShas e = true -> FileEntry.type e = file.
Proof.
  unfold needsContent. destruct (decide (FileEntry.type e = file)) as [H|H]; [auto|].
  rewrite bool_decide_eq_false_2 by assumption. discriminate.
Qed.

Lemma allSettled_outcomes (files : list FileEntry.t) (s sA : Sys)
    (outs : list (result (string * string))) :
  allSettled client repo files s = Done outs sA ->
  outs = (outcomes client repo files (net s)).1.
Proof.
  destruct (allSettled_spec client repo files s) as (s' & H & _). rewrite H.
  intros E. inversion E. reflexivity.
Qed.

(** What is returned, in terms of the settled fetches. *)
Lemma fetchContent_result (fuel : nat) (entries : list FileEntry.t)
    (options : FetchContentOptions.t) (s sA : Sys)
    (outs : list (result (string * string))) :
  (1 <= concurrencyOf options)%nat ->
  (length (filesToFetch options entries) <= fuel)%nat ->
  allSettled client repo (filesToFetch options entries) s = Done outs sA ->
  exists s',
    fetchContent fuel client repo entries options s
    = Done (map (mergeContent (collect outs ∅)) entries) s'.
Proof.
  intros HN Hfuel Hall.
  apply allSettled_outcomes in Hall.
  destruct (fetchContent_spec client repo fuel entries options s HN Hfuel)
    as (s' & H & _).
  rewrite <- Hall in H. eauto.
Qed.

(** An entry after the merge: with content when it is a file whose object
    id some fulfilled fetch carries, as it was otherwise. *)
Lemma merged_lookup (outs : list (result (string * string)))
    (entries : list FileEntry.t) (i : nat) (e : FileEntry.t) :
  entries !! i = Some e ->
  (FileEntry.type e = file -> (exists c, In (Ok (FileEntry.sha e, c)) outs) ->
     exists c, map (mergeContent (collect outs ∅)) entries !! i
               = Some (FileEntry.with_content e (Some c))) /\
  (FileEntry.type e <> file \/ (forall c, ~ In (Ok (FileEntry.sha e, c)) outs) ->
     map (mergeContent (collect outs ∅)) entries !! i = Some e).
Proof.
  intros Hi.
  rewrite list_lookup_fmap, Hi. cbn [fmap option_fmap option_map].
  split.
  - intros Ht Hc.
    destruct (mergeContent_hit (collect outs ∅) e Ht) as (c & ->); [|eauto].
    apply collect_lookup. right. assumption.
  - intros Hmiss. f_equal. apply mergeContent_miss.
    destruct Hmiss as [Ht|Hno]; [left; assumption|right].
    destruct (collect outs ∅ !! FileEntry.sha e) eqn:E; [|reflexivity].
    assert (Hs : is_Some (collect outs ∅ !! FileEntry.sha e)) by (rewrite E; eauto).
    apply collect_lookup in Hs. destruct Hs as [[x Hx]|[c Hc]].
    + rewrite lookup_empty in Hx. discriminate.
    + destruct (Hno c Hc).
Qed.

(** The map that the loop over the settled fetches builds holds, under an
    object id, the content of the last fulfilled fetch for it. *)
Lemma collect_lastFulfilled (outs : list (result (string * string))) (sha : string) :
  forall m : gmap string string,
  collect outs m !! sha
  = match lastFulfilled outs sha with Some c => Some c | None => m !! sha end.
Proof.
  induction outs as [|r outs IH]; intros m; [reflexivity|].
  change (collect (r :: outs) m)
    with (collect outs (match r with Ok (sha, content) => <[sha:=content]> m | Throw _ => m end)).
  rewrite IH. cbn [lastFulfilled].
  destruct (lastFulfilled outs sha); [reflexivity|].
  destruct r as [[sha' c]|err]; [|reflexivity].
  destruct (String.eqb_spec sha' sha) as [->|Hne].
  - apply lookup_insert_eq.
  - apply lookup_insert_ne. exact Hne.
Qed.

Lemma lastFulfilled_None (outs : list (result (string * string))) (sha : string) :
  lastFulfilled outs sha = None <-> forall c, ~ In (Ok (sha, c)) outs.
Proof.
  induction outs as [|r outs IH]; cbn [lastFulfilled In].
  - split; [intros _ c []|reflexivity].
  - destruct (lastFulfilled outs sha) as [c0|] eqn:E.
    + split; [discriminate|]. intros H. exfalso.
      assert (Hn : Some c0 = None); [|discriminate].
      apply IH. intros c Hc. apply (H c). right. exact Hc.
    + destruct r as [[sha' c']|err].
      * destruct (String.eqb_spec sha' sha) as [->|Hne].
        -- split; [discriminate|]. intros H. destruct (H c'). left. reflexivity.
        -- split; [|reflexivity]. intros _ c [Hc|Hc]; [congruence|].
           exact (proj1 IH eq_refl c Hc).
      * split; [|reflexivity]. intros _ c [Hc|Hc]; [discriminate|].
        exact (proj1 IH eq_refl c Hc).
Qed.

Lemma lastFulfilled_Some (outs : list (result (string * string))) (sha c : string) :
  lastFulfilled outs sha = Some c <->
  exists before after,
    outs = before ++ Ok (sha, c) :: after /\ forall c', ~ In (Ok (sha, c')) after.
Proof.
  split.
  - revert c. induction outs as [|r outs IH]; intros c H; cbn [lastFulfilled] in H;
      [discriminate|].
    destruct (lastFulfilled outs sha) as [c0|] eqn:E.
    + injection H as <-. destruct (IH _ eq_refl) as (b & a & -> & Hno).
      exists (r :: b), a. split; [reflexivity|exact Hno].
    + destruct r as [[sha' c']|err]; [|discriminate].
      destruct (String.eqb_spec sha' sha) as [->|Hne]; [|discriminate].
      injection H as <-. exists [], outs. split; [reflexivity|].
      apply lastFulfilled_None. exact E.
  - intros (before & after & -> & Hno).
    induction before as [|r before IH]; cbn [app lastFulfilled].
    + rewrite (proj2 (lastFulfilled_None after sha) Hno), String.eqb_refl. reflexivity.
    + rewrite IH. reflexivity.
Qed.

Lemma lastFulfilled_In (outs : list (result (string * string))) (sha c : string) :
  lastFulfilled outs sha = Some c -> In (Ok (sha, c)) outs.
Proof.
  intros H. apply lastFulfilled_Some in H. destruct H as (b & a & -> & _).
  apply in_elt.
Qed.

Lemma lastFulfilled_at (outs : list (result (string * string))) (sha c : string) (k : nat) :
  outs !! k = Some (Ok (sha, c)) ->
  (forall j c', (k < j)%nat -> outs !! j <> Some (Ok (sha, c'))) ->
  lastFulfilled outs sha = Some c.
Proof.
  intros Hk Hlater. apply lastFulfilled_Some.
  exists (take k outs), (drop (S k) outs). split.
  - symmetry. apply take_drop_middle. exact Hk.
  - intros c' Hin. apply list_elem_of_In, list_elem_of_lookup in Hin.
    destruct Hin as (j & Hj). rewrite lookup_drop in Hj.
    apply (Hlater (S k + j)%nat c'); [lia|exact Hj].
Qed.

(** An entry after the merge, with the content that is attached. *)
Lemma merged_content (outs : list (result (string * string)))
    (entries : list FileEntry.t) (i : nat) (e : FileEntry.t) :
  entries !! i = Some e ->
  map (mergeContent (collect outs ∅)) entries !! i
  = Some (if bool_decide (FileEntry.type e = file)
          then match lastFulfilled outs (FileEntry.sha e) with
               | Some c => FileEntry.with_content e (Some c)
               | None => e
               end
          else e).
Proof.
  intros Hi. rewrite list_lookup_fmap, Hi. cbn [fmap option_fmap option_map]. f_equal.
  unfold mergeContent. rewrite collect_lastFulfilled, lookup_empty.
  destruct (bool_decide (FileEntry.type e = file)); cbn [andb]; [|reflexivity].
  destruct (lastFulfilled outs (FileEntry.sha e)) as [c|].
  - rewrite bool_decide_eq_true_2 by eauto. reflexivity.
  - rewrite bool_decide_eq_false_2 by (intros [x Hx]; discriminate). reflexivity.
Qed.

(** A fulfilled fetch is the fetch for the entry at its place. *)
Lemma settled_sha (files : list FileEntry.t) (s sA : Sys)
    (outs : list (result (string * string))) (j : nat) (sha c : string) :
  allSettled client repo files s = Done outs sA ->
  outs !! j = Some (Ok (sha, c)) ->
  exists e, files !! j = Some e /\ FileEntry.sha e = sha.
Proof.
  intros Hall Hj.
  assert (Hjlt : (j < length files)%nat).
  { apply lookup_lt_Some in Hj.
    rewrite (allSettled_outcomes _ _ _ _ Hall), outcomes_length in Hj. exact Hj. }
  apply lookup_lt_is_Some in Hjlt. destruct Hjlt as (e & He).
  exists e. split; [exact He|].
  pose proof (outcomes_lookup client repo _ (net s) j e He) as Hcase.
  rewrite <- (allSettled_outcomes _ _ _ _ Hall), Hj in Hcase.
  destruct Hcase as [(err & Herr)|(c' & Hc')]; [discriminate|].
  injection Hc' as Hsha _. congruence.
Qed.

(** C5, as the code has it. The contents are merged by object id: the
    returned list has the length and order of the input; a file entry whose
    object id was fetched successfully - for whichever selected entry - has
    content attached, and the content is the one of the last fulfilled fetch
    for this object id; every other entry is returned as it was. In
    particular each selected entry whose own fetch succeeded has content, and
    it is the content of its own fetch when no later fetch for the object id
    was fulfilled. *)
Theorem fetchContent_merge (fuel : nat) (entries : list FileEntry.t)
    (options : FetchContentOptions.t) (s sA : Sys)
    (outs : list (result (string * string))) :
  (1 <= concurrencyOf options)%nat ->
  (length (filesToFetch options entries) <= fuel)%nat ->
  allSettled client repo (filesToFetch options entries) s = Done outs sA ->
  exists out s',
    fetchContent fuel client repo entries options s = Done out s' /\
    length out = length entries /\
    (forall sha c,
       lastFulfilled outs sha = Some c <->
       exists before after,
         outs = before ++ Ok (sha, c) :: after /\ forall c', ~ In (Ok (sha, c')) after) /\
    forall i e, entries !! i = Some e ->
      (FileEntry.type e = file -> (exists c, In (Ok (FileEntry.sha e, c)) outs) ->
         exists c, lastFulfilled outs (FileEntry.sha e) = Some c /\
                   out !! i = Some (FileEntry.with_content e (Some c)) /\
                   FileEntry.content <$> (out !! i) = Some (Some c)) /\
      (FileEntry.type e <> file \/ (forall c, ~ In (Ok (FileEntry.sha e, c)) outs) ->
         out !! i = Some e) /\
      (forall k c, filesToFetch options entries !! k = Some e ->
         outs !! k = Some (Ok (FileEntry.sha e, c)) ->
         exists c', lastFulfilled outs (FileEntry.sha e) = Some c' /\
                    out !! i = Some (FileEntry.with_content e (Some c')) /\
                    FileEntry.content <$> (out !! i) = Some (Some c') /\
                    ((forall j c'', (k < j)%nat ->
                        outs !! j <> Some (Ok (FileEntry.sha e, c''))) -> c' = c)).
Proof.
  intros HN Hfuel Hall.
  destruct (fetchContent_result fuel entries options s sA outs HN Hfuel Hall) as (s' & H).
  eexists _, s'. split; [exact H|]. split; [apply length_map|].
  split; [intros sha c; apply lastFulfilled_Some|].
  intros i e Hi.
  pose proof (merged_content outs entries i e Hi) as Hm.
  destruct (merged_lookup outs entries i e Hi) as (_ & Hmiss).
  assert (Hhit : FileEntry.type e = file ->
                 (exists c, In (Ok (FileEntry.sha e, c)) outs) ->
                 exists c, lastFulfilled outs (FileEntry.sha e) = Some c /\
                   map (mergeContent (collect outs ∅)) entries !! i
                   = Some (FileEntry.with_content e (Some c)) /\
                   FileEntry.content <$> (map (mergeContent (collect outs ∅)) entries !! i)
                   = Some (Some c)).
  { intros Ht (c0 & Hc0).
    destruct (lastFulfilled outs (FileEntry.sha e)) as [c|] eqn:E.
    - exists c. rewrite Hm, bool_decide_eq_true_2 by exact Ht. auto.
    - destruct (proj1 (lastFulfilled_None outs (FileEntry.sha e)) E c0 Hc0). }
  split; [exact Hhit|]. split; [exact Hmiss|].
  intros k c Hk Hok.
  destruct Hhit as (c' & Hc' & Hout & Hcontent).
  - apply list_elem_of_lookup_2, list_elem_of_filter in Hk.
    destruct Hk as [Hk _]. eapply needsContent_file; eassumption.
  - exists c. apply list_elem_of_In. eapply list_elem_of_lookup_2; eassumption.
  - exists c'. split; [exact Hc'|]. split; [exact Hout|]. split; [exact Hcontent|].
    intros Hlater. rewrite (lastFulfilled_at outs _ c k Hok Hlater) in Hc'. congruence.
Qed.

Lemma progressOf_app (t1 t2 : list Event) :
  progressOf (t1 ++ t2) = progressOf t1 ++ progressOf t2.
Proof. unfold progressOf. apply omap_app. Qed.

Lemma progressOf_requests (l : list FileEntry.t) :
  progressOf (map (fun e => EvRequest (blobRequest client repo (FileEntry.sha e))) l) = [].
Proof. induction l; [reflexivity|assumption]. Qed.

Lemma requestsOf_requests (l : list FileEntry.t) :
  requestsOf (map (fun e => EvRequest (blobRequest client repo (FileEntry.sha e))) l)
  = map (fun e => GetBlob repo (FileEntry.sha e)) l.
Proof. induction l as [|e l IH]; [reflexivity|]. cbn. f_equal. exact IH. Qed.

Lemma progressOf_reports (b : bool) (total completed n : nat) :
  progressOf (reports b total completed n)
  = if b then map (fun k => (k, total)) (seq (S completed) n) else [].
Proof.
  unfold reports. destruct b; [|reflexivity].
  generalize (S completed). induction n as [|n IH]; intros c; [reflexivity|].
  cbn. f_equal. apply IH.
Qed.

Lemma requestsOf_reports (b : bool) (total completed n : nat) :
  requestsOf (reports b total completed n) = [].
Proof.
  unfold reports. destruct b; [|reflexivity].
  generalize (S completed). induction n as [|n IH]; intros c; [reflexivity|].
  cbn. apply IH.
Qed.

Lemma progressOf_groupsTrace (b : bool) (total : nat) (gs : list (list FileEntry.t)) :
  forall completed,
  progressOf (groupsTrace client repo b total gs completed)
  = if b then map (fun k => (k, total)) (seq (S completed) (length (concat gs))) else [].
Proof.
  induction gs as [|g gs IH]; intros completed.
  - destruct b; reflexivity.
  - cbn [groupsTrace concat].
    rewrite !progressOf_app, progressOf_requests, progressOf_reports, IH.
    destruct b; [|reflexivity].
    rewrite length_app, seq_app, map_app. cbn [app]. do 3 f_equal; lia.
Qed.

Lemma requestsOf_groupsTrace (b : bool) (total : nat) (gs : list (list FileEntry.t)) :
  forall completed,
  requestsOf (groupsTrace client repo b total gs completed)
  = map (fun e => GetBlob repo (FileEntry.sha e)) (concat gs).
Proof.
  induction gs as [|g gs IH]; intros completed; [reflexivity|].
  cbn [groupsTrace concat].
  rewrite !requestsOf_app, requestsOf_requests, requestsOf_reports, IH, map_app.
  reflexivity.
Qed.

(** C6. With [M] files to fetch and an observer, the observer is called [M]
    times, with [(1, M)], [(2, M)], ..., [(M, M)] in this order; without the
    observer the same list is returned, after the same requests. *)
Theorem fetchContent_progress (fuel : nat) (entries : list FileEntry.t)
    (options : FetchContentOptions.t) (f : nat -> nat -> Obs -> Obs) (s : Sys) :
  (1 <= concurrencyOf options)%nat ->
  (length (filesToFetch options entries) <= fuel)%nat ->
  exists out s' s'',
    fetchContent fuel client repo entries (withObserver options (Some f)) s = Done out s' /\
    progressOf (trace s') =
      progressOf (trace s) ++
      map (fun k => (k, length (filesToFetch options entries)))
        (seq 1 (length (filesToFetch options entries))) /\
    obs s' = fold_left (fun o k => f k (length (filesToFetch options entries)) o)
               (seq 1 (length (filesToFetch options entries))) (obs s) /\
    fetchContent fuel client repo entries (withObserver options None) s = Done out s'' /\
    progressOf (trace s'') = progressOf (trace s) /\
    obs s'' = obs s /\
    net s'' = net s' /\
    requestsOf (trace s'') = requestsOf (trace s').
Proof.
  intros HN Hfuel.
  destruct (fetchContent_spec client repo fuel entries (withObserver options (Some f)) s HN Hfuel)
    as (s' & H' & Hn' & Ho' & Ht').
  destruct (fetchContent_spec client repo fuel entries (withObserver options None) s HN Hfuel)
    as (s'' & H'' & Hn'' & Ho'' & Ht'').
  change (filesToFetch (withObserver options (Some f)) entries)
    with (filesToFetch options entries) in *.
  change (filesToFetch (withObserver options None) entries)
    with (filesToFetch options entries) in *.
  cbn [withObserver FetchContentOptions.onProgress observed observe] in *.
  eexists _, s', s''.
  split; [exact H'|].
  split. { rewrite Ht', progressOf_app, progressOf_groupsTrace, groups_concat by assumption.
           reflexivity. }
  split; [exact Ho'|].
  split; [exact H''|].
  split. { rewrite Ht'', progressOf_app, progressOf_groupsTrace, app_nil_r. reflexivity. }
  split; [exact Ho''|].
  split; [congruence|].
  rewrite Ht', Ht'', !requestsOf_app, !requestsOf_groupsTrace. reflexivity.
Qed.

(** C4. The fetches for the object id [X] fail and all others succeed. Then
    [fetchContent] returns a list of the length of the input; each selected
    entry with another object id has content - the content of the last
    fulfilled fetch for its object id, which is its own fetch when no later
    selected entry has the same object id - and each selected entry with
    object id [X] is returned as it was. *)
Theorem fetchContent_partial_failure (fuel : nat) (entries : list FileEntry.t)
    (options : FetchContentOptions.t) (s sA : Sys)
    (outs : list (result (string * string))) (X : string) :
  (1 <= concurrencyOf options)%nat ->
  (length (filesToFetch options entries) <= fuel)%nat ->
  allSettled client repo (filesToFetch options entries) s = Done outs sA ->
  (forall k e, filesToFetch options entries !! k = Some e -> FileEntry.sha e = X ->
     exists err, outs !! k = Some (Throw err)) ->
  (forall k e, filesToFetch options entries !! k = Some e -> FileEntry.sha e <> X ->
     exists c, outs !! k = Some (Ok (FileEntry.sha e, c))) ->
  exists out s',
    fetchContent fuel client repo entries options s = Done out s' /\
    length out = length entries /\
    forall i e, entries !! i = Some e ->
      needsContent (default DEFAULT_MAX_FILE_SIZE (FetchContentOptions.maxFileSize options))
        (FetchContentOptions.filterShas options) e = true ->
      (FileEntry.sha e <> X ->
         exists c,
           lastFulfilled outs (FileEntry.sha e) = Some c /\
           In (Ok (FileEntry.sha e, c)) outs /\
           out !! i = Some (FileEntry.with_content e (Some c)) /\
           FileEntry.content <$> (out !! i) = Some (Some c) /\
           (forall k, filesToFetch options entries !! k = Some e ->
              (forall j e', (k < j)%nat -> filesToFetch options entries !! j = Some e' ->
                 FileEntry.sha e' <> FileEntry.sha e) ->
              outs !! k = Some (Ok (FileEntry.sha e, c)))) /\
      (FileEntry.sha e = X -> out !! i = Some e /\ lastFulfilled outs X = None).
Proof.
  intros HN Hfuel Hall HX Hother.
  destruct (fetchContent_result fuel entries options s sA outs HN Hfuel Hall) as (s' & H).
  eexists _, s'. split; [exact H|]. split; [apply length_map|].
  intros i e Hi Hneed.
  pose proof (merged_content outs entries i e Hi) as Hm.
  rewrite (bool_decide_eq_true_2 _ (needsContent_file _ _ _ Hneed)) in Hm.
  assert (Hin : e ∈ filesToFetch options entries).
  { apply list_elem_of_filter. split; [assumption|].
    eapply list_elem_of_lookup_2; eassumption. }
  apply list_elem_of_lookup in Hin. destruct Hin as (k0 & Hk0).
  split.
  - intros Hne. destruct (Hother k0 e Hk0 Hne) as (c0 & Hc0).
    destruct (lastFulfilled outs (FileEntry.sha e)) as [c|] eqn:E.
    2: { destruct (proj1 (lastFulfilled_None outs (FileEntry.sha e)) E c0).
         apply list_elem_of_In. eapply list_elem_of_lookup_2; eassumption. }
    exists c. split; [reflexivity|]. split; [apply lastFulfilled_In; exact E|].
    split; [exact Hm|]. split; [rewrite Hm; reflexivity|].
    intros k Hk Hlast. destruct (Hother k e Hk Hne) as (c1 & Hc1).
    rewrite Hc1. do 3 f_equal.
    assert (E1 : lastFulfilled outs (FileEntry.sha e) = Some c1).
    { apply (lastFulfilled_at outs _ c1 k Hc1). intros j c' Hlt Hj.
      destruct (settled_sha _ _ _ _ _ _ _ Hall Hj) as (e' & He' & Hsha).
      exact (Hlast j e' Hlt He' Hsha). }
    congruence.
  - intros Heq.
    assert (E : lastFulfilled outs (FileEntry.sha e) = None).
    { apply lastFulfilled_None. intros c Hc.
      apply list_elem_of_In, list_elem_of_lookup in Hc. destruct Hc as (j & Hj).
      destruct (settled_sha _ _ _ _ _ _ _ Hall Hj) as (e' & He' & Hsha).
      destruct (HX j e' He') as (err & Herr); [congruence|].
      rewrite Hj in Herr. discriminate. }
    rewrite E in Hm. split; [exact Hm|]. rewrite <- Heq. exact E.
Qed.

End FetcherClaims.

(** *** The fetcher on the entries of the examples *)

(** C3 with a bound of two and an observer: the three files to fetch make
    the groups of two and of one, and the reports of the first group come
    before the request of the second. *)
Lemma fetchContent_groups_witness :
  let options := Double.twoAtATime (Some Double.recorder) in
  let s := Double.start (Double.demoServer Double.neverFails) in
  let rq := fun sha => EvRequest (blobRequest Double.anonymous "octo/demo" sha) in
  (1 <= concurrencyOf options)%nat /\
  (length (filesToFetch options Double.demoEntries) <= 3)%nat /\
  groups (concurrencyOf options) (filesToFetch options Double.demoEntries)
  = [[Double.fileEntry "README.md" "b1" 10 (Some ".md"%string);
      Double.fileEntry "src/a.ts" "b2" 20 (Some ".ts"%string)];
     [Double.fileEntry "src/b.ts" "b3" 30 (Some ".ts"%string)]] /\
  exists out s',
    fetchContent 3 Double.anonymous "octo/demo" Double.demoEntries options s = Done out s' /\
    trace s' = [rq "b1"%string; rq "b2"%string; EvProgress 1 3; EvProgress 2 3;
                rq "b3"%string; EvProgress 3 3].
Proof.
  intros options s rq.
  assert (H1 : (1 <= concurrencyOf options)%nat) by (vm_compute; lia).
  assert (H2 : (length (filesToFetch options Double.demoEntries) <= 3)%nat)
    by (vm_compute; lia).
  split; [exact H1|]. split; [exact H2|]. split; [reflexivity|].
  destruct (@fetchContent_groups Double.runtime Double.anonymous "octo/demo" 3
              Double.demoEntries options s H1 H2) as ((out & s' & Hrun & Htrace) & _).
  exists out, s'. split; [exact Hrun|exact Htrace].
Defined.

(** C4 with the object id ["b2"] failing. *)
Lemma fetchContent_partial_failure_witness :
  let options := Double.twoAtATime None in
  let s := Double.start (Double.demoServer (Double.failsFor "b2")) in
  let outs := [Ok ("b1", "content of b1"); Throw (FailedToGetBlob 500 "Internal Server Error");
               Ok ("b3", "content of b3")]%string in
  (exists sA,
     allSettled Double.anonymous "octo/demo" (filesToFetch options Double.demoEntries) s
     = Done outs sA) /\
  exists out s',
    fetchContent 3 Double.anonymous "octo/demo" Double.demoEntries options s = Done out s' /\
    length out = 5%nat /\
    out !! 0%nat
    = Some (FileEntry.with_content
              (Double.fileEntry "README.md" "b1" 10 (Some ".md"%string))
              (Some "content of b1"%string)) /\
    FileEntry.content <$> (out !! 0%nat) = Some (Some "content of b1"%string) /\
    out !! 2%nat = Some (Double.fileEntry "src/a.ts" "b2" 20 (Some ".ts"%string)).
Proof.
  intros options s outs.
  assert (H1 : (1 <= concurrencyOf options)%nat) by (vm_compute; lia).
  assert (H2 : (length (filesToFetch options Double.demoEntries) <= 3)%nat)
    by (vm_compute; lia).
  eassert (H3 : allSettled Double.anonymous "octo/demo"
                  (filesToFetch options Double.demoEntries) s = Done outs _)
    by (lazy; reflexivity).
  assert (H4 : forall k e, filesToFetch options Double.demoEntries !! k = Some e ->
                 FileEntry.sha e = "b2"%string -> exists err, outs !! k = Some (Throw err)).
  { intros [|[|[|k]]] e He Hs; vm_compute in He; try discriminate;
      injection He as <-; try discriminate Hs. eexists. reflexivity. }
  assert (H5 : forall k e, filesToFetch options Double.demoEntries !! k = Some e ->
                 FileEntry.sha e <> "b2"%string ->
                 exists c, outs !! k = Some (Ok (FileEntry.sha e, c))).
  { intros [|[|[|k]]] e He Hs; vm_compute in He; try discriminate;
      injection He as <-; try (exfalso; apply Hs; reflexivity); eexists; reflexivity. }
  split; [eexists; exact H3|].
  destruct (@fetchContent_partial_failure Double.runtime Double.anonymous "octo/demo" 3
              Double.demoEntries options s _ outs "b2"%string H1 H2 H3 H4 H5)
    as (out & s' & Hrun & Hlen & Hout).
  exists out, s'. split; [exact Hrun|]. split; [exact Hlen|].
  destruct (proj1 (Hout 0%nat _ eq_refl eq_refl)) as (c & Hc & _ & Hat & Hcontent & _);
    [discriminate|].
  injection Hc as <-.
  split; [exact Hat|]. split; [exact Hcontent|].
  apply (proj2 (Hout 2%nat _ eq_refl eq_refl)). reflexivity.
Defined.

(** C5 as the code has it, on two files of the same content of which the
    second fetch fails: both come back with content. *)
Lemma fetchContent_merge_witness :
  let options := Double.twoAtATime None in
  let s := Double.start (Double.demoServer (Double.failsFrom 1)) in
  let outs := [Ok ("e69", "content of e69");
               Throw (FailedToGetBlob 500 "Internal Server Error")]%string in
  let second := Double.fileEntry "b/__init__.py" "e69" 5 (Some ".py"%string) in
  (1 <= concurrencyOf options)%nat /\
  (length (filesToFetch options Double.twins) <= 2)%nat /\
  (exists sA,
     allSettled Double.anonymous "octo/demo" (filesToFetch options Double.twins) s
     = Done outs sA) /\
  exists out s',
    fetchContent 2 Double.anonymous "octo/demo" Double.twins options s = Done out s' /\
    length out = 2%nat /\
    out !! 1%nat = Some (FileEntry.with_content second (Some "content of e69"%string)) /\
    FileEntry.content <$> (out !! 1%nat) = Some (Some "content of e69"%string).
Proof.
  intros options s outs second.
  assert (H1 : (1 <= concurrencyOf options)%nat) by (vm_compute; lia).
  assert (H2 : (length (filesToFetch options Double.twins) <= 2)%nat) by (vm_compute; lia).
  eassert (H3 : allSettled Double.anonymous "octo/demo"
                  (filesToFetch options Double.twins) s = Done outs _)
    by (lazy; reflexivity).
  split; [exact H1|]. split; [exact H2|]. split; [eexists; exact H3|].
  destruct (@fetchContent_merge Double.runtime Double.anonymous "octo/demo" 2
              Double.twins options s _ outs H1 H2 H3)
    as (out & s' & Hrun & Hlen & _ & Hout).
  exists out, s'. split; [exact Hrun|]. split; [exact Hlen|].
  destruct (proj1 (Hout 1%nat second eq_refl) eq_refl) as (c & Hc & Hat & Hcontent).
  { eexists. left. reflexivity. }
  injection Hc as <-. split; [exact Hat|exact Hcontent].
Defined.

(** C5 as stated fails on the same input: the fetch for the second file
    failed, the claim has it returned unchanged, and it is returned with the
    content fetched for the first. *)
Lemma fetchContent_failed_entry_gets_content :
  let options := Double.twoAtATime None in
  let s := Double.start (Double.demoServer (Double.failsFrom 1)) in
  let second := Double.fileEntry "b/__init__.py" "e69" 5 (Some ".py"%string) in
  exists sA out s',
    Double.twins !! 1%nat = Some second /\
    filesToFetch options Double.twins !! 1%nat = Some second /\
    allSettled Double.anonymous "octo/demo" (filesToFetch options Double.twins) s
    = Done [Ok ("e69", "content of e69");
            Throw (FailedToGetBlob 500 "Internal Server Error")]%string sA /\
    fetchContent 2 Double.anonymous "octo/demo" Double.twins options s = Done out s' /\
    out !! 1%nat = Some (FileEntry.with_content second (Some "content of e69"%string)) /\
    out !! 1%nat <> Some second.
Proof.
  intros options s second.
  do 3 eexists.
  split; [reflexivity|]. split; [reflexivity|].
  split; [lazy; reflexivity|].
  split; [vm_compute; reflexivity|].
  split; [reflexivity|discriminate].
Qed.

(** The same for an entry that was not selected: an entry beyond the size
    bound that shares its object id with a fetched one receives the content. *)
Example fetchContent_unselected_entry_gets_content :
  let options := Double.twoAtATime None in
  let s := Double.start (Double.demoServer Double.neverFails) in
  let huge := Double.fileEntry "huge.txt" "s1" 2000000 (Some ".txt"%string) in
  exists out s',
    needsContent DEFAULT_MAX_FILE_SIZE None huge = false /\
    fetchContent 1 Double.anonymous "octo/demo" Double.mismatched options s = Done out s' /\
    out !! 1%nat = Some (FileEntry.with_content huge (Some "content of s1"%string)).
Proof.
  intros options s huge. do 2 eexists.
  split; [reflexivity|]. split; [vm_compute; reflexivity|reflexivity].
Qed.

(** C6 with the recording observer. *)
Lemma fetchContent_progress_witness :
  let options := Double.twoAtATime None in
  let s := Double.start (Double.demoServer Double.neverFails) in
  (1 <= concurrencyOf options)%nat /\
  (length (filesToFetch options Double.demoEntries) <= 3)%nat /\
  exists out s' s'',
    fetchContent 3 Double.anonymous "octo/demo" Double.demoEntries
      (withObserver options (Some Double.recorder)) s = Done out s' /\
    obs s' = [(1, 3); (2, 3); (3, 3)]%nat /\
    fetchContent 3 Double.anonymous "octo/demo" Double.demoEntries
      (withObserver options None) s = Done out s''.
Proof.
  intros options s.
  assert (H1 : (1 <= concurrencyOf options)%nat) by (vm_compute; lia).
  assert (H2 : (length (filesToFetch options Double.demoEntries) <= 3)%nat)
    by (vm_compute; lia).
  split; [exact H1|]. split; [exact H2|].
  destruct (@fetchContent_progress Double.runtime Double.anonymous "octo/demo" 3
              Double.demoEntries options Double.recorder s H1 H2)
    as (out & s' & s'' & Hrun & _ & Hobs & Hrun' & _).
  exists out, s', s''. split; [exact Hrun|]. split; [exact Hobs|exact Hrun'].
Defined.

(** ** Result Assembler *)

Section SortFacts.
Context {A : Type}.

Lemma sortInsert_In (cmp : A -> A -> Z) (x y : A) (l : list A) :
  In y (sortInsert cmp x l) <-> y = x \/ In y l.
Proof.
  induction l as [|z l IH]; cbn [sortInsert].
  - cbn. intuition.
  - destruct (cmp x z <=? 0); cbn [In]; [intuition|].
    rewrite IH. intuition.
Qed.

Lemma arraySort_In (cmp : A -> A -> Z) (y : A) (l : list A) :
  In y (arraySort cmp l) <-> In y l.
Proof.
  induction l as [|x l IH]; cbn [arraySort]; [reflexivity|].
  rewrite sortInsert_In, IH. cbn. intuition.
Qed.

End SortFacts.

Section Assembler.
Context `{RT : Runtime}.

(** C2. The claim is that the result of [repofetch] carries the client's
    rate-limit snapshot and authentication flag. The object that [repofetch]
    returns has the fields [repo], [branch], [truncated] and [files] only:
    whenever it returns, [rateLimit] and [isAuthenticated] are undefined. *)
Theorem repofetch_without_rate_limit (fuel : nat) (repo : string)
    (options : RepoFetchOptions.t) (s s' : Sys) (r : RepoFetchResult.t) :
  repofetch fuel repo options s = Done r s' ->
  RepoFetchResult.rateLimit r = None /\ RepoFetchResult.isAuthenticated r = None.
Proof.
  unfold repofetch, bind. unfold newGitHubClient at 1.
  destruct (getTree _ repo _ _) as [[t b] s1|e s1|]; try discriminate.
  destruct (lift _ s1) as [entries s2|e s2|]; try discriminate.
  destruct (_ || _).
  - destruct (fetchContent _ _ _ _ _ s2) as [out s3|e s3|]; try discriminate.
    unfold ret. intros H. inversion H. split; reflexivity.
  - unfold ret. intros H. inversion H. split; reflexivity.
Qed.

(** C10. Without [content] and without object ids to fetch, [repofetch]
    filters with no size bound and fetches nothing: the files of the result
    are the sorted output of [filterTree] under the caller's filters with
    [maxFileSize] undefined, and a blob that passes the kind, include,
    exclude and extension tests is among them whatever its size. *)
Theorem repofetch_no_size_filter (fuel : nat) (repo : string)
    (options : RepoFetchOptions.t) (s s' : Sys) (r : RepoFetchResult.t) :
  default false (RepoFetchOptions.content options) = false ->
  nonEmpty (RepoFetchOptions.shas options) = false ->
  repofetch fuel repo options s = Done r s' ->
  exists client s0 t entries,
    newGitHubClient (RepoFetchOptions.token options) s = Done client s0 /\
    getTree client repo (default "main"%string (RepoFetchOptions.branch options)) s0
    = Done (t, RepoFetchResult.branch r) s' /\
    filterTree (TreeResponse.tree t) (filterOptionsOf options None) = Ok entries /\
    RepoFetchResult.files r = sortEntries entries /\
    forall item, In item (TreeResponse.tree t) ->
      kindDrops (filterOptionsOf options None) item = false ->
      includeCheck (filterOptionsOf options None) item = Ok true ->
      excludeCheck (filterOptionsOf options None) item = Ok false ->
      extensionDrops (filterOptionsOf options None) item = false ->
      In (entryOf item) (RepoFetchResult.files r).
Proof.
  intros Hcontent Hshas Hrun.
  unfold repofetch, bind in Hrun. unfold newGitHubClient at 1 in Hrun.
  rewrite Hcontent, Hshas in Hrun. cbn [orb] in Hrun.
  change {| FilterOptions.extensions := RepoFetchOptions.extensions options;
            FilterOptions.exclude := RepoFetchOptions.exclude options;
            FilterOptions.include := RepoFetchOptions.include options;
            FilterOptions.type := RepoFetchOptions.type options;
            FilterOptions.maxFileSize := None |}
    with (filterOptionsOf options None) in Hrun.
  match type of Hrun with
  | context [getTree ?c repo ?b ?s0] =>
      exists c, s0; destruct (getTree c repo b s0) as [[t b'] s1|e s1|] eqn:Htree;
        [|discriminate Hrun..]
  end.
  destruct (filterTree (TreeResponse.tree t) (filterOptionsOf options None))
    as [entries|e] eqn:Hfilter; cbn [lift] in Hrun; unfold ret, throw in Hrun;
    [|discriminate Hrun].
  inversion Hrun; subst. cbn [RepoFetchResult.branch RepoFetchResult.files].
  exists t, entries.
  split; [reflexivity|]. split; [reflexivity|]. split; [exact Hfilter|]. split; [reflexivity|].
  intros item Hin Hkind Hinc Hexc Hext.
  apply arraySort_In.
  destruct (filterTree_order _ _ _ item Hfilter Hin) as (r0 & _ & Hr0 & _ & _ & _ & Hlast).
  apply Hr0. rewrite (Hlast Hkind Hinc Hexc), Hext.
  unfold sizeDrops. cbn [filterOptionsOf FilterOptions.maxFileSize truthy].
  rewrite andb_false_r. reflexivity.
Qed.

End Assembler.

(** C2 on the repository of the examples, with a token: the client holds the
    snapshot of the last response and is authenticated, and the result has
    neither. *)
Lemma repofetch_without_rate_limit_witness :
  let options := Double.plainOptions (Some "ghp_token"%string) None in
  let s := Double.start (Double.demoServer Double.neverFails) in
  exists client s0 r s',
    newGitHubClient (RepoFetchOptions.token options) s = Done client s0 /\
    repofetch 0 "octo/demo" options s = Done r s' /\
    isAuthenticated client = true /\
    _rateLimit s' = Some {| RateLimitInfo.limit := Some 60;
                            RateLimitInfo.remaining := Some 56;
                            RateLimitInfo.used := Some 4;
                            RateLimitInfo.reset := Some 1700000000000 |} /\
    RepoFetchResult.rateLimit r = None /\
    RepoFetchResult.isAuthenticated r = None.
Proof.
  intros options s.
  eassert (Hc : newGitHubClient (RepoFetchOptions.token options) s = Done _ _)
    by (lazy; reflexivity).
  eassert (Hr : repofetch 0 "octo/demo" options s = Done _ _) by (vm_compute; reflexivity).
  do 4 eexists.
  split; [exact Hc|]. split; [exact Hr|]. split; [reflexivity|]. split; [reflexivity|].
  exact (@repofetch_without_rate_limit Double.runtime _ _ _ _ _ _ Hr).
Defined.

(** C10 on the repository of the examples: ["src/big.bin"] has 2000000 bytes,
    more than the default bound of 1048576, and is in the result. *)
Lemma repofetch_no_size_filter_witness :
  let options := Double.plainOptions None None in
  let s := Double.start (Double.demoServer Double.neverFails) in
  let big := Double.blobItem "src/big.bin" "b4" 2000000 in
  exists r s',
    repofetch 0 "octo/demo" options s = Done r s' /\
    In (entryOf big) (RepoFetchResult.files r).
Proof.
  intros options s big.
  eassert (Hr : repofetch 0 "octo/demo" options s = Done _ _) by (vm_compute; reflexivity).
  do 2 eexists. split; [exact Hr|].
  destruct (@repofetch_no_size_filter Double.runtime 0 "octo/demo" options s _ _
              eq_refl eq_refl Hr) as (client & s0 & t & entries & Hc & Ht & _ & _ & Hin).
  assert (Et : t = Double.demoTree).
  { vm_compute in Hc. injection Hc as <- <-. vm_compute in Ht. injection Ht as <-.
    reflexivity. }
  subst t.
  apply Hin; [|reflexivity..].
  right. right. right. right. left. reflexivity.
Defined.

(** With [content] the bound is passed on and the same file is dropped. *)
Example repofetch_content_drops_large :
  exists r s',
    @repofetch Double.runtime 3 "octo/demo" (Double.plainOptions None (Some true))
      (Double.start (Double.demoServer Double.neverFails)) = Done r s' /\
    map FileEntry.path (RepoFetchResult.files r)
    = ["src/a.ts"; "src/b.ts"; "README.md"; "src"]%string.
Proof. do 2 eexists. split; vm_compute; reflexivity. Qed.

(** * Further properties *)

(** ** Entry Filter: normalisation, order, kinds, errors *)

Lemma toLowerCase_dot (r : string) :
  JS.toLowerCase (String "." r) = String "." (JS.toLowerCase r).
Proof. reflexivity. Qed.

Lemma startsWith_dot (e : string) :
  JS.startsWith e "." = true -> exists r, e = String "." r.
Proof.
  unfold JS.startsWith. destruct e as [|c r]; [discriminate|].
  cbn [String.prefix]. destruct (ascii_dec "." c) as [<-|]; [eauto|discriminate].
Qed.

Lemma startsWith_dot_cons (r : string) : JS.startsWith (String "." r) "." = true.
Proof.
  unfold JS.startsWith. cbn [String.prefix].
  destruct (ascii_dec "." "."); [|congruence]. destruct r; reflexivity.
Qed.

Lemma normalizeExt_dot (e : string) :
  exists r, normalizeExt e = String "." r /\ JS.toLowerCase r = r.
Proof.
  unfold normalizeExt. destruct (JS.startsWith e ".") eqn:H.
  - destruct (startsWith_dot e H) as (r & ->). rewrite toLowerCase_dot.
    eexists. split; [reflexivity|apply toLowerCase_idem].
  - eexists. split; [reflexivity|apply toLowerCase_idem].
Qed.

Lemma normalizeExt_idem (e : string) : normalizeExt (normalizeExt e) = normalizeExt e.
Proof.
  destruct (normalizeExt_dot e) as (r & -> & Hr).
  unfold normalizeExt. rewrite startsWith_dot_cons, toLowerCase_dot, Hr. reflexivity.
Qed.

Section FilterMore.
Context `{RT : Runtime}.

Lemma arrayIncludes_In (l : list string) (x : string) :
  JS.arrayIncludes l x = true <-> In x l.
Proof.
  unfold JS.arrayIncludes. rewrite existsb_exists. split.
  - intros (y & Hy & E). apply String.eqb_eq in E. congruence.
  - intros H. exists x. split; [assumption|apply String.eqb_refl].
Qed.

Lemma filterTree_ext (items : list TreeItem.t) (o1 o2 : FilterOptions.t) :
  (forall item, In item items -> filterItem o1 item = filterItem o2 item) ->
  filterTree items o1 = filterTree items o2.
Proof.
  induction items as [|item items IH]; intros H; [reflexivity|].
  cbn [filterTree]. rewrite (H item (or_introl eq_refl)), IH; [reflexivity|].
  intros it Hit. apply H. right. assumption.
Qed.

(** X1. Two lists of extensions that normalise to the same set of
    dot-prefixed lower-case extensions filter alike. *)
Theorem filterTree_extensions_normalized (items : list TreeItem.t)
    (options : FilterOptions.t) (exts1 exts2 : list string) :
  exts1 <> [] -> exts2 <> [] ->
  (forall x, In x (map normalizeExt exts1) <-> In x (map normalizeExt exts2)) ->
  filterTree items (withExtensions options (Some exts1))
  = filterTree items (withExtensions options (Some exts2)).
Proof.
  intros H1 H2 Hsame. apply filterTree_ext. intros item _.
  rewrite !filterItem_steps.
  assert (Hd : extensionDrops (withExtensions options (Some exts1)) item
               = extensionDrops (withExtensions options (Some exts2)) item).
  { unfold extensionDrops. cbn [withExtensions FilterOptions.extensions].
    change (default [] (Some exts1)) with exts1.
    change (default [] (Some exts2)) with exts2.
    destruct exts1 as [|a l1]; [congruence|]. destruct exts2 as [|b l2]; [congruence|].
    cbn [nonEmpty]. do 2 f_equal.
    apply eq_true_iff_eq. rewrite !arrayIncludes_In. apply Hsame. }
  unfold kindDrops, includeCheck, excludeCheck, sizeDrops in *.
  cbn [withExtensions FilterOptions.type FilterOptions.include FilterOptions.exclude
       FilterOptions.maxFileSize] in *.
  rewrite Hd. reflexivity.
Qed.

(** X2. The output is, in the order of the items, the entries of some of
    the items: nothing is reordered, repeated or made up, and no entry has
    content. *)
Theorem filterTree_sublist (items : list TreeItem.t) (options : FilterOptions.t)
    (out : list FileEntry.t) :
  filterTree items options = Ok out ->
  sublist out (map entryOf items) /\
  Forall (fun e => FileEntry.content e = None) out.
Proof.
  revert out. induction items as [|item items IH]; intros out H; cbn [filterTree] in H.
  - injection H as <-. split; constructor.
  - destruct (filterItem options item) as [r|] eqn:Hitem; cbn [rbind] in H; [|discriminate].
    destruct (filterTree items options) as [entries|]; cbn [rbind] in H; [|discriminate].
    injection H as <-. destruct (IH _ eq_refl) as [Hs Hc].
    destruct r as [e|]; cbn [map].
    + apply filterItem_Some in Hitem. subst e.
      split; [apply sublist_skip; assumption|constructor; [reflexivity|assumption]].
    + split; [apply sublist_cons; assumption|assumption].
Qed.

(** X3. With the type filter ["file"] every entry of the output is a file,
    with ["dir"] every entry is a directory. *)
Theorem filterTree_kind (items : list TreeItem.t) (options : FilterOptions.t)
    (out : list FileEntry.t) (e : FileEntry.t) :
  filterTree items options = Ok out -> In e out ->
  (FilterOptions.type options = Some type_file -> FileEntry.type e = file) /\
  (FilterOptions.type options = Some type_dir -> FileEntry.type e = directory).
Proof.
  intros Hout He.
  destruct (filterTree_In _ _ _ Hout e He) as (item & _ & Hitem).
  pose proof (filterItem_Some _ _ _ Hitem) as ->.
  rewrite filterItem_steps in Hitem.
  destruct (kindDrops options item) eqn:Hk; [discriminate|].
  unfold kindDrops in Hk. unfold entryOf. cbn [FileEntry.type].
  split; intros Ht; rewrite Ht in Hk; cbn [default from_option id] in Hk.
  - rewrite (bool_decide_eq_true_2 (type_file = type_file)) in Hk by reflexivity.
    cbn [andb] in Hk. apply orb_false_iff in Hk. destruct Hk as [Hk _].
    apply negb_false_iff in Hk. rewrite Hk. reflexivity.
  - rewrite (bool_decide_eq_true_2 (type_dir = type_dir)) in Hk by reflexivity.
    apply orb_false_iff in Hk. destruct Hk as [_ Hk]. cbn [andb] in Hk.
    apply negb_false_iff, bool_decide_eq_true_1 in Hk.
    rewrite bool_decide_eq_false_2 by congruence. reflexivity.
Qed.

(** X4. The extension and size filters are for files: what is decided for a
    directory does not depend on [extensions] or [maxFileSize]. *)
Theorem filterItem_directory (options : FilterOptions.t) (item : TreeItem.t)
    (extensions : option (list string)) (maxFileSize : option Z) :
  TreeItem.type item = tree ->
  filterItem (withMaxFileSize (withExtensions options extensions) maxFileSize) item
  = filterItem options item.
Proof.
  intros Ht. rewrite !filterItem_steps.
  unfold kindDrops, includeCheck, excludeCheck, extensionDrops, sizeDrops.
  cbn [withMaxFileSize withExtensions FilterOptions.type FilterOptions.include
       FilterOptions.exclude FilterOptions.maxFileSize FilterOptions.extensions].
  rewrite Ht. rewrite (bool_decide_eq_false_2 (tree = blob)) by discriminate.
  reflexivity.
Qed.

(** X5. A size bound of zero is no bound, and an item of unknown or zero
    size passes every bound. *)
Theorem filterTree_size_edges (items : list TreeItem.t) (options : FilterOptions.t) :
  truthy (FilterOptions.maxFileSize options) = false \/
  (forall item, In item items -> truthy (TreeItem.size item) = false) ->
  filterTree items options = filterTree items (withMaxFileSize options None).
Proof.
  intros H. apply filterTree_ext. intros item Hin.
  rewrite !filterItem_steps.
  assert (Hs : sizeDrops options item = false).
  { unfold sizeDrops. destruct H as [H|H]; [rewrite H|rewrite (H item Hin)];
      rewrite ?andb_false_r; reflexivity. }
  assert (Hs' : sizeDrops (withMaxFileSize options None) item = false).
  { unfold sizeDrops. cbn. rewrite ?andb_false_r. reflexivity. }
  unfold kindDrops, includeCheck, excludeCheck, extensionDrops in *.
  cbn [withMaxFileSize FilterOptions.type FilterOptions.include
       FilterOptions.exclude FilterOptions.extensions] in *.
  rewrite Hs, Hs'. reflexivity.
Qed.

Lemma rbind_assoc_app (a b : list TreeItem.t) (options : FilterOptions.t) :
  filterTree (a ++ b) options
  = rbind (filterTree a options) (fun oa =>
      rbind (filterTree b options) (fun ob => Ok (oa ++ ob))).
Proof.
  induction a as [|item a IH]; cbn [app filterTree].
  - cbn [rbind]. destruct (filterTree b options); reflexivity.
  - destruct (filterItem options item) as [r|]; cbn [rbind]; [|reflexivity].
    rewrite IH. destruct (filterTree a options) as [oa|]; cbn [rbind]; [|reflexivity].
    destruct (filterTree b options) as [ob|]; cbn [rbind]; [|reflexivity].
    destruct r; reflexivity.
Qed.

(** X6. Items are decided one by one: the output for two lists in a row is
    the output for the first followed by the output for the second. *)
Theorem filterTree_app (a b : list TreeItem.t) (options : FilterOptions.t)
    (oa ob : list FileEntry.t) :
  filterTree a options = Ok oa -> filterTree b options = Ok ob ->
  filterTree (a ++ b) options = Ok (oa ++ ob).
Proof. intros Ha Hb. rewrite rbind_assoc_app, Ha, Hb. reflexivity. Qed.

Lemma matchesPattern_Throw (filePath pattern : string) (e : error) :
  matchesPattern filePath pattern = Throw e ->
  e = InvalidRegExp (patternSource pattern) /\
  JS.includes pattern "*" = true /\ newRegExp (patternSource pattern) = None.
Proof.
  unfold matchesPattern. destruct (JS.includes pattern "*"); [|discriminate].
  destruct (newRegExp (patternSource pattern)); [discriminate|].
  intros H. injection H as <-. auto.
Qed.

Lemma somePattern_Throw (filePath : string) (patterns : list string) (e : error) :
  somePattern filePath patterns = Throw e ->
  exists p, In p patterns /\ matchesPattern filePath p = Throw e.
Proof.
  induction patterns as [|q patterns IH]; [discriminate|].
  cbn [somePattern]. destruct (matchesPattern filePath q) as [[]|e'] eqn:Hq; cbn [rbind].
  - discriminate.
  - intros H. destruct (IH H) as (p & Hp & Hm). exists p. split; [right|]; assumption.
  - intros H. injection H as <-. exists q. split; [left; reflexivity|assumption].
Qed.

Lemma filterItem_Throw (options : FilterOptions.t) (item : TreeItem.t) (e : error) :
  filterItem options item = Throw e ->
  exists p, In p (patternsOf options) /\
            matchesPattern (TreeItem.path item) p = Throw e.
Proof.
  rewrite filterItem_steps. unfold patternsOf.
  destruct (kindDrops options item); [discriminate|].
  unfold includeCheck, excludeCheck.
  destruct (nonEmpty (FilterOptions.include options)).
  - destruct (somePattern _ (default [] (FilterOptions.include options))) as [inc|e'] eqn:Hi;
      cbn [rbind].
    + destruct inc; cbn [negb]; [|discriminate].
      destruct (nonEmpty (FilterOptions.exclude options)); cbn [rbind].
      * destruct (somePattern _ (default [] (FilterOptions.exclude options))) as [exc|e''] eqn:He;
          cbn [rbind].
        -- destruct exc; [discriminate|].
           destruct (extensionDrops options item); [discriminate|].
           destruct (sizeDrops options item); discriminate.
        -- intros H. injection H as <-. destruct (somePattern_Throw _ _ _ He) as (p & Hp & Hm).
           exists p. split; [apply in_or_app; right|]; assumption.
      * destruct (extensionDrops options item); [discriminate|].
        destruct (sizeDrops options item); discriminate.
    + intros H. injection H as <-. destruct (somePattern_Throw _ _ _ Hi) as (p & Hp & Hm).
      exists p. split; [apply in_or_app; left|]; assumption.
  - cbn [rbind negb].
    destruct (nonEmpty (FilterOptions.exclude options)); cbn [rbind].
    + destruct (somePattern _ (default [] (FilterOptions.exclude options))) as [exc|e''] eqn:He;
        cbn [rbind].
      * destruct exc; [discriminate|].
        destruct (extensionDrops options item); [discriminate|].
        destruct (sizeDrops options item); discriminate.
      * intros H. injection H as <-. destruct (somePattern_Throw _ _ _ He) as (p & Hp & Hm).
        exists p. split; [apply in_or_app; right|]; assumption.
    + destruct (extensionDrops options item); [discriminate|].
      destruct (sizeDrops options item); discriminate.
Qed.

(** X7. [filterTree] throws for one reason only: an include or exclude
    pattern with a wildcard whose regular expression does not compile. *)
Theorem filterTree_throws (items : list TreeItem.t) (options : FilterOptions.t)
    (e : error) :
  filterTree items options = Throw e ->
  exists p, In p (patternsOf options) /\
            JS.includes p "*" = true /\
            newRegExp (patternSource p) = None /\
            e = InvalidRegExp (patternSource p).
Proof.
  induction items as [|item items IH]; [discriminate|].
  cbn [filterTree].
  destruct (filterItem options item) as [r|e'] eqn:Hitem; cbn [rbind].
  - destruct (filterTree items options) as [entries|e'']; cbn [rbind]; [discriminate|].
    intros H. injection H as <-. apply IH. reflexivity.
  - intros H. injection H as <-.
    destruct (filterItem_Throw _ _ _ Hitem) as (p & Hp & Hm).
    destruct (matchesPattern_Throw _ _ _ Hm) as (-> & Hstar & Hnew).
    exists p. auto.
Qed.

End FilterMore.

(** ** Entry Sorter: permutation and order *)

Section SortMore.
Context {A : Type}.
Variable cmp : A -> A -> Z.

Lemma sortInsert_Permutation (x : A) (l : list A) : sortInsert cmp x l ≡ₚ x :: l.
Proof.
  induction l as [|y l IH]; cbn [sortInsert]; [reflexivity|].
  destruct (cmp x y <=? 0); [reflexivity|].
  rewrite IH. apply Permutation_swap.
Qed.

Lemma arraySort_Permutation (l : list A) : arraySort cmp l ≡ₚ l.
Proof.
  induction l as [|x l IH]; cbn [arraySort]; [reflexivity|].
  rewrite sortInsert_Permutation, IH. reflexivity.
Qed.

Hypothesis cmp_total : forall x y, 0 < cmp x y -> cmp y x <= 0.

Lemma sortInsert_Sorted (x : A) (l : list A) :
  Sorted (fun a b => cmp a b <= 0) l ->
  Sorted (fun a b => cmp a b <= 0) (sortInsert cmp x l).
Proof.
  induction l as [|y l IH]; intros Hs; cbn [sortInsert].
  - repeat constructor.
  - destruct (Z.leb_spec (cmp x y) 0) as [Hle|Hgt].
    + constructor; [assumption|]. constructor. assumption.
    + apply Sorted_inv in Hs. destruct Hs as [Hs Hhd].
      constructor; [apply IH; assumption|].
      destruct l as [|z l]; cbn [sortInsert].
      * constructor. apply cmp_total. assumption.
      * destruct (cmp x z <=? 0); constructor.
        -- apply cmp_total. assumption.
        -- inversion Hhd. assumption.
Qed.

Lemma arraySort_Sorted (l : list A) :
  Sorted (fun a b => cmp a b <= 0) (arraySort cmp l).
Proof.
  induction l as [|x l IH]; cbn [arraySort]; [constructor|].
  apply sortInsert_Sorted. assumption.
Qed.

End SortMore.

Section SorterMore.
Context `{RT : Runtime}.

(** X8. Sorting loses and repeats nothing: the output is a permutation of
    the input. *)
Theorem sortEntries_Permutation (entries : list FileEntry.t) :
  sortEntries entries ≡ₚ entries.
Proof. apply arraySort_Permutation. Qed.

Hypothesis localeCompare_antisym :
  forall s t, Z.sgn (localeCompare t s) = - Z.sgn (localeCompare s t).

Lemma compareParts_antisym (aParts bParts : list string) (n i : nat) :
  Z.sgn (compareParts bParts aParts i n) = - Z.sgn (compareParts aParts bParts i n).
Proof.
  revert i. induction n as [|n IH]; intros i; cbn [compareParts].
  - lia.
  - destruct (Nat.eqb i (length aParts - 1)), (Nat.eqb i (length bParts - 1));
      cbn [negb andb]; try reflexivity.
    + pose proof (localeCompare_antisym (nth i aParts EmptyString) (nth i bParts EmptyString)) as H.
      destruct (Z.eqb_spec (localeCompare (nth i aParts EmptyString) (nth i bParts EmptyString)) 0)
        as [E|E];
      destruct (Z.eqb_spec (localeCompare (nth i bParts EmptyString) (nth i aParts EmptyString)) 0)
        as [E'|E']; cbn [negb]; try lia.
      apply IH.
    + pose proof (localeCompare_antisym (nth i aParts EmptyString) (nth i bParts EmptyString)) as H.
      destruct (Z.eqb_spec (localeCompare (nth i aParts EmptyString) (nth i bParts EmptyString)) 0)
        as [E|E];
      destruct (Z.eqb_spec (localeCompare (nth i bParts EmptyString) (nth i aParts EmptyString)) 0)
        as [E'|E']; cbn [negb]; try lia.
      apply IH.
Qed.

Lemma compareEntries_antisym (a b : FileEntry.t) :
  Z.sgn (compareEntries b a) = - Z.sgn (compareEntries a b).
Proof.
  unfold compareEntries. rewrite (Nat.min_comm (length (JS.split "/" (FileEntry.path b)))).
  apply compareParts_antisym.
Qed.

(** X9. When [localeCompare] is antisymmetric in sign, the output is in
    the order of the comparator: no entry is followed by one that the
    comparator puts before it. *)
Theorem sortEntries_Sorted (entries : list FileEntry.t) :
  Sorted (fun a b => compareEntries a b <= 0) (sortEntries entries).
Proof.
  apply arraySort_Sorted. intros x y H.
  pose proof (compareEntries_antisym x y). lia.
Qed.

End SorterMore.

Lemma codeUnitCompare_antisym (s t : string) :
  Z.sgn (Double.codeUnitCompare t s) = - Z.sgn (Double.codeUnitCompare s t).
Proof.
  unfold Double.codeUnitCompare. rewrite (String.compare_antisym s t).
  destruct (String.compare t s); reflexivity.
Qed.

(** ** Remote Tree Client: requests, headers, snapshot *)

Section ClientMore.
Context `{RT : Runtime}.
Variable client : GitHubClient.t.

Lemma advances_refl (s : Sys) : advances client s s.
Proof. split; [auto|]. exists []. rewrite app_nil_r. split; [reflexivity|constructor]. Qed.

Lemma advances_trans (s1 s2 s3 : Sys) :
  advances client s1 s2 -> advances client s2 s3 -> advances client s1 s3.
Proof.
  intros [H1 (e1 & T1 & F1)] [H2 (e2 & T2 & F2)]. split; [auto|].
  exists (e1 ++ e2). rewrite T2, T1, app_assoc. split; [reflexivity|].
  apply Forall_app; auto.
Qed.

Lemma wellBehaved_ret {A} (a : A) : wellBehaved client (ret a).
Proof. intros s s' H. injection H as <-. apply advances_refl. Qed.

Lemma wellBehaved_throw {A} (e : error) : wellBehaved client (@throw _ A e).
Proof. intros s s' H. injection H as <-. apply advances_refl. Qed.

Lemma wellBehaved_lift {A} (r : result A) : wellBehaved client (lift r).
Proof. destruct r; [apply wellBehaved_ret|apply wellBehaved_throw]. Qed.

Lemma wellBehaved_bind {A B} (m : M A) (k : A -> M B) :
  wellBehaved client m -> (forall a, wellBehaved client (k a)) ->
  wellBehaved client (bind m k).
Proof.
  intros Hm Hk s s' H. unfold bind in H.
  destruct (m s) as [a s1|e s1|] eqn:E.
  - eapply advances_trans; [apply Hm; rewrite E; reflexivity|]. eapply Hk. exact H.
  - apply Hm. rewrite E. exact H.
  - discriminate.
Qed.

Lemma wellBehaved_settle {A} (m : M A) :
  wellBehaved client m -> wellBehaved client (settle m).
Proof.
  intros Hm s s' H. unfold settle in H. apply Hm.
  destruct (m s); [exact H|exact H|discriminate].
Qed.

Lemma wellBehaved_fetch (e : Endpoint) : wellBehaved client (fetch client e).
Proof.
  intros s s' H. unfold fetch in H.
  destruct (respond _ (net s)) as [[res|] n]; cbn in H; injection H as <-;
    (split; [auto|]); eexists; (split; [reflexivity|]); repeat constructor.
Qed.

Lemma wellBehaved_updateRateLimit (res : Response) :
  wellBehaved client (updateRateLimit res).
Proof.
  intros s s' H. unfold updateRateLimit in H.
  destruct (_ && _); cbn in H; injection H as <-.
  - split; [cbn; eauto|]. exists []. cbn. rewrite app_nil_r. split; [reflexivity|constructor].
  - apply advances_refl.
Qed.

Ltac behaved :=
  repeat first
    [ apply wellBehaved_ret | apply wellBehaved_throw | apply wellBehaved_lift
    | apply wellBehaved_fetch | apply wellBehaved_updateRateLimit
    | apply wellBehaved_settle
    | apply wellBehaved_bind; [|intros ?]
    | match goal with
      | |- wellBehaved _ (if ?b then _ else _) => destruct b
      | |- wellBehaved _ (match ?x with _ => _ end) => destruct x
      | |- wellBehaved _ (let '(_, _) := ?x in _) => destruct x
      end ].

Lemma wellBehaved_getDefaultBranch (repo : string) :
  wellBehaved client (getDefaultBranch client repo).
Proof. unfold getDefaultBranch, json_default_branch. behaved. Qed.

Lemma wellBehaved_getTree (repo branch : string) :
  wellBehaved client (getTree client repo branch).
Proof.
  unfold getTree, getDefaultBranch, json_commit_tree_sha, json_tree, json_default_branch.
  behaved.
Qed.

Lemma wellBehaved_getBlobContent (repo sha : string) :
  wellBehaved client (getBlobContent client repo sha).
Proof. unfold getBlobContent, getBlob, json_blob_content. behaved. Qed.

Lemma wellBehaved_allSettled (repo : string) (batch : list FileEntry.t) :
  wellBehaved client (allSettled client repo batch).
Proof.
  induction batch as [|e batch IH]; cbn [allSettled]; [apply wellBehaved_ret|].
  apply wellBehaved_bind.
  - apply wellBehaved_settle, wellBehaved_bind; [apply wellBehaved_getBlobContent|].
    intros c. apply wellBehaved_ret.
  - intros r. apply wellBehaved_bind; [exact IH|]. intros rs. apply wellBehaved_ret.
Qed.

Lemma wellBehaved_callOnProgress (onProgress : option (nat -> nat -> Obs -> Obs))
    (completed total : nat) :
  wellBehaved client (callOnProgress onProgress completed total).
Proof.
  destruct onProgress as [f|]; cbn [callOnProgress]; [|apply wellBehaved_ret].
  intros s s' H. injection H as <-. split; [auto|].
  eexists. split; [reflexivity|]. repeat constructor.
Qed.

Lemma wellBehaved_recordResults (onProgress : option (nat -> nat -> Obs -> Obs))
    (total : nat) (rs : list (result (string * string))) :
  forall results completed,
  wellBehaved client (recordResults onProgress total rs results completed).
Proof.
  induction rs as [|r rs IH]; intros results completed; cbn [recordResults].
  - apply wellBehaved_ret.
  - apply wellBehaved_bind; [apply wellBehaved_callOnProgress|]. intros _. apply IH.
Qed.

Lemma wellBehaved_batchLoop (repo : string) (files : list FileEntry.t) (N : nat)
    (onProgress : option (nat -> nat -> Obs -> Obs)) (fuel : nat) :
  forall i results completed,
  wellBehaved client (batchLoop fuel client repo files N onProgress i results completed).
Proof.
  induction fuel as [|fuel IH]; intros i results completed; cbn [batchLoop];
    destruct (Nat.ltb i (length files)); try apply wellBehaved_ret.
  - intros s s' H. discriminate.
  - apply wellBehaved_bind; [apply wellBehaved_allSettled|]. intros rs.
    apply wellBehaved_bind; [apply wellBehaved_recordResults|]. intros [r c]. apply IH.
Qed.

Lemma wellBehaved_fetchContent (fuel : nat) (repo : string) (entries : list FileEntry.t)
    (options : FetchContentOptions.t) :
  wellBehaved client (fetchContent fuel client repo entries options).
Proof.
  unfold fetchContent. destruct (Nat.eqb _ 0); [apply wellBehaved_ret|].
  apply wellBehaved_bind; [apply wellBehaved_batchLoop|]. intros r. apply wellBehaved_ret.
Qed.

(** X10. Whatever the client does - resolve a branch, fetch a tree, fetch
    blobs one by one or in batches - and however it ends, each request it
    made carries the client's headers, and a rate-limit snapshot that was
    recorded before is not lost. *)
Theorem client_calls_wellBehaved (repo branch sha : string) (fuel : nat)
    (entries : list FileEntry.t) (options : FetchContentOptions.t) :
  wellBehaved client (getDefaultBranch client repo) /\
  wellBehaved client (getTree client repo branch) /\
  wellBehaved client (getBlobContent client repo sha) /\
  wellBehaved client (fetchContent fuel client repo entries options).
Proof.
  split; [apply wellBehaved_getDefaultBranch|].
  split; [apply wellBehaved_getTree|].
  split; [apply wellBehaved_getBlobContent|apply wellBehaved_fetchContent].
Qed.

End ClientMore.

Section GetTreeMore.
Context `{RT : Runtime}.
Variable client : GitHubClient.t.
Variable repo : string.

(** The end of [getTree], once the commit lookup to use is known. *)
Lemma getTree_tail (res : Response) (b : string) (s s' : Sys) :
  stateOf
    ((if negb (ok res) then
        if status res =? 403 then throw RateLimitExceeded
        else throw (FailedToGetCommit (status res) (statusText res))
      else
        bind (json_commit_tree_sha res) (fun treeSha =>
        bind (fetch client (GetTree repo treeSha)) (fun treeRes =>
        bind (updateRateLimit treeRes) (fun _ =>
        if negb (ok treeRes) then
          throw (FailedToGetTree (status treeRes) (statusText treeRes))
        else
          bind (json_tree treeRes) (fun tree_ => ret (tree_, b)))))) s) = Some s' ->
  requestsOf (trace s') = requestsOf (trace s) \/
  exists sha, requestsOf (trace s') = requestsOf (trace s) ++ [GetTree repo sha].
Proof.
  destruct (negb (ok res)).
  - destruct (status res =? 403); intros H; injection H as <-; left; reflexivity.
  - unfold json_commit_tree_sha, bind.
    destruct (body res); cbn [ret throw]; try (intros H; injection H as <-; left; reflexivity).
    destruct (fetch client (GetTree repo tree_sha) s) as [treeRes s1|e s1|] eqn:F.
    + destruct (fetch_Done _ _ _ _ _ F) as (Ht & _).
      destruct (updateRateLimit_Done treeRes s1) as (s2 & Hu & Ht2 & _). rewrite Hu.
      assert (Hs2 : requestsOf (trace s2) = requestsOf (trace s) ++ [GetTree repo tree_sha])
        by (rewrite Ht2; exact Ht).
      destruct (negb (ok treeRes)); cbn [throw].
      * intros H. injection H as <-. right. eauto.
      * unfold json_tree. destruct (body treeRes); cbn [ret throw];
          intros H; injection H as <-; right; eauto.
    + destruct (fetch_Thrown _ _ _ _ _ F) as (_ & Ht & _).
      intros H. injection H as <-. right. eauto.
    + intros H. discriminate.
Qed.

(** The requests of one call of [getTree], however it ends. *)
Lemma getTree_shape (branch : string) (s s' : Sys) :
  stateOf (getTree client repo branch s) = Some s' ->
  exists evs,
    requestsOf (trace s') = requestsOf (trace s) ++ evs /\
    (length evs <= 4)%nat /\
    forallb (treeStage repo) evs = true /\
    head evs = Some (GetCommit repo branch).
Proof.
  assert (Hrepo : String.eqb repo repo = true) by apply String.eqb_refl.
  unfold getTree. unfold bind at 1.
  destruct (fetch client (GetCommit repo branch) s) as [res1 s0|e s0|] eqn:F1.
  2: { destruct (fetch_Thrown _ _ _ _ _ F1) as (_ & Ht & _).
       intros H. injection H as <-. exists [GetCommit repo branch].
       cbn. rewrite Hrepo. auto with lia. }
  2: { intros H. discriminate. }
  destruct (fetch_Done _ _ _ _ _ F1) as (Ht0 & _).
  unfold bind at 1.
  destruct (updateRateLimit_Done res1 s0) as (s1 & Hu1 & Ht1 & _). rewrite Hu1.
  assert (Hs1 : requestsOf (trace s1) = requestsOf (trace s) ++ [GetCommit repo branch])
    by (rewrite Ht1; exact Ht0).
  unfold bind at 1.
  destruct (negb (ok res1) && ((status res1 =? 404) || (status res1 =? 422))).
  - unfold bind at 1.
    destruct (getDefaultBranch_requests client repo s1)
      as [(d & s2 & Hd & Ht2)|(e & s2 & Hd & Ht2)]; rewrite Hd.
    + unfold bind at 1.
      destruct (fetch client (GetCommit repo d) s2) as [res2 s3|e s3|] eqn:F2.
      * destruct (fetch_Done _ _ _ _ _ F2) as (Ht3 & _).
        unfold bind at 1.
        destruct (updateRateLimit_Done res2 s3) as (s4 & Hu2 & Ht4 & _). rewrite Hu2.
        cbn [ret]. intros H. apply getTree_tail in H.
        rewrite Ht4, Ht3, Ht2, Hs1 in H.
        destruct H as [H|(sha & H)]; rewrite H, <- ?app_assoc; eexists;
          (split; [reflexivity|]); cbn; rewrite ?Hrepo; auto with lia.
      * destruct (fetch_Thrown _ _ _ _ _ F2) as (_ & Ht3 & _).
        intros H. injection H as <-. rewrite Ht3, Ht2, Hs1, <- !app_assoc.
        eexists. split; [reflexivity|]. cbn. rewrite ?Hrepo. auto with lia.
      * intros H. discriminate.
    + intros H. injection H as <-. rewrite Ht2, Hs1, <- !app_assoc.
      eexists. split; [reflexivity|]. cbn. rewrite ?Hrepo. auto with lia.
  - cbn [ret]. intros H. apply getTree_tail in H. rewrite Hs1 in H.
    destruct H as [H|(sha & H)]; rewrite H, <- ?app_assoc; eexists;
      (split; [reflexivity|]); cbn; rewrite ?Hrepo; auto with lia.
Qed.

(** X11. However [getTree] ends, it made at most four requests, the first
    of them the commit lookup for the requested branch, all of them for the
    repository and none of them for a blob. *)
Theorem getTree_requests (branch : string) (s s' : Sys) :
  stateOf (getTree client repo branch s) = Some s' ->
  exists evs,
    requestsOf (trace s') = requestsOf (trace s) ++ evs /\
    (length evs <= 4)%nat /\
    forallb (treeStage repo) evs = true /\
    head evs = Some (GetCommit repo branch).
Proof. apply getTree_shape. Qed.

(** X12. The fallback is for 404 and 422 only. When the first commit lookup
    succeeds, the default branch is never asked for, and a successful run
    resolves to the requested branch after two requests; when it fails with
    another status, [getTree] throws after this one request. *)
Theorem getTree_no_fallback (branch : string) (s s0 s1 : Sys) (res1 : Response) :
  fetch client (GetCommit repo branch) s = Done res1 s0 ->
  updateRateLimit res1 s0 = Done tt s1 ->
  status res1 <> 404 -> status res1 <> 422 ->
  (ok res1 = false ->
     getTree client repo branch s
     = Thrown (if status res1 =? 403 then RateLimitExceeded
               else FailedToGetCommit (status res1) (statusText res1)) s1 /\
     requestsOf (trace s1) = requestsOf (trace s) ++ [GetCommit repo branch]) /\
  (forall s', stateOf (getTree client repo branch s) = Some s' ->
     ~ In (GetRepo repo) (drop (length (requestsOf (trace s))) (requestsOf (trace s')))) /\
  (forall sha treeRes s2 s3 t,
     ok res1 = true -> body res1 = BodyCommit sha ->
     fetch client (GetTree repo sha) s1 = Done treeRes s2 ->
     updateRateLimit treeRes s2 = Done tt s3 ->
     ok treeRes = true -> body treeRes = BodyTree t ->
     getTree client repo branch s = Done (t, branch) s3 /\
     requestsOf (trace s3) =
       requestsOf (trace s) ++ [GetCommit repo branch; GetTree repo sha]).
Proof.
  intros F1 Hu1 H404 H422.
  assert (Hcond : negb (ok res1) && ((status res1 =? 404) || (status res1 =? 422)) = false).
  { apply Z.eqb_neq in H404, H422. rewrite H404, H422. apply andb_false_r. }
  destruct (fetch_Done _ _ _ _ _ F1) as (Ht0 & _).
  destruct (updateRateLimit_inv _ _ _ _ Hu1) as (Ht1 & _).
  assert (Hs1 : requestsOf (trace s1) = requestsOf (trace s) ++ [GetCommit repo branch])
    by (rewrite Ht1; exact Ht0).
  split; [|split].
  - intros Hok. split; [|exact Hs1].
    unfold getTree, bind. rewrite F1, Hu1, Hcond. cbn [ret]. rewrite Hok. cbn [negb].
    destruct (status res1 =? 403); reflexivity.
  - intros s' H. unfold getTree in H. unfold bind at 1 in H. rewrite F1 in H.
    unfold bind at 1 in H. rewrite Hu1 in H. unfold bind at 1 in H. rewrite Hcond in H.
    cbn [ret] in H. apply getTree_tail in H. rewrite Hs1 in H.
    destruct H as [H|(sha & H)]; rewrite H, <- ?app_assoc, drop_app_length;
      cbn; intuition discriminate.
  - intros sha treeRes s2 s3 t Hok Hbody F2 Hu2 Hok2 Hbody2.
    destruct (fetch_Done _ _ _ _ _ F2) as (Ht2 & _).
    destruct (updateRateLimit_inv _ _ _ _ Hu2) as (Ht3 & _).
    split.
    + unfold getTree, bind. rewrite F1, Hu1, Hcond. cbn [ret]. rewrite Hok. cbn [negb].
      unfold json_commit_tree_sha. rewrite Hbody. cbn [ret].
      rewrite F2, Hu2, Hok2. cbn [negb]. unfold json_tree. rewrite Hbody2. reflexivity.
    + rewrite Ht3, Ht2, Hs1, <- app_assoc. reflexivity.
Qed.

(** X13. [getDefaultBranch] never takes a branch from a response that is
    not a success: it throws "not found" for 404, "rate limit" for 403 and
    a general error for every other status, and returns the default branch
    of a successful response. *)
Theorem getDefaultBranch_outcome (s s0 s1 : Sys) (res : Response) :
  fetch client (GetRepo repo) s = Done res s0 ->
  updateRateLimit res s0 = Done tt s1 ->
  (ok res = false ->
     getDefaultBranch client repo s
     = Thrown (if status res =? 404 then RepoNotFound repo
               else if status res =? 403 then RateLimitExceeded
               else GitHubApiError (status res) (statusText res)) s1) /\
  (forall b, ok res = true -> body res = BodyRepo b ->
     getDefaultBranch client repo s = Done b s1).
Proof.
  intros F Hu. unfold getDefaultBranch, bind. rewrite F, Hu. split.
  - intros ->. cbn [negb]. destruct (status res =? 404); [reflexivity|].
    destruct (status res =? 403); reflexivity.
  - intros b -> Hb. cbn [negb]. unfold json_default_branch. rewrite Hb. reflexivity.
Qed.

End GetTreeMore.

Section FetcherMore.
Context `{RT : Runtime}.
Variable client : GitHubClient.t.
Variable repo : string.

(** The files that are selected: files of the input, within the size bound
    where they have a size, and of the wanted object ids where there are
    such. *)
Lemma filesToFetch_selected (options : FetchContentOptions.t)
    (entries : list FileEntry.t) (e : FileEntry.t) :
  In e (filesToFetch options entries) ->
  In e entries /\
  FileEntry.type e = file /\
  (truthy (FileEntry.size e) = true ->
   gtNum (FileEntry.size e)
     (Some (default DEFAULT_MAX_FILE_SIZE (FetchContentOptions.maxFileSize options))) = false) /\
  (forall shas, FetchContentOptions.filterShas options = Some shas ->
     FileEntry.sha e ∈ shas).
Proof.
  intros H. apply list_elem_of_In, list_elem_of_filter in H. destruct H as [H Hin].
  split; [apply list_elem_of_In; exact Hin|].
  split; [eapply needsContent_file; exact H|].
  unfold needsContent in H.
  destruct (negb (bool_decide (FileEntry.type e = file))); [discriminate|].
  destruct (truthy (FileEntry.size e) && gtNum (FileEntry.size e) _) eqn:Hsize;
    [discriminate|].
  split.
  - intros Ht. rewrite Ht in Hsize. exact Hsize.
  - intros shas Hs. rewrite Hs in H.
    destruct (decide (FileEntry.sha e ∈ shas)) as [Hd|Hd]; [exact Hd|].
    rewrite bool_decide_eq_false_2 in H by exact Hd. discriminate.
Qed.

(** X14. With a bound of at least one, [fetchContent] asks for exactly one
    blob per selected entry, in the order of the input and whatever the
    bound is. It asks for nothing else: not for a directory, not for a file
    over the size bound, not for an object id outside the wanted ones. *)
Theorem fetchContent_requests (fuel : nat) (entries : list FileEntry.t)
    (options : FetchContentOptions.t) (s : Sys) :
  (1 <= concurrencyOf options)%nat ->
  (length (filesToFetch options entries) <= fuel)%nat ->
  exists out s',
    fetchContent fuel client repo entries options s = Done out s' /\
    requestsOf (trace s') =
      requestsOf (trace s) ++
      map (fun e => GetBlob repo (FileEntry.sha e)) (filesToFetch options entries) /\
    sublist (filesToFetch options entries) entries /\
    forall e, In e (filesToFetch options entries) ->
      FileEntry.type e = file /\
      (truthy (FileEntry.size e) = true ->
       gtNum (FileEntry.size e)
         (Some (default DEFAULT_MAX_FILE_SIZE
                  (FetchContentOptions.maxFileSize options))) = false) /\
      (forall shas, FetchContentOptions.filterShas options = Some shas ->
         FileEntry.sha e ∈ shas).
Proof.
  intros HN Hfuel.
  destruct (fetchContent_spec client repo fuel entries options s HN Hfuel)
    as (s' & H & _ & _ & Ht).
  eexists _, s'. split; [exact H|].
  split.
  { rewrite Ht, requestsOf_app, requestsOf_groupsTrace, groups_concat by exact HN.
    reflexivity. }
  split; [apply sublist_filter|].
  intros e He. apply (filesToFetch_selected options entries e) in He. tauto.
Qed.


(** X16. With a bound of zero and something to fetch, the loop of
    [fetchContent] never advances: however often it is unrolled, the call
    does not return. With nothing to fetch the call returns the entries as
    they are and does nothing, whatever the bound. *)
Theorem fetchContent_zero_concurrency (entries : list FileEntry.t)
    (options : FetchContentOptions.t) (s : Sys) :
  FetchContentOptions.concurrency options = Some 0%nat ->
  (filesToFetch options entries <> [] ->
     forall fuel, fetchContent fuel client repo entries options s = OutOfFuel) /\
  (filesToFetch options entries = [] ->
     forall fuel, fetchContent fuel client repo entries options s = Done entries s).
Proof.
  intros Hc. unfold fetchContent.
  change (filter _ entries) with (filesToFetch options entries).
  rewrite Hc. cbn [default]. split.
  - intros Hne fuel.
    destruct (filesToFetch options entries) as [|e l] eqn:E; [congruence|].
    cbn [length Nat.eqb]. unfold bind.
    rewrite batchLoop_zero_diverges by discriminate. reflexivity.
  - intros -> fuel. reflexivity.
Qed.

Lemma collect_keep (rs : list (result (string * string))) (sha : string) :
  (forall c, ~ In (Ok (sha, c)) rs) ->
  forall m : gmap string string, collect rs m !! sha = m !! sha.
Proof.
  induction rs as [|r rs IH]; intros Hno m; [reflexivity|].
  change (collect (r :: rs) m)
    with (collect rs (match r with Ok (sha, content) => <[sha:=content]> m | Throw _ => m end)).
  rewrite IH by (intros c Hc; apply (Hno c); right; exact Hc).
  destruct r as [[sha' c']|err]; [|reflexivity].
  apply lookup_insert_ne. intros ->. apply (Hno c'). left. reflexivity.
Qed.

Lemma collect_last (before after : list (result (string * string)))
    (sha c : string) (m : gmap string string) :
  (forall c', ~ In (Ok (sha, c')) after) ->
  collect (before ++ Ok (sha, c) :: after) m !! sha = Some c.
Proof.
  intros Hno. rewrite collect_app.
  change (collect (Ok (sha, c) :: after) (collect before m))
    with (collect after (<[sha:=c]> (collect before m))).
  rewrite collect_keep by exact Hno. apply lookup_insert_eq.
Qed.

(** X17. When several fetches for one object id succeed, the content of the
    last of them is the one attached, and it is attached to every file
    entry with this object id. *)
Theorem fetchContent_last_fetch_wins (fuel : nat) (entries : list FileEntry.t)
    (options : FetchContentOptions.t) (s sA : Sys)
    (outs : list (result (string * string))) :
  (1 <= concurrencyOf options)%nat ->
  (length (filesToFetch options entries) <= fuel)%nat ->
  allSettled client repo (filesToFetch options entries) s = Done outs sA ->
  exists out s',
    fetchContent fuel client repo entries options s = Done out s' /\
    forall i e before c after,
      entries !! i = Some e ->
      FileEntry.type e = file ->
      outs = before ++ Ok (FileEntry.sha e, c) :: after ->
      (forall c', ~ In (Ok (FileEntry.sha e, c')) after) ->
      out !! i = Some (FileEntry.with_content e (Some c)).
Proof.
  intros HN Hfuel Hall.
  destruct (fetchContent_result client repo fuel entries options s sA outs HN Hfuel Hall)
    as (s' & H).
  eexists _, s'. split; [exact H|].
  intros i e before c after Hi Ht -> Hno.
  rewrite list_lookup_fmap, Hi. cbn [fmap option_fmap option_map]. f_equal.
  unfold mergeContent.
  rewrite (collect_last before after (FileEntry.sha e) c ∅ Hno).
  rewrite !bool_decide_eq_true_2 by eauto. reflexivity.
Qed.

(** A settled computation does not throw, and neither does what is built
    from such. *)
Lemma neverThrows_bind {A B} (m : M A) (k : A -> M B) :
  neverThrows m -> (forall a, neverThrows (k a)) -> neverThrows (bind m k).
Proof.
  intros Hm Hk s e s'. unfold bind.
  destruct (m s) as [a s1|e1 s1|] eqn:E.
  - apply Hk.
  - destruct (Hm s e1 s1 E).
  - discriminate.
Qed.

Lemma neverThrows_ret {A} (a : A) : neverThrows (ret a).
Proof. intros s e s'. discriminate. Qed.

Lemma neverThrows_settle {A} (m : M A) : neverThrows (settle m).
Proof. intros s e s'. unfold settle. destruct (m s); discriminate. Qed.

Lemma neverThrows_allSettled (batch : list FileEntry.t) :
  neverThrows (allSettled client repo batch).
Proof.
  induction batch as [|e l IH]; [apply neverThrows_ret|].
  cbn [allSettled]. apply neverThrows_bind; [apply neverThrows_settle|].
  intros r. apply neverThrows_bind; [exact IH|]. intros rs. apply neverThrows_ret.
Qed.

Lemma neverThrows_callOnProgress onProgress (completed total : nat) :
  neverThrows (callOnProgress onProgress completed total).
Proof. intros s e s'. unfold callOnProgress. destruct onProgress; discriminate. Qed.

Lemma neverThrows_recordResults onProgress (total : nat)
    (rs : list (result (string * string))) :
  forall results completed,
  neverThrows (recordResults onProgress total rs results completed).
Proof.
  induction rs as [|r rs IH]; intros results completed; [apply neverThrows_ret|].
  cbn [recordResults]. apply neverThrows_bind; [apply neverThrows_callOnProgress|].
  intros _. apply IH.
Qed.

Lemma neverThrows_batchLoop (files : list FileEntry.t) (N : nat) onProgress :
  forall fuel i results completed,
  neverThrows (batchLoop fuel client repo files N onProgress i results completed).
Proof.
  induction fuel as [|fuel IH]; intros i results completed; cbn [batchLoop];
    destruct (Nat.ltb i (length files)); try apply neverThrows_ret.
  - intros s e s'. discriminate.
  - apply neverThrows_bind; [apply neverThrows_allSettled|]. intros rs.
    apply neverThrows_bind; [apply neverThrows_recordResults|]. intros [results' completed'].
    apply IH.
Qed.

Lemma neverThrows_fetchContent (fuel : nat) (entries : list FileEntry.t)
    (options : FetchContentOptions.t) :
  neverThrows (fetchContent fuel client repo entries options).
Proof.
  unfold fetchContent. destruct (Nat.eqb _ 0); [apply neverThrows_ret|].
  apply neverThrows_bind; [apply neverThrows_batchLoop|]. intros r. apply neverThrows_ret.
Qed.

End FetcherMore.

Section AssemblerMore.
Context `{RT : Runtime}.

(** [repofetch], stage by stage. *)
Lemma repofetch_stages (fuel : nat) (repo : string) (options : RepoFetchOptions.t)
    (s s0 : Sys) (client : GitHubClient.t) :
  newGitHubClient (RepoFetchOptions.token options) s = Done client s0 ->
  repofetch fuel repo options s =
  match getTree client repo (branchOf options) s0 with
  | Done (t, b) s1 =>
      match filterTree (TreeResponse.tree t) (filterOptionsOf options (sizeBoundOf options)) with
      | Ok entries =>
          if wantsContent options then
            match fetchContent fuel client repo (sortEntries entries)
                    (contentOptionsOf options) s1 with
            | Done out s2 => Done (resultOf repo b t out) s2
            | Thrown e s2 => Thrown e s2
            | OutOfFuel => OutOfFuel
            end
          else Done (resultOf repo b t (sortEntries entries)) s1
      | Throw e => Thrown e s1
      end
  | Thrown e s1 => Thrown e s1
  | OutOfFuel => OutOfFuel
  end.
Proof.
  intros H. unfold newGitHubClient in H. injection H as <- <-.
  unfold repofetch, bind, newGitHubClient, branchOf, wantsContent.
  cbv beta iota zeta. cbn [app].
  match goal with |- context [getTree ?c repo ?b ?s0] =>
    destruct (getTree c repo b s0) as [[t b'] s1|e s1|]; [|reflexivity..] end.
  change {| FilterOptions.extensions := RepoFetchOptions.extensions options;
            FilterOptions.exclude := RepoFetchOptions.exclude options;
            FilterOptions.include := RepoFetchOptions.include options;
            FilterOptions.type := RepoFetchOptions.type options;
            FilterOptions.maxFileSize := _ |}
    with (filterOptionsOf options (sizeBoundOf options)).
  destruct (filterTree _ _) as [entries|e]; [|reflexivity].
  cbn [lift ret].
  destruct (_ || _); reflexivity.
Qed.

Lemma newGitHubClient_Done (token : option string) (s : Sys) :
  exists client s0,
    newGitHubClient token s = Done client s0 /\
    trace s0 = trace s /\ net s0 = net s /\ obs s0 = obs s /\
    GitHubClient.headers client =
      [("Accept", "application/vnd.github.v3+json"); ("User-Agent", "repofetch-cli")]%string ++
      (if truthyStr token
       then [("Authorization", String.append "Bearer " (default "" token))]%string
       else []).
Proof. do 2 eexists. split; [reflexivity|]. cbn. auto. Qed.

(** X18. Every request that [repofetch] makes, however it ends, carries
    the two fixed headers, and carries an [Authorization] header exactly
    when the token is a non-empty string: then it is the bearer token. *)
Theorem repofetch_headers (fuel : nat) (repo : string) (options : RepoFetchOptions.t)
    (s s' : Sys) :
  stateOf (repofetch fuel repo options s) = Some s' ->
  exists evs,
    trace s' = trace s ++ evs /\
    forall rq, In (EvRequest rq) evs ->
      In ("Accept", "application/vnd.github.v3+json")%string (req_headers rq) /\
      In ("User-Agent", "repofetch-cli")%string (req_headers rq) /\
      forall v, In ("Authorization"%string, v) (req_headers rq) <->
                truthyStr (RepoFetchOptions.token options) = true /\
                v = String.append "Bearer " (default "" (RepoFetchOptions.token options)).
Proof.
  destruct (newGitHubClient_Done (RepoFetchOptions.token options) s)
    as (client & s0 & Hnew & Ht0 & _ & _ & Hh).
  rewrite (repofetch_stages fuel repo options s s0 client Hnew). intros H.
  assert (Hadv : advances client s0 s').
  { destruct (getTree client repo (branchOf options) s0) as [[t b] s1|e s1|] eqn:Htree;
      try (apply (wellBehaved_getTree client repo (branchOf options) s0);
           rewrite Htree; exact H).
    assert (H1 : advances client s0 s1)
      by (apply (wellBehaved_getTree client repo (branchOf options) s0);
          rewrite Htree; reflexivity).
    destruct (filterTree _ _) as [entries|e]; [|injection H as <-; exact H1].
    destruct (wantsContent options); [|injection H as <-; exact H1].
    eapply advances_trans; [exact H1|].
    apply (wellBehaved_fetchContent client fuel repo (sortEntries entries)
             (contentOptionsOf options) s1).
    destruct (fetchContent _ _ _ _ _ s1); [exact H|exact H|discriminate]. }
  destruct Hadv as (_ & evs & Ht & Hsent).
  exists evs. split; [rewrite Ht, Ht0; reflexivity|].
  intros rq Hrq. rewrite Forall_forall in Hsent.
  specialize (Hsent _ (proj2 (list_elem_of_In _ _) Hrq)). cbn [sentBy] in Hsent.
  rewrite Hsent, Hh.
  split; [left; reflexivity|]. split; [right; left; reflexivity|].
  intros v. destruct (truthyStr (RepoFetchOptions.token options)); cbn [app In].
  - split.
    + intros [E|[E|[E|[]]]]; try discriminate. injection E as <-. auto.
    + intros [_ ->]. auto.
  - split.
    + intros [E|[E|[]]]; discriminate.
    + intros [E _]. discriminate.
Qed.

(** X19. A failed blob fetch never makes [repofetch] fail. When [repofetch]
    throws, the error is the one of [getTree] or of [filterTree], no blob
    has been asked for, and at most four requests have been made. *)
Theorem repofetch_throws_early (fuel : nat) (repo : string) (options : RepoFetchOptions.t)
    (s s' : Sys) (e : error) :
  repofetch fuel repo options s = Thrown e s' ->
  (exists client s0,
     newGitHubClient (RepoFetchOptions.token options) s = Done client s0 /\
     (getTree client repo (branchOf options) s0 = Thrown e s' \/
      exists t b,
        getTree client repo (branchOf options) s0 = Done (t, b) s' /\
        filterTree (TreeResponse.tree t) (filterOptionsOf options (sizeBoundOf options))
        = Throw e)) /\
  exists evs,
    requestsOf (trace s') = requestsOf (trace s) ++ evs /\
    (length evs <= 4)%nat /\
    forallb (treeStage repo) evs = true.
Proof.
  destruct (newGitHubClient_Done (RepoFetchOptions.token options) s)
    as (client & s0 & Hnew & Ht0 & _).
  rewrite (repofetch_stages fuel repo options s s0 client Hnew). intros H.
  assert (Hfrom : (getTree client repo (branchOf options) s0 = Thrown e s' \/
      exists t b,
        getTree client repo (branchOf options) s0 = Done (t, b) s' /\
        filterTree (TreeResponse.tree t) (filterOptionsOf options (sizeBoundOf options))
        = Throw e)).
  { destruct (getTree client repo (branchOf options) s0) as [[t b] s1|e1 s1|];
      [|injection H as <- <-; left; reflexivity|discriminate].
    destruct (filterTree _ _) as [entries|e1] eqn:Hf;
      [|injection H as <- <-; right; eauto].
    destruct (wantsContent options); [|discriminate].
    destruct (fetchContent _ _ _ _ _ s1) as [out s2|e2 s2|] eqn:Hc; try discriminate.
    destruct (neverThrows_fetchContent _ _ _ _ _ _ _ _ Hc). }
  split; [eauto|].
  assert (Hs : stateOf (getTree client repo (branchOf options) s0) = Some s').
  { destruct Hfrom as [->|(t & b & -> & _)]; reflexivity. }
  destruct (getTree_shape client repo (branchOf options) s0 s' Hs) as (evs & Hr & Hl & Hall & _).
  exists evs. rewrite Hr, Ht0. auto.
Qed.

Lemma erase_mergeContent (results : gmap string string) (e : FileEntry.t) :
  erase (mergeContent results e) = erase e.
Proof. unfold mergeContent. destruct (_ && _); reflexivity. Qed.

Lemma erase_id (e : FileEntry.t) : FileEntry.content e = None -> erase e = e.
Proof. destruct e as [p t sh sz ext c]. cbn. intros ->. reflexivity. Qed.

Lemma filterTree_no_content (items : list TreeItem.t) (options : FilterOptions.t)
    (out : list FileEntry.t) (e : FileEntry.t) :
  filterTree items options = Ok out -> In e out -> FileEntry.content e = None.
Proof.
  intros H He. destruct (filterTree_In items options out H e He) as (item & _ & Hi).
  apply filterItem_Some in Hi. subst e. reflexivity.
Qed.

Lemma map_erase_id (l : list FileEntry.t) :
  (forall e, In e l -> FileEntry.content e = None) -> map erase l = l.
Proof.
  induction l as [|e l IH]; intros H; [reflexivity|].
  cbn [map]. rewrite erase_id by (apply H; left; reflexivity).
  rewrite IH by (intros x Hx; apply H; right; exact Hx). reflexivity.
Qed.

Section FetcherKeys.
Variable client : GitHubClient.t.
Variable repo : string.

Lemma blobOutcome_sha (sha sha' c : string) (n : Net) :
  (blobOutcome client repo sha n).1 = Ok (sha', c) -> sha' = sha.
Proof.
  unfold blobOutcome. destruct (respond _ n) as [[res|] n']; cbn [fst]; [|discriminate].
  destruct (negb (ok res)); [discriminate|].
  destruct (body res); try discriminate. intros H. injection H as -> _. reflexivity.
Qed.

Lemma outcomes_sha (files : list FileEntry.t) (sha c : string) :
  forall n, In (Ok (sha, c)) (outcomes client repo files n).1 ->
  exists e, In e files /\ FileEntry.sha e = sha.
Proof.
  induction files as [|e l IH]; intros n H; [destruct H|].
  cbn [outcomes] in H.
  destruct (blobOutcome client repo (FileEntry.sha e) n) as [r n1] eqn:Hb.
  destruct (outcomes client repo l n1) as [rs n2] eqn:Ho. cbn [fst In] in H.
  destruct H as [H|H].
  - exists e. split; [left; reflexivity|].
    symmetry. apply (blobOutcome_sha (FileEntry.sha e) sha c n). rewrite Hb. exact H.
  - destruct (IH n1) as (e' & He' & Hs); [rewrite Ho; exact H|].
    exists e'. split; [right; exact He'|exact Hs].
Qed.

Lemma arraySlice_In {A} (l : list A) (a b : nat) (x : A) :
  In x (JS.arraySlice l a b) -> In x l.
Proof.
  unfold JS.arraySlice. intros H.
  apply list_elem_of_In. apply list_elem_of_In in H.
  eapply elem_of_sublist; [exact H|].
  etransitivity; [apply sublist_take|apply sublist_drop].
Qed.

(** The object ids with a content come from the files fetched. *)
Lemma batchLoop_keys (files : list FileEntry.t) (N : nat)
    (onProgress : option (nat -> nat -> Obs -> Obs)) :
  forall (fuel i : nat) (results : gmap string string) (completed : nat) (s s' : Sys)
         (r : gmap string string),
  batchLoop fuel client repo files N onProgress i results completed s = Done r s' ->
  forall sha, is_Some (r !! sha) ->
    is_Some (results !! sha) \/ exists e, In e files /\ FileEntry.sha e = sha.
Proof.
  induction fuel as [|fuel IH]; intros i results completed s s' r H sha Hsha;
    cbn [batchLoop] in H; destruct (Nat.ltb i (length files));
    try (injection H as <- <-; left; exact Hsha); [discriminate|].
  unfold bind in H.
  destruct (allSettled_spec client repo (JS.arraySlice files i (i + N)) s)
    as (s1 & Ha & _). rewrite Ha in H.
  destruct (recordResults_spec onProgress (length files)
              (outcomes client repo (JS.arraySlice files i (i + N)) (net s)).1
              results completed s1) as (s2 & Hr & _). rewrite Hr in H.
  destruct (IH _ _ _ _ _ _ H sha Hsha) as [Hk|Hk]; [|right; exact Hk].
  apply collect_lookup in Hk. destruct Hk as [Hk|(c & Hc)]; [left; exact Hk|right].
  apply outcomes_sha in Hc. destruct Hc as (e & He & Hs).
  exists e. split; [eapply arraySlice_In; exact He|exact Hs].
Qed.

(** What [fetchContent] returns, whenever it returns. *)
Lemma fetchContent_Done (fuel : nat) (entries out : list FileEntry.t)
    (options : FetchContentOptions.t) (s s' : Sys) :
  fetchContent fuel client repo entries options s = Done out s' ->
  exists results : gmap string string,
    out = map (mergeContent results) entries /\
    forall sha, is_Some (results !! sha) ->
      exists e, In e (filesToFetch options entries) /\ FileEntry.sha e = sha.
Proof.
  unfold fetchContent.
  change (filter _ entries) with (filesToFetch options entries).
  destruct (Nat.eqb _ 0).
  - intros H. injection H as <- <-. exists ∅. split.
    + symmetry. clear. induction entries as [|e l IH]; [reflexivity|].
      cbn [map]. rewrite mergeContent_empty, IH. reflexivity.
    + intros sha [x Hx]. rewrite lookup_empty in Hx. discriminate.
  - unfold bind.
    destruct (batchLoop _ _ _ _ _ _ _ _ _ s) as [r s1|e s1|] eqn:Hb; try discriminate.
    intros H. injection H as <- <-. exists r. split; [reflexivity|].
    intros sha Hsha. destruct (batchLoop_keys _ _ _ _ _ _ _ _ _ _ Hb sha Hsha) as [[x Hx]|Hk].
    + rewrite lookup_empty in Hx. discriminate.
    + exact Hk.
Qed.

End FetcherKeys.

(** What [repofetch] returns, whenever it returns. *)
Lemma repofetch_Done (fuel : nat) (repo : string) (options : RepoFetchOptions.t)
    (s s' : Sys) (r : RepoFetchResult.t) :
  repofetch fuel repo options s = Done r s' ->
  exists client s0 t s1 entries (results : gmap string string),
    newGitHubClient (RepoFetchOptions.token options) s = Done client s0 /\
    getTree client repo (branchOf options) s0 = Done (t, RepoFetchResult.branch r) s1 /\
    filterTree (TreeResponse.tree t) (filterOptionsOf options (sizeBoundOf options))
    = Ok entries /\
    r = resultOf repo (RepoFetchResult.branch r) t
          (map (mergeContent results) (sortEntries entries)) /\
    (forall sha, is_Some (results !! sha) ->
       wantsContent options = true /\
       exists e, In e (filesToFetch (contentOptionsOf options) (sortEntries entries)) /\
                 FileEntry.sha e = sha).
Proof.
  destruct (newGitHubClient_Done (RepoFetchOptions.token options) s)
    as (client & s0 & Hnew & _).
  rewrite (repofetch_stages fuel repo options s s0 client Hnew). intros H.
  destruct (getTree client repo (branchOf options) s0) as [[t b] s1|e1 s1|] eqn:Htree;
    try discriminate.
  destruct (filterTree _ _) as [entries|e1] eqn:Hf; [|discriminate].
  destruct (wantsContent options).
  - destruct (fetchContent _ _ _ _ _ s1) as [out s2|e2 s2|] eqn:Hc; try discriminate.
    injection H as <- <-.
    destruct (fetchContent_Done _ _ _ _ _ _ _ _ Hc) as (results & -> & Hk).
    exists client, s0, t, s1, entries, results. cbn [resultOf RepoFetchResult.branch].
    repeat split; auto.
  - injection H as <- <-.
    exists client, s0, t, s1, entries, ∅. cbn [resultOf RepoFetchResult.branch].
    repeat split; auto.
    + f_equal. clear. induction (sortEntries entries) as [|e l IH]; [reflexivity|].
      cbn [map]. rewrite mergeContent_empty, <- IH. reflexivity.
    + destruct H as [x Hx]. rewrite lookup_empty in Hx. discriminate.
    + destruct H as [x Hx]. rewrite lookup_empty in Hx. discriminate.
Qed.

(** X20. Fetching contents changes no listing: when [repofetch] returns,
    its files without their contents are the sorted output of [filterTree],
    whether contents were asked for or not; the result names the repository
    asked for and the branch that [getTree] resolved. *)
Theorem repofetch_listing (fuel : nat) (repo : string) (options : RepoFetchOptions.t)
    (s s' : Sys) (r : RepoFetchResult.t) :
  repofetch fuel repo options s = Done r s' ->
  exists client s0 t s1 entries,
    newGitHubClient (RepoFetchOptions.token options) s = Done client s0 /\
    getTree client repo (branchOf options) s0 = Done (t, RepoFetchResult.branch r) s1 /\
    filterTree (TreeResponse.tree t) (filterOptionsOf options (sizeBoundOf options))
    = Ok entries /\
    map erase (RepoFetchResult.files r) = sortEntries entries /\
    RepoFetchResult.repo r = repo /\
    RepoFetchResult.truncated r = TreeResponse.truncated t.
Proof.
  intros H. destruct (repofetch_Done fuel repo options s s' r H)
    as (client & s0 & t & s1 & entries & results & Hnew & Htree & Hf & Hr & _).
  exists client, s0, t, s1, entries.
  split; [exact Hnew|]. split; [exact Htree|]. split; [exact Hf|].
  rewrite Hr. cbn [resultOf RepoFetchResult.files RepoFetchResult.repo
                   RepoFetchResult.truncated].
  split; [|auto].
  rewrite map_map.
  rewrite (map_ext _ erase (erase_mergeContent results)).
  apply map_erase_id. intros e He.
  apply arraySort_In in He. eapply filterTree_no_content; eassumption.
Qed.

(** X21. Content is attached where it was asked for only. An entry of the
    result with content is a file, contents were asked for, its object id
    is one of the wanted ones when [shas] is given, and some file of the
    listing with this object id is within the size bound. *)
Theorem repofetch_content_where_wanted (fuel : nat) (repo : string)
    (options : RepoFetchOptions.t) (s s' : Sys) (r : RepoFetchResult.t) (e : FileEntry.t) :
  repofetch fuel repo options s = Done r s' ->
  In e (RepoFetchResult.files r) ->
  is_Some (FileEntry.content e) ->
  FileEntry.type e = file /\
  wantsContent options = true /\
  (forall shas, RepoFetchOptions.shas options = Some shas -> In (FileEntry.sha e) shas) /\
  exists e', In (erase e') (map erase (RepoFetchResult.files r)) /\
    FileEntry.sha e' = FileEntry.sha e /\ FileEntry.type e' = file /\
    (truthy (FileEntry.size e') = true ->
     gtNum (FileEntry.size e')
       (Some (default (1024 * 1024) (RepoFetchOptions.maxFileSize options))) = false).
Proof.
  intros H He Hc. destruct (repofetch_Done fuel repo options s s' r H)
    as (client & s0 & t & s1 & entries & results & Hnew & Htree & Hf & Hr & Hk).
  rewrite Hr in He. cbn [resultOf RepoFetchResult.files] in He.
  apply in_map_iff in He. destruct He as (e0 & <- & He0).
  assert (Hnone : FileEntry.content e0 = None).
  { apply arraySort_In in He0. eapply filterTree_no_content; eassumption. }
  unfold mergeContent in Hc |- *.
  destruct (bool_decide (FileEntry.type e0 = file)) eqn:Ht; cbn [andb] in Hc |- *.
  2: { rewrite Hnone in Hc. destruct Hc as [x Hx]. discriminate. }
  destruct (bool_decide (is_Some (results !! FileEntry.sha e0))) eqn:Hs.
  2: { rewrite Hnone in Hc. destruct Hc as [x Hx]. discriminate. }
  apply bool_decide_eq_true_1 in Ht, Hs. cbn [FileEntry.with_content FileEntry.type FileEntry.sha].
  destruct (Hk _ Hs) as (Hw & e' & He' & Hsha).
  destruct (filesToFetch_selected (contentOptionsOf options) (sortEntries entries) e' He')
    as (Hin & Hfile & Hsize & Hset).
  split; [exact Ht|]. split; [exact Hw|]. split.
  - intros shas Hshas. specialize (Hset (list_to_set shas)).
    cbn [contentOptionsOf FetchContentOptions.filterShas] in Hset.
    rewrite Hshas in Hset. specialize (Hset eq_refl).
    rewrite Hsha in Hset. apply elem_of_list_to_set in Hset.
    apply list_elem_of_In. exact Hset.
  - exists e'. split.
    + rewrite Hr. cbn [resultOf RepoFetchResult.files]. rewrite map_map.
      rewrite (map_ext _ erase (erase_mergeContent results)).
      apply in_map. exact Hin.
    + split; [exact Hsha|]. split; [exact Hfile|exact Hsize].
Qed.

End AssemblerMore.

Section Termination.
Context `{RT : Runtime}.

Lemma returns_ret {A} (a : A) : returns (ret a).
Proof. intros s. discriminate. Qed.

Lemma returns_throw {A} (e : error) : returns (@throw _ A e).
Proof. intros s. discriminate. Qed.

Lemma returns_bind {A B} (m : M A) (k : A -> M B) :
  returns m -> (forall a, returns (k a)) -> returns (bind m k).
Proof.
  intros Hm Hk s. unfold bind. specialize (Hm s).
  destruct (m s) as [a s1|e s1|]; [apply Hk|discriminate|congruence].
Qed.

Lemma returns_fetch (client : GitHubClient.t) (e : Endpoint) : returns (fetch client e).
Proof. intros s. apply fetch_fuel. Qed.

Lemma returns_updateRateLimit (res : Response) : returns (updateRateLimit res).
Proof.
  intros s. destruct (updateRateLimit_Done res s) as (s' & H & _). rewrite H. discriminate.
Qed.

Ltac returning :=
  repeat first
    [ apply returns_ret | apply returns_throw
    | apply returns_fetch | apply returns_updateRateLimit
    | apply returns_bind; [|intros ?]
    | match goal with
      | |- returns (if ?b then _ else _) => destruct b
      | |- returns (match ?x with _ => _ end) => destruct x
      end ].

Lemma returns_getTree (client : GitHubClient.t) (repo branch : string) :
  returns (getTree client repo branch).
Proof.
  unfold getTree, getDefaultBranch, json_commit_tree_sha, json_tree, json_default_branch.
  returning.
Qed.

(** More fuel changes nothing once the loop has come to its end. *)
Lemma batchLoop_fuel_mono (client : GitHubClient.t) (repo : string)
    (files : list FileEntry.t) (N : nat) (onProgress : option (nat -> nat -> Obs -> Obs)) :
  forall (fuel i : nat) (results : gmap string string) (completed : nat) (s : Sys),
  batchLoop fuel client repo files N onProgress i results completed s <> OutOfFuel ->
  forall fuel', (fuel <= fuel')%nat ->
  batchLoop fuel' client repo files N onProgress i results completed s
  = batchLoop fuel client repo files N onProgress i results completed s.
Proof.
  induction fuel as [|fuel IH]; intros i results completed s Hne fuel' Hle;
    cbn [batchLoop] in *; destruct (Nat.ltb i (length files)) eqn:E.
  - congruence.
  - destruct fuel'; cbn [batchLoop]; rewrite E; reflexivity.
  - destruct fuel' as [|fuel']; [lia|]. cbn [batchLoop]. rewrite E.
    unfold bind in *.
    destruct (allSettled client repo _ s) as [rs s1|e s1|]; [|reflexivity..].
    destruct (recordResults _ _ _ _ _ s1) as [[r c] s2|e s2|]; [|reflexivity..].
    apply IH; [exact Hne|lia].
  - destruct fuel'; cbn [batchLoop]; rewrite E; reflexivity.
Qed.

Lemma fetchContent_fuel_mono (client : GitHubClient.t) (repo : string)
    (entries : list FileEntry.t) (options : FetchContentOptions.t) (fuel fuel' : nat)
    (s : Sys) :
  fetchContent fuel client repo entries options s <> OutOfFuel ->
  (fuel <= fuel')%nat ->
  fetchContent fuel' client repo entries options s
  = fetchContent fuel client repo entries options s.
Proof.
  unfold fetchContent. destruct (Nat.eqb _ 0); [reflexivity|].
  unfold bind. intros Hne Hle.
  rewrite (batchLoop_fuel_mono _ _ _ _ _ fuel _ _ _ s); [reflexivity| |exact Hle].
  intros E. rewrite E in Hne. congruence.
Qed.

(** X22. With a bound on concurrent requests that is a count of at least
    one, or with none given, [repofetch] comes to an end, by returning or by
    throwing, and once the loop is unrolled often enough the outcome no
    longer depends on how often. The bound is a count here; a number that is
    none - negative or fractional - is outside the model. *)
Theorem repofetch_returns (repo : string) (options : RepoFetchOptions.t) (s : Sys) :
  (forall c, RepoFetchOptions.concurrency options = Some c -> (1 <= c)%nat) ->
  exists n, forall fuel, (n <= fuel)%nat ->
    repofetch fuel repo options s <> OutOfFuel /\
    repofetch fuel repo options s = repofetch n repo options s.
Proof.
  intros Hc.
  destruct (newGitHubClient_Done (RepoFetchOptions.token options) s)
    as (client & s0 & Hnew & _).
  pose proof (returns_getTree client repo (branchOf options) s0) as Htree.
  destruct (getTree client repo (branchOf options) s0) as [[t b] s1|e s1|] eqn:Et;
    [| |congruence].
  2: { exists 0%nat. intros fuel _.
       rewrite !(repofetch_stages _ repo options s s0 client Hnew), Et.
       split; [discriminate|reflexivity]. }
  destruct (filterTree (TreeResponse.tree t) (filterOptionsOf options (sizeBoundOf options)))
    as [entries|e] eqn:Ef.
  2: { exists 0%nat. intros fuel _.
       rewrite !(repofetch_stages _ repo options s s0 client Hnew), Et, Ef.
       split; [discriminate|reflexivity]. }
  exists (length entries). intros fuel Hfuel.
  rewrite !(repofetch_stages _ repo options s s0 client Hnew), Et, Ef.
  destruct (wantsContent options); [|split; [discriminate|reflexivity]].
  assert (HN : (1 <= concurrencyOf (contentOptionsOf options))%nat).
  { unfold concurrencyOf, contentOptionsOf. cbn.
    destruct (RepoFetchOptions.concurrency options) as [c|]; cbn; [|lia].
    apply Hc. reflexivity. }
  assert (Hlen : (length (filesToFetch (contentOptionsOf options) (sortEntries entries))
                  <= length entries)%nat).
  { etransitivity; [apply length_filter|].
    unfold sortEntries.
    rewrite (Permutation_length (arraySort_Permutation _ _)). reflexivity. }
  destruct (fetchContent_spec client repo (length entries) (sortEntries entries)
              (contentOptionsOf options) s1 HN Hlen) as (s2 & E2 & _).
  rewrite (fetchContent_fuel_mono client repo _ _ (length entries) fuel s1);
    [|rewrite E2; discriminate|exact Hfuel].
  rewrite E2. split; [discriminate|reflexivity].
Qed.

End Termination.

(** ** The tree of [output.ts] *)

Section JSMapFacts.
Context {V : Type}.
Implicit Types (m : JSMap.t V) (k : string) (v : V).

Lemma JSMap_has_get m k : JSMap.has m k = bool_decide (is_Some (JSMap.get m k)).
Proof.
  induction m as [|[k' v'] m IH]; cbn [JSMap.has JSMap.get existsb fst].
  - symmetry. apply bool_decide_eq_false_2. intros [x Hx]. discriminate.
  - destruct (String.eqb k' k); cbn [orb].
    + symmetry. apply bool_decide_eq_true_2. eauto.
    + exact IH.
Qed.

Lemma JSMap_get_set m k v k' :
  JSMap.get (JSMap.set m k v) k' = if String.eqb k k' then Some v else JSMap.get m k'.
Proof.
  induction m as [|[k0 v0] m IH]; cbn [JSMap.set JSMap.get].
  - reflexivity.
  - destruct (String.eqb_spec k0 k) as [->|Hne]; cbn [JSMap.get].
    + destruct (String.eqb k k'); reflexivity.
    + rewrite IH. destruct (String.eqb_spec k0 k') as [->|Hne'].
      * destruct (String.eqb_spec k k'); [congruence|reflexivity].
      * reflexivity.
Qed.

Lemma JSMap_get_update m k (f : V -> V) k' :
  JSMap.get (JSMap.update m k f) k' =
  if String.eqb k k' then f <$> JSMap.get m k else JSMap.get m k'.
Proof.
  induction m as [|[k0 v0] m IH]; cbn [JSMap.update JSMap.get].
  - destruct (String.eqb k k'); reflexivity.
  - destruct (String.eqb_spec k0 k) as [->|Hne]; cbn [JSMap.get].
    + destruct (String.eqb k k'); reflexivity.
    + rewrite IH. destruct (String.eqb_spec k0 k') as [->|Hne'].
      * destruct (String.eqb_spec k k'); [congruence|reflexivity].
      * reflexivity.
Qed.

Lemma JSMap_set_fresh m k v :
  JSMap.has m k = false -> JSMap.set m k v = m ++ [(k, v)].
Proof.
  induction m as [|[k0 v0] m IH]; cbn [JSMap.has JSMap.set existsb fst app]; [reflexivity|].
  destruct (String.eqb k0 k); cbn [orb]; [discriminate|].
  intros H. f_equal. apply IH. exact H.
Qed.

Lemma JSMap_keys_update m k (f : V -> V) :
  map fst (JSMap.update m k f) = map fst m.
Proof.
  induction m as [|[k0 v0] m IH]; cbn [JSMap.update map]; [reflexivity|].
  destruct (String.eqb k0 k); cbn [map fst]; [reflexivity|]. f_equal. exact IH.
Qed.

Lemma JSMap_has_keys m k : JSMap.has m k = true <-> In k (map fst m).
Proof.
  induction m as [|[k0 v0] m IH]; cbn [JSMap.has existsb map fst In].
  - split; [discriminate|tauto].
  - rewrite orb_true_iff. change (existsb _ m) with (JSMap.has m k). rewrite IH.
    destruct (String.eqb_spec k0 k); intuition discriminate.
Qed.

Lemma JSMap_get_In m k v : JSMap.get m k = Some v -> In (k, v) m.
Proof.
  induction m as [|[k0 v0] m IH]; cbn [JSMap.get]; [discriminate|].
  destruct (String.eqb_spec k0 k) as [->|Hne].
  - intros H. injection H as ->. left. reflexivity.
  - intros H. right. apply IH. exact H.
Qed.

Lemma JSMap_In_get m k v : NoDup (map fst m) -> In (k, v) m -> JSMap.get m k = Some v.
Proof.
  induction m as [|[k0 v0] m IH]; cbn [JSMap.get map fst]; intros Hnd Hin; [destruct Hin|].
  apply NoDup_cons in Hnd. destruct Hnd as [Hk Hnd].
  destruct Hin as [E|Hin].
  - injection E as -> ->. rewrite String.eqb_refl. reflexivity.
  - destruct (String.eqb_spec k0 k) as [->|Hne]; [|apply IH; assumption].
    destruct Hk. apply list_elem_of_In, in_map_iff.
    exists (k, v). split; [reflexivity|exact Hin].
Qed.

(** What [update] does to the members. *)
Lemma JSMap_update_Forall m k (f : V -> V) (P : string * V -> Prop) :
  Forall P m ->
  (forall v, P (k, v) -> P (k, f v)) ->
  Forall P (JSMap.update m k f).
Proof.
  intros Hm Hf. induction Hm as [|[k0 v0] m Hx Hm IH]; cbn [JSMap.update]; [constructor|].
  destruct (String.eqb_spec k0 k) as [->|Hne].
  - constructor; [apply Hf; exact Hx|exact Hm].
  - constructor; [exact Hx|exact IH].
Qed.

End JSMapFacts.


Section TreeFacts.
Context `{RT : Runtime}.

Lemma descend_name (parts : list string) (e : FileEntry.t) (cur : TreeNode) :
  TreeNode.name (descend parts e cur) = TreeNode.name cur.
Proof. destruct parts; reflexivity. Qed.

Lemma descend_entry (parts : list string) (e : FileEntry.t) (cur : TreeNode) :
  TreeNode.entry (descend parts e cur) = TreeNode.entry cur.
Proof. destruct parts; reflexivity. Qed.

Lemma descend_get (part : string) (rest : list string) (e : FileEntry.t) (cur : TreeNode)
    (k : string) :
  JSMap.get (TreeNode.children (descend (part :: rest) e cur)) k =
  if String.eqb part k
  then Some (descend rest e (mark (isNil rest) e (childOrNew cur part)))
  else JSMap.get (TreeNode.children cur) k.
Proof.
  cbn [descend TreeNode.children]. rewrite JSMap_get_update.
  unfold childOrNew, mark, isNil.
  rewrite JSMap_has_get.
  destruct (String.eqb_spec part k) as [->|Hne].
  - destruct (JSMap.get (TreeNode.children cur) k) as [c|] eqn:E.
    + rewrite bool_decide_eq_true_2 by eauto. cbn [negb]. rewrite E. cbn.
      destruct rest; reflexivity.
    + rewrite bool_decide_eq_false_2 by (intros [x Hx]; discriminate). cbn [negb].
      rewrite JSMap_get_set, String.eqb_refl. cbn. destruct rest; reflexivity.
  - destruct (bool_decide _); cbn [negb]; [reflexivity|].
    rewrite JSMap_get_set. destruct (String.eqb_spec part k); [congruence|reflexivity].
Qed.

Lemma nodeAt_descend (part : string) (rest : list string) (e : FileEntry.t) (cur : TreeNode)
    (k : string) (r : list string) :
  nodeAt (k :: r) (descend (part :: rest) e cur) =
  if String.eqb part k
  then nodeAt r (descend rest e (mark (isNil rest) e (childOrNew cur part)))
  else nodeAt (k :: r) cur.
Proof.
  cbn [nodeAt]. rewrite descend_get. destruct (String.eqb part k); reflexivity.
Qed.

Lemma prefix_cons_same {A} (k : A) (r rest : list A) :
  k :: r `prefix_of` k :: rest <-> r `prefix_of` rest.
Proof. split; [apply prefix_cons_inv_2|apply prefix_cons]. Qed.

Lemma nodeAt_mark (b : bool) (e : FileEntry.t) (node : TreeNode) (k : string)
    (r : list string) :
  nodeAt (k :: r) (mark b e node) = nodeAt (k :: r) node.
Proof. destruct b; reflexivity. Qed.

Lemma nodeAt_childOrNew (cur : TreeNode) (k : string) (r : list string) :
  r <> [] -> nodeAt r (childOrNew cur k) = nodeAt (k :: r) cur.
Proof.
  intros Hr. cbn [nodeAt]. unfold childOrNew.
  destruct (JSMap.get (TreeNode.children cur) k); [reflexivity|].
  destruct r; [congruence|reflexivity].
Qed.

(** The nodes after one entry: those that were there and those along the
    parts of the entry. *)
Lemma nodeAt_descend_is_Some (parts : list string) (e : FileEntry.t) :
  forall (cur : TreeNode) (p : list string),
  is_Some (nodeAt p (descend parts e cur)) <->
  is_Some (nodeAt p cur) \/ p `prefix_of` parts.
Proof.
  induction parts as [|part rest IH]; intros cur p.
  - cbn [descend]. split; [auto|]. intros [H|H]; [exact H|].
    apply prefix_nil_inv in H. subst p. cbn. eauto.
  - destruct p as [|k r].
    + cbn [nodeAt]. split; [eauto|]. intros _. eauto.
    + rewrite nodeAt_descend. destruct (String.eqb_spec part k) as [->|Hne].
      * rewrite IH. rewrite prefix_cons_same.
        destruct r as [|k' r'].
        -- cbn [nodeAt]. split; intros _; [right; apply prefix_nil|left; eauto].
        -- rewrite nodeAt_mark, nodeAt_childOrNew by discriminate. reflexivity.
      * split; [auto|]. intros [H|H]; [exact H|].
        apply prefix_cons_inv_1 in H. congruence.
Qed.

End TreeFacts.

Section TreeBuild.
Context `{RT : Runtime}.

Lemma entryAt_descend (parts : list string) (e : FileEntry.t) :
  parts <> [] ->
  forall (cur : TreeNode) (p : list string), p <> [] ->
  entryAt p (descend parts e cur) = if decide (p = parts) then Some e else entryAt p cur.
Proof.
  induction parts as [|part rest IH]; [congruence|].
  intros _ cur [|k r] Hp; [congruence|].
  unfold entryAt in *. rewrite nodeAt_descend.
  destruct (String.eqb_spec part k) as [->|Hne].
  2: { rewrite decide_False by congruence. reflexivity. }
  destruct rest as [|part' rest'].
  - cbn [descend isNil mark]. destruct r as [|k' r'].
    + rewrite decide_True by reflexivity. reflexivity.
    + rewrite decide_False by congruence.
      change (Node _ (Some e) _) with (mark true e (childOrNew cur k)).
      rewrite nodeAt_mark, nodeAt_childOrNew by discriminate. reflexivity.
  - cbn [isNil mark]. destruct r as [|k' r'].
    + rewrite decide_False by congruence.
      cbn [nodeAt mbind option_bind]. rewrite descend_entry.
      unfold childOrNew. destruct (JSMap.get (TreeNode.children cur) k); reflexivity.
    + rewrite IH by discriminate.
      rewrite nodeAt_childOrNew by discriminate.
      destruct (decide (k' :: r' = part' :: rest')) as [E|E].
      * rewrite decide_True by congruence. reflexivity.
      * rewrite decide_False by congruence. reflexivity.
Qed.

Lemma partsOf_not_nil (e : FileEntry.t) : partsOf e <> [].
Proof. apply split_not_nil. Qed.

Lemma buildTree_fold_entryAt (es : list FileEntry.t) :
  forall (root : TreeNode) (p : list string), p <> [] ->
  entryAt p (fold_left (fun root entry => descend (partsOf entry) entry root) es root)
  = match lastEntryAt p es with Some e => Some e | None => entryAt p root end.
Proof.
  induction es as [|e es IH]; intros root p Hp; cbn [fold_left]; [reflexivity|].
  rewrite IH by exact Hp. rewrite entryAt_descend by (apply partsOf_not_nil || exact Hp).
  unfold lastEntryAt. rewrite filter_cons.
  destruct (decide (partsOf e = p)) as [E|E].
  - rewrite last_cons. rewrite decide_True by congruence.
    destruct (last _); reflexivity.
  - rewrite decide_False by congruence. reflexivity.
Qed.

Lemma buildTree_fold_is_Some (es : list FileEntry.t) :
  forall (root : TreeNode) (p : list string),
  is_Some (nodeAt p (fold_left (fun root entry => descend (partsOf entry) entry root) es root))
  <-> is_Some (nodeAt p root) \/ exists e, e ∈ es /\ p `prefix_of` partsOf e.
Proof.
  induction es as [|e es IH]; intros root p; cbn [fold_left].
  - split; [auto|]. intros [H|(e & He & _)]; [exact H|]. inversion He.
  - rewrite IH, nodeAt_descend_is_Some. split.
    + intros [[H|H]|(e' & He' & Hp)]; [auto| |].
      * right. exists e. split; [left|exact H].
      * right. exists e'. split; [right; exact He'|exact Hp].
    + intros [H|(e' & He' & Hp)]; [auto|].
      apply elem_of_cons in He'. destruct He' as [->|He']; [auto|].
      right. eauto.
Qed.

Lemma wellKeyed_Node (n : string) (en : option FileEntry.t) (ch : JSMap.t TreeNode) :
  wellKeyed (Node n en ch) <->
  NoDup (map fst ch) /\
  Forall (fun kv => TreeNode.name (snd kv) = fst kv /\ wellKeyed (snd kv)) ch.
Proof.
  cbn [wellKeyed]. apply and_iff_compat_l.
  induction ch as [|kv ch IH]; cbn [fold_right].
  - split; [constructor|auto].
  - rewrite Forall_cons, IH. reflexivity.
Qed.

Lemma wellKeyed_mark (b : bool) (e : FileEntry.t) (node : TreeNode) :
  wellKeyed node -> wellKeyed (mark b e node).
Proof. destruct b, node; cbn [mark]; auto. Qed.

Lemma mark_name (b : bool) (e : FileEntry.t) (node : TreeNode) :
  TreeNode.name (mark b e node) = TreeNode.name node.
Proof. destruct b; reflexivity. Qed.

Lemma wellKeyed_descend (parts : list string) (e : FileEntry.t) :
  forall cur, wellKeyed cur -> wellKeyed (descend parts e cur).
Proof.
  induction parts as [|part rest IH]; intros cur H; [exact H|].
  destruct cur as [n en ch]. cbn [descend TreeNode.children TreeNode.name TreeNode.entry].
  rewrite wellKeyed_Node in H |- *. destruct H as [Hnd Hall].
  rewrite JSMap_keys_update.
  assert (H' : NoDup (map fst (if negb (JSMap.has ch part)
                               then JSMap.set ch part (Node part None []) else ch)) /\
               Forall (fun kv => TreeNode.name (snd kv) = fst kv /\ wellKeyed (snd kv))
                 (if negb (JSMap.has ch part)
                  then JSMap.set ch part (Node part None []) else ch)).
  { destruct (JSMap.has ch part) eqn:Hh; cbn [negb]; [auto|].
    rewrite JSMap_set_fresh by exact Hh. rewrite map_app. cbn [map fst]. split.
    - apply NoDup_app. split; [exact Hnd|]. split; [|apply NoDup_singleton].
      intros x Hx Hx'. apply list_elem_of_singleton in Hx'. subst x.
      apply list_elem_of_In, JSMap_has_keys in Hx. congruence.
    - apply Forall_app. split; [exact Hall|].
      constructor; [|constructor]. cbn. split; [reflexivity|]. split; [constructor|exact I]. }
  destruct H' as [Hnd' Hall']. split; [exact Hnd'|].
  apply JSMap_update_Forall; [exact Hall'|].
  intros v [Hname Hwk]. cbn [fst snd] in *. split.
  - rewrite descend_name. destruct rest; exact Hname.
  - apply IH. apply (wellKeyed_mark (isNil rest) e v Hwk).
Qed.

Lemma wellKeyed_buildTree (es : list FileEntry.t) : wellKeyed (buildTree es).
Proof.
  unfold buildTree.
  assert (H : wellKeyed (Node "" None [])) by (split; [constructor|exact I]).
  revert H. generalize (Node "" None []).
  induction es as [|e es IH]; intros root H; cbn [fold_left]; [exact H|].
  apply IH, wellKeyed_descend, H.
Qed.

Lemma elem_of_concat {A} (x : A) (ls : list (list A)) :
  x ∈ concat ls <-> exists l, x ∈ l /\ l ∈ ls.
Proof.
  rewrite list_elem_of_In, in_concat. split; intros (l & H1 & H2); exists l.
  - split; apply list_elem_of_In; assumption.
  - split; apply list_elem_of_In; assumption.
Qed.

Lemma nodePaths_not_nil (node : TreeNode) : [] ∉ nodePaths node.
Proof.
  destruct node as [n en ch]. cbn [nodePaths]. intros H.
  apply elem_of_concat in H. destruct H as (l & Hin & Hl).
  apply list_elem_of_fmap in Hl. destruct Hl as (kv & -> & _).
  apply elem_of_cons in Hin. destruct Hin as [E|Hin]; [discriminate|].
  apply list_elem_of_fmap in Hin. destruct Hin as (q & E & _). discriminate.
Qed.

Lemma nodePaths_elem (n : string) (en : option FileEntry.t) (ch : JSMap.t TreeNode)
    (p : list string) :
  p ∈ nodePaths (Node n en ch) <->
  exists k c, (k, c) ∈ ch /\ (p = [k] \/ exists q, q ∈ nodePaths c /\ p = k :: q).
Proof.
  cbn [nodePaths]. rewrite elem_of_concat. split.
  - intros (l & Hin & Hl). apply list_elem_of_fmap in Hl. destruct Hl as ([k c] & -> & Hkv).
    exists k, c. split; [exact Hkv|]. cbn [fst snd] in Hin.
    apply elem_of_cons in Hin. destruct Hin as [->|Hin]; [auto|].
    apply list_elem_of_fmap in Hin. destruct Hin as (q & -> & Hq). eauto.
  - intros (k & c & Hkv & Hp). eexists. split.
    2: { apply list_elem_of_fmap. exists (k, c). split; [reflexivity|exact Hkv]. }
    cbn [fst snd]. destruct Hp as [->|(q & Hq & ->)]; [left|right].
    apply list_elem_of_fmap. eauto.
Qed.

(** The paths listed are those of the nodes. *)
Lemma nodePaths_spec (node : TreeNode) :
  wellKeyed node ->
  forall p, p ∈ nodePaths node <-> p <> [] /\ is_Some (nodeAt p node).
Proof.
  induction node as [n en ch IH] using TreeNode_induction. intros Hwk p.
  apply wellKeyed_Node in Hwk. destruct Hwk as [Hnd Hall].
  rewrite nodePaths_elem. split.
  - intros (k & c & Hkv & Hp).
    assert (Hget : JSMap.get ch k = Some c)
      by (apply JSMap_In_get; [exact Hnd|apply list_elem_of_In; exact Hkv]).
    rewrite Forall_forall in IH, Hall.
    destruct Hp as [->|(q & Hq & ->)]; (split; [discriminate|]);
      cbn [nodeAt TreeNode.children]; rewrite Hget; [cbn; eauto|].
    apply (IH _ Hkv) in Hq; [tauto|]. apply (Hall _ Hkv).
  - intros [Hp Hsome]. destruct p as [|k r]; [congruence|].
    cbn [nodeAt TreeNode.children] in Hsome.
    destruct (JSMap.get ch k) as [c|] eqn:Hget; [|destruct Hsome; discriminate].
    apply JSMap_get_In, list_elem_of_In in Hget.
    exists k, c. split; [exact Hget|].
    destruct r as [|k' r']; [auto|right].
    exists (k' :: r'). split; [|reflexivity].
    rewrite Forall_forall in IH, Hall.
    apply (IH _ Hget); [apply (Hall _ Hget)|]. split; [discriminate|exact Hsome].
Qed.

Lemma nodePaths_NoDup (node : TreeNode) : wellKeyed node -> NoDup (nodePaths node).
Proof.
  induction node as [n en ch IH] using TreeNode_induction. intros Hwk.
  apply wellKeyed_Node in Hwk. destruct Hwk as [Hnd Hall].
  cbn [nodePaths].
  induction ch as [|[k c] ch IHch]; cbn [map concat]; [constructor|].
  cbn [map fst] in Hnd. apply NoDup_cons in Hnd. destruct Hnd as [Hk Hnd].
  apply Forall_cons in IH, Hall. destruct IH as [IHc IH]. destruct Hall as [[_ Hc] Hall].
  cbn [fst snd] in *.
  apply NoDup_app. split; [|split].
  - apply NoDup_cons. split.
    + intros H. apply list_elem_of_fmap in H. destruct H as (q & E & Hq).
      injection E as <-. exact (nodePaths_not_nil c Hq).
    + apply NoDup_fmap_2; [|apply IHc; exact Hc]. intros x y E. congruence.
  - intros x Hx Hx'.
    assert (Hh : head x = Some k).
    { apply elem_of_cons in Hx. destruct Hx as [->|Hx]; [reflexivity|].
      apply list_elem_of_fmap in Hx. destruct Hx as (q & -> & _). reflexivity. }
    apply elem_of_concat in Hx'. destruct Hx' as (l & Hin & Hl).
    apply list_elem_of_fmap in Hl. destruct Hl as ([k' c'] & -> & Hkv). cbn [fst snd] in Hin.
    assert (Hh' : head x = Some k').
    { apply elem_of_cons in Hin. destruct Hin as [->|Hin]; [reflexivity|].
      apply list_elem_of_fmap in Hin. destruct Hin as (q & -> & _). reflexivity. }
    apply Hk. apply list_elem_of_fmap. exists (k', c'). split; [|exact Hkv].
    cbn. congruence.
  - apply IHch; assumption.
Qed.

End TreeBuild.

Section SortMaps.
Context {A B : Type}.
Variable h : A -> B.
Variable cmp : A -> A -> Z.
Variable cmp' : B -> B -> Z.
Hypothesis cmp_h : forall a b, cmp' (h a) (h b) = cmp a b.

Lemma sortInsert_fmap (x : A) (l : list A) :
  sortInsert cmp' (h x) (map h l) = map h (sortInsert cmp x l).
Proof.
  induction l as [|y l IH]; cbn [map sortInsert]; [reflexivity|].
  rewrite cmp_h. destruct (cmp x y <=? 0); cbn [map]; [reflexivity|].
  f_equal. exact IH.
Qed.

Lemma arraySort_fmap (l : list A) :
  arraySort cmp' (map h l) = map h (arraySort cmp l).
Proof.
  induction l as [|x l IH]; cbn [map arraySort]; [reflexivity|].
  rewrite IH. apply sortInsert_fmap.
Qed.

End SortMaps.

Section Rendering.
Context `{RT : Runtime}.

Lemma forEachChild_fmap {A B} (g : A -> B) (l : list A)
    (render : B -> string -> bool -> list string) (pre : string) :
  forEachChild (map g l) render pre = forEachChild l (fun x => render (g x)) pre.
Proof.
  unfold forEachChild. rewrite length_map.
  change (map g l) with (g <$> l). rewrite imap_fmap. reflexivity.
Qed.

(** [renderNode] in the order of the source: the line of the node, then
    the sorted children, each with the prefix of the node and its position. *)
Lemma renderNode_sortNodes (options : OutputOptions.t) (n : string)
    (en : option FileEntry.t) (ch : JSMap.t TreeNode) (prefix : string) (isLast : bool) :
  renderNode options (Node n en ch) prefix isLast =
  nodeLine options (Node n en ch) prefix isLast ::
  forEachChild (sortNodes (JSMap.values ch)) (renderNode options)
    (childPrefix prefix isLast).
Proof.
  cbn [renderNode]. f_equal.
  replace (map (fun kv => (snd kv, renderNode options (snd kv))) ch)
    with (map (fun c => (c, renderNode options c)) (JSMap.values ch))
    by (unfold JSMap.values; rewrite map_map; reflexivity).
  rewrite (arraySort_fmap (fun c => (c, renderNode options c)) compareNodes)
    by reflexivity.
  rewrite forEachChild_fmap. reflexivity.
Qed.

Lemma forEachChild_length {A} (l : list A) (render : A -> string -> bool -> list string)
    (w : A -> nat) (pre : string) :
  (forall x, x ∈ l -> forall pre b, length (render x pre b) = w x) ->
  length (forEachChild l render pre) = sum_list (w <$> l).
Proof.
  unfold forEachChild.
  assert (G : forall (f : nat -> bool) (l : list A),
            (forall x, x ∈ l -> forall pre b, length (render x pre b) = w x) ->
            length (concat (imap (fun index child => render child pre (f index)) l))
            = sum_list (w <$> l)).
  { clear l. intros f l. revert f.
    induction l as [|x l IH]; intros f H; [reflexivity|].
    rewrite imap_cons. cbn [concat]. rewrite length_app.
    rewrite (H x) by left. rewrite fmap_cons. cbn [sum_list sum_list_with].
    f_equal. apply (IH (f ∘ S)). intros y Hy. apply H. right. exact Hy. }
  intros H. apply (G (fun index => Nat.eqb index (length l - 1)) l H).
Qed.

Lemma nodePaths_length (n : string) (en : option FileEntry.t) (ch : JSMap.t TreeNode) :
  length (nodePaths (Node n en ch))
  = sum_list ((fun c => S (length (nodePaths c))) <$> JSMap.values ch).
Proof.
  cbn [nodePaths]. unfold JSMap.values.
  induction ch as [|[k c] ch IH]; [reflexivity|].
  cbn [map concat fst snd]. rewrite length_app. cbn [length]. rewrite length_map.
  rewrite IH. reflexivity.
Qed.

Lemma sum_list_Permutation (l l' : list nat) : l ≡ₚ l' -> sum_list l = sum_list l'.
Proof.
  induction 1; cbn [sum_list sum_list_with]; lia.
Qed.

(** One line per node. *)
Lemma renderNode_length (options : OutputOptions.t) (node : TreeNode) :
  forall prefix isLast,
  length (renderNode options node prefix isLast) = S (length (nodePaths node)).
Proof.
  induction node as [n en ch IH] using TreeNode_induction. intros prefix isLast.
  rewrite renderNode_sortNodes. cbn [length]. f_equal.
  rewrite nodePaths_length.
  rewrite (forEachChild_length _ _ (fun c => S (length (nodePaths c)))).
  - apply sum_list_Permutation, fmap_Permutation.
    unfold sortNodes. apply arraySort_Permutation.
  - intros c Hc. unfold sortNodes in Hc.
    apply list_elem_of_In, arraySort_In in Hc.
    unfold JSMap.values in Hc. apply in_map_iff in Hc. destruct Hc as (kv & <- & Hkv).
    rewrite Forall_forall in IH. apply IH. apply list_elem_of_In. exact Hkv.
Qed.

Lemma asciiLines_length (result : RepoFetchResult.t) (options : OutputOptions.t) :
  length (asciiLines result options)
  = (length (nodePaths (buildTree (RepoFetchResult.files result)))
     + if RepoFetchResult.truncated result then 2 else 0)%nat.
Proof.
  unfold asciiLines. rewrite length_app. f_equal.
  2: { destruct (RepoFetchResult.truncated result); reflexivity. }
  destruct (buildTree (RepoFetchResult.files result)) as [n en ch].
  rewrite nodePaths_length. cbn [TreeNode.children].
  rewrite (forEachChild_length _ _ (fun c => S (length (nodePaths c)))).
  - apply sum_list_Permutation, fmap_Permutation.
    unfold sortNodes. apply arraySort_Permutation.
  - intros c _ pre b. apply renderNode_length.
Qed.

Lemma buildTree_paths (entries : list FileEntry.t) (p : list string) :
  p <> [] ->
  (is_Some (nodeAt p (buildTree entries)) <->
   exists e, e ∈ entries /\ p `prefix_of` partsOf e).
Proof.
  intros Hp. unfold buildTree.
  change (fun root entry => descend (JS.split "/" (FileEntry.path entry)) entry root)
    with (fun root entry => descend (partsOf entry) entry root).
  rewrite buildTree_fold_is_Some. split; [|auto].
  intros [H|H]; [|exact H]. destruct p as [|k r]; [congruence|].
  cbn in H. destruct H as [x Hx]. discriminate.
Qed.

(** The name of a node is the last key on the way to it. *)
Lemma nodeAt_name (p : list string) :
  forall (node child : TreeNode) (k : string),
  wellKeyed node -> nodeAt (p ++ [k]) node = Some child ->
  TreeNode.name child = k /\ wellKeyed child.
Proof.
  induction p as [|k0 p IH]; intros [n en ch] child k Hwk H;
    apply wellKeyed_Node in Hwk; destruct Hwk as [_ Hall];
    cbn [app nodeAt TreeNode.children] in H.
  - destruct (JSMap.get ch k) as [c|] eqn:Hget; [|discriminate].
    injection H as <-. apply JSMap_get_In, list_elem_of_In in Hget.
    rewrite Forall_forall in Hall. apply (Hall _ Hget).
  - destruct (JSMap.get ch k0) as [c|] eqn:Hget; [|discriminate].
    apply JSMap_get_In, list_elem_of_In in Hget.
    rewrite Forall_forall in Hall. apply (IH c child k); [apply (Hall _ Hget)|exact H].
Qed.

(** X23. [buildTree] makes one node for every non-empty leading part of
    the path of an entry and no other node. The node is named after the
    last part; its entry is the last entry with exactly this path, and it
    has none when the path is only implied by deeper ones. *)
Theorem buildTree_nodes (entries : list FileEntry.t) (p : list string) :
  p <> [] ->
  (is_Some (nodeAt p (buildTree entries)) <->
   exists e, In e entries /\ p `prefix_of` partsOf e) /\
  (forall node, nodeAt p (buildTree entries) = Some node ->
     last p = Some (TreeNode.name node) /\
     TreeNode.entry node = lastEntryAt p entries).
Proof.
  intros Hp. split.
  - rewrite (buildTree_paths entries p Hp).
    split; intros (e & He & Hpre); exists e; (split; [apply list_elem_of_In; exact He|exact Hpre]).
  - intros node Hnode. split.
    + destruct (exists_last Hp) as (q & k & ->). rewrite last_snoc. f_equal.
      symmetry. eapply nodeAt_name; [apply wellKeyed_buildTree|exact Hnode].
    + pose proof (buildTree_fold_entryAt entries (Node "" None []) p Hp) as H.
      change (fold_left _ entries (Node "" None [])) with (buildTree entries) in H.
      unfold entryAt in H. rewrite Hnode in H. cbn [mbind option_bind] in H.
      rewrite H. destruct (lastEntryAt p entries); [reflexivity|].
      destruct p as [|k r]; [congruence|]. reflexivity.
Qed.

(** X24. The tree is printed with one line per node: the lines of
    [formatAsciiTree] are as many as there are different non-empty leading
    parts among the paths of the files, and two more when the tree was
    truncated. *)
Theorem asciiLines_one_per_node (result : RepoFetchResult.t) (options : OutputOptions.t) :
  length (asciiLines result options)
  = (length (nodePaths (buildTree (RepoFetchResult.files result)))
     + if RepoFetchResult.truncated result then 2 else 0)%nat /\
  NoDup (nodePaths (buildTree (RepoFetchResult.files result))) /\
  forall p, In p (nodePaths (buildTree (RepoFetchResult.files result))) <->
            p <> [] /\ exists e, In e (RepoFetchResult.files result) /\
                                 p `prefix_of` partsOf e.
Proof.
  split; [apply asciiLines_length|].
  split; [apply nodePaths_NoDup, wellKeyed_buildTree|].
  intros p. rewrite <- list_elem_of_In.
  rewrite (nodePaths_spec _ (wellKeyed_buildTree _)). split.
  - intros [Hp H]. split; [exact Hp|].
    apply (buildTree_paths _ p Hp) in H. destruct H as (e & He & Hpre).
    exists e. split; [apply list_elem_of_In; exact He|exact Hpre].
  - intros [Hp (e & He & Hpre)]. split; [exact Hp|].
    apply (buildTree_paths _ p Hp). exists e.
    split; [apply list_elem_of_In; exact He|exact Hpre].
Qed.

Lemma compareNodes_le (x z : TreeNode) :
  compareNodes x z <= 0 -> isDir z = true -> isDir x = true.
Proof.
  unfold compareNodes. destruct (isDir x), (isDir z); cbn; auto; lia.
Qed.

Lemma compareNodes_gt (x z : TreeNode) :
  0 < compareNodes x z -> isDir x = true -> isDir z = true.
Proof.
  unfold compareNodes. destruct (isDir x), (isDir z); cbn; auto; lia.
Qed.

Lemma sortInsert_directories_first (x : TreeNode) (dirs files : list TreeNode) :
  Forall (fun n => isDir n = true) dirs ->
  Forall (fun n => isDir n = false) files ->
  exists dirs' files',
    sortInsert compareNodes x (dirs ++ files) = dirs' ++ files' /\
    Forall (fun n => isDir n = true) dirs' /\
    Forall (fun n => isDir n = false) files'.
Proof.
  intros Hd Hf. induction Hd as [|d dirs Hd0 Hd IH]; cbn [app].
  - destruct (isDir x) eqn:Hx.
    + exists [x], files. split; [|split; [repeat constructor; exact Hx|exact Hf]].
      destruct files as [|f files]; [reflexivity|]. cbn [sortInsert app].
      apply Forall_cons in Hf. destruct Hf as [Hf0 _].
      destruct (Z.leb_spec (compareNodes x f) 0) as [Hle|Hgt]; [reflexivity|].
      apply compareNodes_gt in Hgt; [congruence|exact Hx].
    + exists [], (sortInsert compareNodes x files). split; [reflexivity|].
      split; [constructor|].
      apply Forall_forall. intros y Hy. apply list_elem_of_In, sortInsert_In in Hy.
      destruct Hy as [->|Hy]; [exact Hx|].
      rewrite Forall_forall in Hf. apply Hf, list_elem_of_In, Hy.
  - cbn [sortInsert]. destruct (Z.leb_spec (compareNodes x d) 0) as [Hle|Hgt].
    + exists (x :: d :: dirs), files. split; [reflexivity|].
      split; [|exact Hf]. constructor; [|constructor; assumption].
      apply (compareNodes_le x d Hle Hd0).
    + destruct IH as (dirs' & files' & E & Hd' & Hf').
      exists (d :: dirs'), files'. rewrite E. split; [reflexivity|].
      split; [constructor; assumption|exact Hf'].
Qed.

(** X25. Among the children of a node the directories come first:
    [sortNodes] returns the nodes it was given, all directories before all
    files, whatever [localeCompare] says about their names. *)
Theorem sortNodes_directories_first (nodes : list TreeNode) :
  sortNodes nodes ≡ₚ nodes /\
  exists dirs files,
    sortNodes nodes = dirs ++ files /\
    Forall (fun n => isDir n = true) dirs /\
    Forall (fun n => isDir n = false) files.
Proof.
  split; [apply arraySort_Permutation|].
  unfold sortNodes. induction nodes as [|x nodes IH]; cbn [arraySort].
  - exists [], []. repeat split; constructor.
  - destruct IH as (dirs & files & -> & Hd & Hf).
    apply sortInsert_directories_first; assumption.
Qed.

End Rendering.

Section JSMapValues.
Context {V W : Type}.
Variable g : V -> W.

Lemma JSMap_has_mapValues (m : JSMap.t V) (k : string) :
  JSMap.has (mapValues g m) k = JSMap.has m k.
Proof.
  induction m as [|[k0 v0] m IH]; [reflexivity|].
  cbn [mapValues map JSMap.has existsb fst snd]. f_equal. exact IH.
Qed.

Lemma JSMap_set_mapValues (m : JSMap.t V) (k : string) (v : V) :
  JSMap.set (mapValues g m) k (g v) = mapValues g (JSMap.set m k v).
Proof.
  induction m as [|[k0 v0] m IH]; cbn [mapValues map JSMap.set fst snd]; [reflexivity|].
  destruct (String.eqb k0 k); cbn [map fst snd]; [reflexivity|].
  f_equal. exact IH.
Qed.

Lemma JSMap_update_mapValues (m : JSMap.t V) (k : string) (f : V -> V) (f' : W -> W) :
  (forall v, f' (g v) = g (f v)) ->
  JSMap.update (mapValues g m) k f' = mapValues g (JSMap.update m k f).
Proof.
  intros Hf.
  induction m as [|[k0 v0] m IH]; cbn [mapValues map JSMap.update fst snd]; [reflexivity|].
  destruct (String.eqb k0 k); cbn [map fst snd].
  - rewrite Hf. reflexivity.
  - f_equal. exact IH.
Qed.

End JSMapValues.

Section Erasure.
Context `{RT : Runtime} `{SZ : Serializer}.

Lemma eraseTree_Node (n : string) (en : option FileEntry.t) (ch : JSMap.t TreeNode) :
  eraseTree (Node n en ch) = Node n (erase <$> en) (mapValues eraseTree ch).
Proof. reflexivity. Qed.

Lemma descend_erase (parts : list string) (e : FileEntry.t) :
  forall cur, descend parts (erase e) (eraseTree cur) = eraseTree (descend parts e cur).
Proof.
  induction parts as [|part rest IH]; intros cur; [reflexivity|].
  destruct cur as [n en ch]. rewrite eraseTree_Node.
  cbn [descend TreeNode.name TreeNode.entry TreeNode.children].
  rewrite eraseTree_Node. f_equal.
  rewrite JSMap_has_mapValues.
  change (Node part None []) with (eraseTree (Node part None [])) at 1.
  rewrite JSMap_set_mapValues.
  replace (if negb (JSMap.has ch part)
           then mapValues eraseTree (JSMap.set ch part (Node part None []))
           else mapValues eraseTree ch)
    with (mapValues eraseTree
            (if negb (JSMap.has ch part) then JSMap.set ch part (Node part None []) else ch))
    by (destruct (negb _); reflexivity).
  apply JSMap_update_mapValues. intros v. rewrite <- IH. f_equal.
  destruct rest, v; reflexivity.
Qed.

Lemma buildTree_erase (entries : list FileEntry.t) :
  buildTree (map erase entries) = eraseTree (buildTree entries).
Proof.
  unfold buildTree.
  change (Node "" None []) with (eraseTree (Node "" None [])) at 1.
  generalize (Node "" None []).
  induction entries as [|e es IH]; intros root; cbn [map fold_left]; [reflexivity|].
  change (FileEntry.path (erase e)) with (FileEntry.path e).
  rewrite descend_erase. apply IH.
Qed.

Lemma isDir_erase (node : TreeNode) : isDir (eraseTree node) = isDir node.
Proof.
  destruct node as [n [e|] ch]; unfold isDir; cbn [eraseTree TreeNode.entry TreeNode.children
    fmap option_fmap option_map]; rewrite length_map; reflexivity.
Qed.

Lemma eraseTree_name (node : TreeNode) :
  TreeNode.name (eraseTree node) = TreeNode.name node.
Proof. destruct node; reflexivity. Qed.

Lemma compareNodes_erase (a b : TreeNode) :
  compareNodes (eraseTree a) (eraseTree b) = compareNodes a b.
Proof. unfold compareNodes. rewrite !isDir_erase, !eraseTree_name. reflexivity. Qed.

Lemma nodeLine_erase (options : OutputOptions.t) (node : TreeNode) (prefix : string)
    (isLast : bool) :
  nodeLine options (eraseTree node) prefix isLast = nodeLine options node prefix isLast.
Proof.
  unfold nodeLine. rewrite isDir_erase, eraseTree_name.
  replace (FileEntry.size <$> TreeNode.entry (eraseTree node))
    with (FileEntry.size <$> TreeNode.entry node)
    by (destruct node as [n [e|] ch]; reflexivity).
  reflexivity.
Qed.

Lemma forEachChild_ext {A} (l : list A) (r1 r2 : A -> string -> bool -> list string)
    (pre : string) :
  (forall x, x ∈ l -> forall pre b, r1 x pre b = r2 x pre b) ->
  forEachChild l r1 pre = forEachChild l r2 pre.
Proof.
  intros H. unfold forEachChild. f_equal. apply imap_ext.
  intros i x Hx. apply H. eapply list_elem_of_lookup_2. exact Hx.
Qed.

Lemma children_erase (options : OutputOptions.t) (ch : JSMap.t TreeNode) (pre : string) :
  (forall c, c ∈ JSMap.values ch ->
     forall pre b, renderNode options (eraseTree c) pre b = renderNode options c pre b) ->
  forEachChild (sortNodes (JSMap.values (mapValues eraseTree ch))) (renderNode options) pre
  = forEachChild (sortNodes (JSMap.values ch)) (renderNode options) pre.
Proof.
  intros H.
  replace (JSMap.values (mapValues eraseTree ch)) with (map eraseTree (JSMap.values ch))
    by (unfold JSMap.values, mapValues; rewrite !map_map; reflexivity).
  unfold sortNodes.
  rewrite (arraySort_fmap eraseTree compareNodes compareNodes compareNodes_erase).
  rewrite forEachChild_fmap. apply forEachChild_ext.
  intros c Hc. apply H. apply list_elem_of_In. apply list_elem_of_In, arraySort_In in Hc.
  exact Hc.
Qed.

Lemma renderNode_erase (options : OutputOptions.t) (node : TreeNode) :
  forall pre b, renderNode options (eraseTree node) pre b = renderNode options node pre b.
Proof.
  induction node as [n en ch IH] using TreeNode_induction. intros pre b.
  rewrite eraseTree_Node, !renderNode_sortNodes. f_equal.
  - rewrite <- eraseTree_Node. apply nodeLine_erase.
  - apply children_erase. intros c Hc.
    unfold JSMap.values in Hc. apply list_elem_of_fmap in Hc. destruct Hc as (kv & -> & Hkv).
    rewrite Forall_forall in IH. apply (IH kv Hkv).
Qed.

Lemma asciiLines_erase (result : RepoFetchResult.t) (options : OutputOptions.t) :
  asciiLines (eraseResult result) options = asciiLines result options.
Proof.
  unfold asciiLines. cbn [eraseResult RepoFetchResult.files RepoFetchResult.truncated].
  f_equal. rewrite buildTree_erase.
  destruct (buildTree (RepoFetchResult.files result)) as [n en ch].
  rewrite eraseTree_Node. cbn [TreeNode.children].
  apply children_erase. intros c _. apply renderNode_erase.
Qed.

(** [formatOutput] of a result without contents. *)
Lemma formatOutput_erase (result : RepoFetchResult.t)
    (options : OutputOptions.t) :
  OutputOptions.format options <> "json"%string ->
  OutputOptions.format options <> "json-pretty"%string ->
  formatOutput (eraseResult result) options = formatOutput result options.
Proof.
  intros H1 H2. unfold formatOutput.
  apply String.eqb_neq in H1, H2. rewrite H1, H2.
  destruct (String.eqb _ "paths").
  - cbn [eraseResult RepoFetchResult.files]. rewrite map_map. reflexivity.
  - unfold formatAsciiTree. rewrite asciiLines_erase. reflexivity.
Qed.

(** X26. The listing does not depend on contents: in the formats [ascii]
    and [paths], and in every format that is neither of the two JSON ones,
    [formatOutput] prints the same for a result and for the result without
    the contents of its files. *)
Theorem formatOutput_without_content (result : RepoFetchResult.t)
    (options : OutputOptions.t) :
  OutputOptions.format options <> "json"%string ->
  OutputOptions.format options <> "json-pretty"%string ->
  formatOutput (eraseResult result) options = formatOutput result options.
Proof. apply formatOutput_erase. Qed.

End Erasure.

Section Sizes.
Context `{RT : Runtime}.
Local Open Scope string_scope.

(** X27. From 1024 bytes on, [formatSize] prints tenths of a unit, rounded
    to the nearest tenth and upwards from the middle: [KB] below 1048576
    bytes, [MB] from there on. The rounding is done after the unit is
    chosen, so the last bytes below 1048576 are printed as [1024.0KB]. *)
Theorem formatSize_rounding (bytes : Z) :
  1024 <= bytes ->
  exists (t scale : Z) (unit : string),
    formatSize bytes
    = (JSText.ofInteger (t / 10) ++ "." ++ JSText.ofInteger (t mod 10)) ++ unit /\
    (bytes < 1048576 /\ scale = 1024 /\ unit = "KB" \/
     1048576 <= bytes /\ scale = 1048576 /\ unit = "MB") /\
    10 <= t /\
    2 * scale * t <= 20 * bytes + scale < 2 * scale * (t + 1) /\
    (bytes < 1048576 -> t <= 10240 /\ (t = 10240 <-> 1048525 <= bytes)).
Proof.
  intros Hb. unfold formatSize.
  destruct (Z.ltb_spec bytes 1024) as [?|_]; [lia|].
  change (1024 * 1024) with 1048576.
  destruct (Z.ltb_spec bytes 1048576) as [Hlt|Hge].
  - exists ((20 * bytes + 1024) / (2 * 1024)), 1024, "KB".
    split; [reflexivity|].
    split; [left; auto|].
    pose proof (Z.div_mod (20 * bytes + 1024) (2 * 1024) ltac:(lia)) as Hdm.
    pose proof (Z.mod_pos_bound (20 * bytes + 1024) (2 * 1024) ltac:(lia)) as Hm.
    set (t := (20 * bytes + 1024) / (2 * 1024)) in *.
    repeat split; lia.
  - exists ((20 * bytes + 1048576) / (2 * 1048576)), 1048576, "MB".
    split; [reflexivity|].
    split; [right; auto|].
    pose proof (Z.div_mod (20 * bytes + 1048576) (2 * 1048576) ltac:(lia)) as Hdm.
    pose proof (Z.mod_pos_bound (20 * bytes + 1048576) (2 * 1048576) ltac:(lia)) as Hm.
    set (t := (20 * bytes + 1048576) / (2 * 1048576)) in *.
    repeat split; lia.
Qed.

End Sizes.

Section Paths.
Context `{RT : Runtime} `{SZ : Serializer}.

Lemma split_without (c : ascii) (s : string) :
  without c s = true -> JS.split c s = [s].
Proof.
  induction s as [|x s IH]; cbn [without JS.split]; [reflexivity|].
  intros H. apply andb_true_iff in H. destruct H as [Hx Hs].
  apply negb_true_iff in Hx. rewrite Hx, (IH Hs). reflexivity.
Qed.

Lemma split_append (c : ascii) (s rest : string) :
  without c s = true ->
  JS.split c (String.append s (String c rest)) = s :: JS.split c rest.
Proof.
  induction s as [|x s IH]; cbn [without].
  - intros _. change (String.append EmptyString (String c rest)) with (String c rest).
    cbn [JS.split]. rewrite Ascii.eqb_refl. reflexivity.
  - intros H. apply andb_true_iff in H. destruct H as [Hx Hs].
    apply negb_true_iff in Hx.
    change (String.append (String x s) (String c rest))
      with (String x (String.append s (String c rest))).
    cbn [JS.split]. rewrite Hx, (IH Hs). reflexivity.
Qed.

Lemma split_join (c : ascii) (l : list string) :
  l <> [] -> Forall (fun s => without c s = true) l ->
  JS.split c (JSText.join (String c EmptyString) l) = l.
Proof.
  unfold JSText.join.
  induction l as [|x l IH]; intros Hne Hall; [congruence|].
  apply Forall_cons in Hall. destruct Hall as [Hx Hall].
  destruct l as [|y l].
  - cbn [String.concat]. apply split_without. exact Hx.
  - change (String.concat (String c EmptyString) (x :: y :: l))
      with (String.append x (String.append (String c EmptyString)
              (String.concat (String c EmptyString) (y :: l)))).
    change (String.append (String c EmptyString) ?r) with (String c r).
    rewrite split_append by exact Hx.
    f_equal. apply IH; [discriminate|exact Hall].
Qed.

(** X28. In the format [paths] the output has one line per file, in the
    order of the result: splitting it at the line feeds gives the paths
    back, when there is a file and no path has a line feed in it. For a
    result without files the output is empty. *)
Theorem formatOutput_paths (result : RepoFetchResult.t) (options : OutputOptions.t) :
  OutputOptions.format options = "paths"%string ->
  Forall (fun e => without LFchar (FileEntry.path e) = true) (RepoFetchResult.files result) ->
  (RepoFetchResult.files result <> [] ->
   JS.split LFchar (formatOutput result options)
   = map FileEntry.path (RepoFetchResult.files result)) /\
  (RepoFetchResult.files result = [] -> formatOutput result options = EmptyString).
Proof.
  intros Hf Hall. unfold formatOutput. rewrite Hf. cbn [String.eqb Ascii.eqb Bool.eqb].
  split.
  - intros Hne. apply split_join.
    + destruct (RepoFetchResult.files result); [congruence|discriminate].
    + apply Forall_fmap. exact Hall.
  - intros ->. reflexivity.
Qed.

End Paths.

Section Substrings.
Context `{RT : Runtime}.

Lemma append_cons (x : ascii) (s t : string) :
  String.append (String x s) t = String x (String.append s t).
Proof. reflexivity. Qed.

Lemma append_nil (t : string) : String.append EmptyString t = t.
Proof. reflexivity. Qed.

Lemma prefix_append (p s r : string) :
  String.prefix p s = true -> String.prefix p (String.append s r) = true.
Proof.
  revert s. induction p as [|a p IH]; intros s H.
  { destruct s; [destruct r|]; reflexivity. }
  destruct s as [|b s]; [discriminate|].
  rewrite append_cons. cbn [String.prefix] in *.
  destruct (ascii_dec a b); [apply IH; exact H|discriminate].
Qed.

Lemma includes_cons (x : ascii) (s p : string) :
  JS.includes s p = true -> JS.includes (String x s) p = true.
Proof. intros H. cbn [JS.includes]. rewrite H. apply orb_true_r. Qed.

Lemma includes_append_l (l s p : string) :
  JS.includes s p = true -> JS.includes (String.append l s) p = true.
Proof.
  intros H. induction l as [|x l IH]; [exact H|].
  rewrite append_cons. apply includes_cons. exact IH.
Qed.

Lemma includes_append_r (s r p : string) :
  JS.includes s p = true -> JS.includes (String.append s r) p = true.
Proof.
  induction s as [|x s IH]; intros H.
  - cbn [JS.includes] in H. rewrite orb_false_r in H.
    destruct p as [|a p]; [|discriminate].
    destruct r; reflexivity.
  - rewrite append_cons. cbn [JS.includes] in *.
    apply orb_true_iff in H. destruct H as [H|H].
    + rewrite <- append_cons, (prefix_append _ _ _ H). reflexivity.
    + rewrite (IH H). apply orb_true_r.
Qed.

(** A piece cut out of a text is a part of it. *)
Lemma substring_prefix (n : nat) (s : string) :
  exists r, s = String.append (String.substring 0 n s) r.
Proof.
  revert s. induction n as [|n IH]; intros s.
  - exists s. destruct s; reflexivity.
  - destruct s as [|c s]; [exists EmptyString; reflexivity|].
    destruct (IH s) as (r & Hr). exists r. cbn [String.substring].
    rewrite append_cons, <- Hr. reflexivity.
Qed.

Lemma substring_factor (a n : nat) (s : string) :
  exists l r, s = String.append l (String.append (String.substring a n s) r).
Proof.
  revert s. induction a as [|a IH]; intros s.
  - destruct (substring_prefix n s) as (r & Hr). exists EmptyString, r. exact Hr.
  - destruct s as [|c s].
    + exists EmptyString, EmptyString. destruct n; reflexivity.
    + destruct (IH s) as (l & r & Hlr). exists (String c l), r.
      cbn [String.substring]. rewrite append_cons, <- Hlr. reflexivity.
Qed.

Lemma includes_substring (a n : nat) (s p : string) :
  JS.includes (String.substring a n s) p = true -> JS.includes s p = true.
Proof.
  intros H. destruct (substring_factor a n s) as (l & r & Hlr).
  rewrite Hlr. apply includes_append_l, includes_append_r, H.
Qed.

Lemma includes_basename (filePath p : string) :
  JS.includes (NodePath.basename filePath) p = true -> JS.includes filePath p = true.
Proof.
  unfold NodePath.basename, JS.slice.
  destruct (_ =? -1).
  - change EmptyString with (String.substring 0 0 filePath) at 1
      || (replace EmptyString with (String.substring 0 0 filePath)
            by (destruct filePath; reflexivity)).
    apply includes_substring.
  - apply includes_substring.
Qed.

(** Without a wildcard, a pattern is looked for in the whole path. *)
Lemma matchesPattern_substring (filePath pattern : string) :
  JS.includes pattern "*" = false ->
  matchesPattern filePath pattern = Ok (JS.includes filePath pattern).
Proof.
  intros H. unfold matchesPattern. rewrite H. f_equal.
  destruct (JS.includes filePath pattern) eqn:E; [reflexivity|].
  destruct (JS.includes (NodePath.basename filePath) pattern) eqn:E'; [|reflexivity].
  apply includes_basename in E'. congruence.
Qed.

(** X29. A pattern without a wildcard is a test for a part of the whole
    path, wherever it stands. No entry of the output has such an exclude
    pattern anywhere in its path, and when include patterns are given and
    none has a wildcard, every entry has one of them somewhere in its path. *)
Theorem filterTree_substring_patterns (items : list TreeItem.t) (options : FilterOptions.t)
    (out : list FileEntry.t) (e : FileEntry.t) :
  filterTree items options = Ok out -> In e out ->
  (forall p, In p (default [] (FilterOptions.exclude options)) ->
     JS.includes p "*" = false -> JS.includes (FileEntry.path e) p = false) /\
  (forall ps, FilterOptions.include options = Some ps -> ps <> [] ->
     Forall (fun p => JS.includes p "*" = false) ps ->
     exists p, In p ps /\ JS.includes (FileEntry.path e) p = true).
Proof.
  intros H He. destruct (filterTree_In items options out H e He) as (item & _ & Hi).
  pose proof (filterItem_Some _ _ _ Hi) as ->.
  rewrite filterItem_steps in Hi.
  destruct (kindDrops options item); [discriminate|].
  destruct (includeCheck options item) as [[]|] eqn:Hinc; cbn [rbind negb] in Hi;
    try discriminate.
  destruct (excludeCheck options item) as [[]|] eqn:Hexc; cbn [rbind] in Hi;
    try discriminate.
  clear Hi. change (FileEntry.path (entryOf item)) with (TreeItem.path item). split.
  - intros p Hp Hstar. unfold excludeCheck in Hexc.
    destruct (FilterOptions.exclude options) as [[|q qs]|]; try (destruct Hp; fail).
    cbn [nonEmpty default] in *.
    pose proof (somePattern_false _ _ Hexc p Hp) as Hm.
    rewrite matchesPattern_substring in Hm by exact Hstar. congruence.
  - intros ps Hps Hne Hall. unfold includeCheck in Hinc. rewrite Hps in Hinc.
    destruct ps as [|q qs]; [congruence|]. cbn [nonEmpty default] in Hinc.
    destruct (somePattern_true _ _ Hinc) as (p & Hp & Hm).
    exists p. split; [exact Hp|].
    rewrite Forall_forall in Hall.
    rewrite matchesPattern_substring in Hm by (apply Hall, list_elem_of_In, Hp).
    congruence.
Qed.

End Substrings.

(** ** The further properties on the examples *)

Lemma filterTree_extensions_normalized_witness :
  let items := TreeResponse.tree Double.demoTree in
  @filterTree Double.runtime items (withExtensions Double.noFilter (Some ["ts"%string]))
  = @filterTree Double.runtime items
      (withExtensions Double.noFilter (Some [".TS"; "ts"]%string)).
Proof.
  intros items.
  apply (@filterTree_extensions_normalized Double.runtime items Double.noFilter
           ["ts"%string] [".TS"; "ts"]%string); [discriminate|discriminate|].
  intros x.
  change (map normalizeExt ["ts"%string]) with [".ts"%string].
  change (map normalizeExt [".TS"; "ts"]%string) with [".ts"; ".ts"]%string.
  cbn [In]. tauto.
Defined.

Lemma filterTree_sublist_witness :
  let items := TreeResponse.tree Double.demoTree in
  let out := [Double.fileEntry "README.md" "b1" 10 (Some ".md"%string);
              Double.fileEntry "src/a.ts" "b2" 20 (Some ".ts"%string);
              Double.fileEntry "src/b.ts" "b3" 30 (Some ".ts"%string);
              Double.fileEntry "src/big.bin" "b4" 2000000 (Some ".bin"%string)] in
  @filterTree Double.runtime items Samples.filesOnly = Ok out /\
  sublist out (map entryOf items) /\
  Forall (fun e => FileEntry.content e = None) out.
Proof.
  intros items out.
  assert (H : @filterTree Double.runtime items Samples.filesOnly = Ok out) by reflexivity.
  split; [exact H|].
  exact (@filterTree_sublist Double.runtime items Samples.filesOnly out H).
Defined.

Lemma filterTree_kind_witness :
  let items := TreeResponse.tree Double.demoTree in
  let e := Double.fileEntry "src/a.ts" "b2" 20 (Some ".ts"%string) in
  let out := [Double.fileEntry "README.md" "b1" 10 (Some ".md"%string); e;
              Double.fileEntry "src/b.ts" "b3" 30 (Some ".ts"%string);
              Double.fileEntry "src/big.bin" "b4" 2000000 (Some ".bin"%string)] in
  @filterTree Double.runtime items Samples.filesOnly = Ok out /\
  In e out /\ FileEntry.type e = file.
Proof.
  intros items e out.
  assert (H : @filterTree Double.runtime items Samples.filesOnly = Ok out) by reflexivity.
  assert (Hin : In e out) by (right; left; reflexivity).
  split; [exact H|]. split; [exact Hin|].
  exact (proj1 (@filterTree_kind Double.runtime items Samples.filesOnly out e H Hin) eq_refl).
Defined.

Lemma filterItem_directory_witness :
  let item := Double.treeItem "src" "d1" in
  @filterItem Double.runtime
    (withMaxFileSize (withExtensions Double.noFilter (Some [".ts"%string])) (Some 1)) item
  = @filterItem Double.runtime Double.noFilter item.
Proof.
  intros item.
  exact (@filterItem_directory Double.runtime Double.noFilter item
           (Some [".ts"%string]) (Some 1) eq_refl).
Defined.

Lemma filterTree_size_edges_witness :
  let items := TreeResponse.tree Double.demoTree in
  @filterTree Double.runtime items (withMaxFileSize Double.noFilter (Some 0))
  = @filterTree Double.runtime items
      (withMaxFileSize (withMaxFileSize Double.noFilter (Some 0)) None).
Proof.
  intros items.
  apply (@filterTree_size_edges Double.runtime items
           (withMaxFileSize Double.noFilter (Some 0))).
  left. reflexivity.
Defined.

Lemma filterTree_app_witness :
  let a := [Double.blobItem "README.md" "b1" 10; Double.treeItem "src" "d1"] in
  let b := [Double.blobItem "src/a.ts" "b2" 20] in
  @filterTree Double.runtime (a ++ b) Samples.filesOnly
  = Ok ([Double.fileEntry "README.md" "b1" 10 (Some ".md"%string)] ++
        [Double.fileEntry "src/a.ts" "b2" 20 (Some ".ts"%string)]).
Proof.
  intros a b.
  apply (@filterTree_app Double.runtime a b Samples.filesOnly); reflexivity.
Defined.

Lemma filterTree_throws_witness :
  let items := TreeResponse.tree Double.demoTree in
  @filterTree Double.runtime items Samples.excludeUnbalanced
  = Throw (InvalidRegExp "^a(.*$") /\
  exists p, In p (patternsOf Samples.excludeUnbalanced) /\
            JS.includes p "*" = true /\
            @newRegExp Double.runtime (patternSource p) = None /\
            InvalidRegExp "^a(.*$" = InvalidRegExp (patternSource p).
Proof.
  intros items.
  assert (H : @filterTree Double.runtime items Samples.excludeUnbalanced
              = Throw (InvalidRegExp "^a(.*$")) by reflexivity.
  split; [exact H|].
  exact (@filterTree_throws Double.runtime items Samples.excludeUnbalanced _ H).
Defined.

Lemma sortEntries_Sorted_witness :
  Sorted (fun a b => @compareEntries Double.runtime a b <= 0)
    (@sortEntries Double.runtime Double.demoEntries).
Proof.
  exact (@sortEntries_Sorted Double.runtime codeUnitCompare_antisym Double.demoEntries).
Defined.

Lemma filterTree_substring_patterns_witness :
  let items := [Double.blobItem "src/latest.ts" "b1" 10;
                Double.blobItem "src/a.ts" "b2" 20] in
  let e := Double.fileEntry "src/a.ts" "b2" 20 (Some ".ts"%string) in
  @filterTree Double.runtime items Samples.excludeTest = Ok [e] /\
  JS.includes (FileEntry.path e) "test" = false.
Proof.
  intros items e.
  assert (H : @filterTree Double.runtime items Samples.excludeTest = Ok [e]) by reflexivity.
  split; [exact H|].
  apply (proj1 (@filterTree_substring_patterns Double.runtime items Samples.excludeTest
                  [e] e H (or_introl eq_refl))); [left; reflexivity|reflexivity].
Defined.

Lemma getTree_requests_witness :
  let s := Double.start (Double.demoServer Double.neverFails) in
  exists s' evs,
    stateOf (getTree Double.anonymous "octo/demo" "dev" s) = Some s' /\
    requestsOf (trace s') = requestsOf (trace s) ++ evs /\
    (length evs <= 4)%nat /\
    forallb (treeStage "octo/demo") evs = true /\
    head evs = Some (GetCommit "octo/demo" "dev").
Proof.
  intros s.
  eassert (H : stateOf (getTree Double.anonymous "octo/demo" "dev" s) = Some _)
    by (vm_compute; reflexivity).
  destruct (@getTree_requests Double.runtime Double.anonymous "octo/demo" "dev" s _ H)
    as (evs & Hevs).
  eexists _, evs. split; [exact H|exact Hevs].
Defined.

Lemma getTree_no_fallback_witness :
  let s := Double.start Samples.unavailable in
  exists s1,
    getTree Double.anonymous "octo/demo" "main" s
    = Thrown (FailedToGetCommit 500 "Internal Server Error") s1 /\
    requestsOf (trace s1) = requestsOf (trace s) ++ [GetCommit "octo/demo" "main"].
Proof.
  intros s.
  eassert (H1 : fetch Double.anonymous (GetCommit "octo/demo" "main") s = Done _ _)
    by (lazy; reflexivity).
  match type of H1 with _ = Done ?res1 ?s0 =>
    eassert (H2 : updateRateLimit res1 s0 = Done tt _) by (lazy; reflexivity)
  end.
  eexists.
  apply (proj1 (@getTree_no_fallback Double.runtime Double.anonymous "octo/demo" "main"
                  s _ _ _ H1 H2 ltac:(discriminate) ltac:(discriminate)) eq_refl).
Defined.

Lemma getDefaultBranch_outcome_witness :
  let s := Double.start (Double.demoServer Double.neverFails) in
  exists s1, getDefaultBranch Double.anonymous "octo/demo" s = Done "main"%string s1.
Proof.
  intros s.
  eassert (H1 : fetch Double.anonymous (GetRepo "octo/demo") s = Done _ _)
    by (lazy; reflexivity).
  match type of H1 with _ = Done ?res ?s0 =>
    eassert (H2 : updateRateLimit res s0 = Done tt _) by (lazy; reflexivity)
  end.
  eexists.
  apply (proj2 (@getDefaultBranch_outcome Double.runtime Double.anonymous "octo/demo"
                  s _ _ _ H1 H2) "main"%string eq_refl eq_refl).
Defined.

Lemma fetchContent_requests_witness :
  let options := Double.twoAtATime None in
  let s := Double.start (Double.demoServer Double.neverFails) in
  exists out s',
    fetchContent 3 Double.anonymous "octo/demo" Double.demoEntries options s = Done out s' /\
    requestsOf (trace s') =
      [GetBlob "octo/demo" "b1"; GetBlob "octo/demo" "b2"; GetBlob "octo/demo" "b3"].
Proof.
  intros options s.
  destruct (@fetchContent_requests Double.runtime Double.anonymous "octo/demo" 3
              Double.demoEntries options s ltac:(vm_compute; lia) ltac:(vm_compute; lia))
    as (out & s' & Hrun & Hreq & _).
  exists out, s'. split; [exact Hrun|exact Hreq].
Defined.


Lemma fetchContent_zero_concurrency_witness :
  let s := Double.start (Double.demoServer Double.neverFails) in
  fetchContent 1000 Double.anonymous "octo/demo" Double.demoEntries Samples.noneAtATime s
  = OutOfFuel.
Proof.
  intros s.
  apply (proj1 (@fetchContent_zero_concurrency Double.runtime Double.anonymous "octo/demo"
                  Double.demoEntries Samples.noneAtATime s eq_refl)).
  vm_compute. discriminate.
Defined.

Lemma fetchContent_last_fetch_wins_witness :
  let options := Double.twoAtATime None in
  let s := Double.start Samples.changing in
  exists out s',
    fetchContent 2 Double.anonymous "octo/demo" Double.twins options s = Done out s' /\
    out !! 0%nat
    = Some (FileEntry.with_content
              (Double.fileEntry "a/__init__.py" "e69" 5 (Some ".py"%string))
              (Some "second"%string)).
Proof.
  intros options s.
  eassert (H3 : allSettled Double.anonymous "octo/demo"
                  (filesToFetch options Double.twins) s
                = Done [Ok ("e69", "first"); Ok ("e69", "second")]%string _)
    by (lazy; reflexivity).
  destruct (@fetchContent_last_fetch_wins Double.runtime Double.anonymous "octo/demo" 2
              Double.twins options s _ _ ltac:(vm_compute; lia) ltac:(vm_compute; lia) H3)
    as (out & s' & Hrun & Hout).
  exists out, s'. split; [exact Hrun|].
  apply (Hout 0%nat _ [Ok ("e69", "first")]%string "second"%string []);
    [reflexivity|reflexivity|reflexivity|].
  intros c' [].
Defined.

Lemma repofetch_headers_witness :
  let options := Double.plainOptions (Some "t0k"%string) (Some true) in
  let s := Double.start (Double.demoServer Double.neverFails) in
  exists s' evs,
    stateOf (repofetch 3 "octo/demo" options s) = Some s' /\
    trace s' = trace s ++ evs /\
    forall rq, In (EvRequest rq) evs ->
      In ("Authorization", "Bearer t0k")%string (req_headers rq).
Proof.
  intros options s.
  eassert (H : stateOf (repofetch 3 "octo/demo" options s) = Some _)
    by (vm_compute; reflexivity).
  destruct (@repofetch_headers Double.runtime 3 "octo/demo" options s _ H)
    as (evs & Ht & Hrq).
  eexists _, evs. split; [exact H|]. split; [exact Ht|].
  intros rq Hin. destruct (Hrq rq Hin) as (_ & _ & Hauth).
  apply Hauth. split; reflexivity.
Defined.

Lemma repofetch_throws_early_witness :
  let options := Double.plainOptions None (Some true) in
  let s := Double.start Double.brokenServer in
  exists s' evs,
    repofetch 3 "octo/demo" options s = Thrown (FailedToGetCommit 404 "Not Found") s' /\
    requestsOf (trace s') = requestsOf (trace s) ++ evs /\
    (length evs <= 4)%nat /\
    forallb (treeStage "octo/demo") evs = true.
Proof.
  intros options s.
  eassert (H : repofetch 3 "octo/demo" options s
               = Thrown (FailedToGetCommit 404 "Not Found") _)
    by (vm_compute; reflexivity).
  destruct (@repofetch_throws_early Double.runtime 3 "octo/demo" options s _ _ H)
    as (_ & evs & Hevs).
  eexists _, evs. split; [exact H|exact Hevs].
Defined.

Lemma repofetch_listing_witness :
  let options := Double.plainOptions None (Some true) in
  let s := Double.start (Double.demoServer Double.neverFails) in
  exists r s' entries,
    repofetch 3 "octo/demo" options s = Done r s' /\
    map erase (RepoFetchResult.files r) = @sortEntries Double.runtime entries /\
    RepoFetchResult.repo r = "octo/demo"%string.
Proof.
  intros options s.
  eassert (H : repofetch 3 "octo/demo" options s = Done _ _) by (vm_compute; reflexivity).
  destruct (@repofetch_listing Double.runtime 3 "octo/demo" options s _ _ H)
    as (client & s0 & t & s1 & entries & _ & _ & _ & Hfiles & Hrepo & _).
  eexists _, _, entries. split; [exact H|]. split; [exact Hfiles|exact Hrepo].
Defined.

Lemma repofetch_content_where_wanted_witness :
  let options := Double.plainOptions None (Some true) in
  let s := Double.start (Double.demoServer Double.neverFails) in
  let e := FileEntry.with_content (Double.fileEntry "src/a.ts" "b2" 20 (Some ".ts"%string))
             (Some "content of b2"%string) in
  exists r s',
    repofetch 3 "octo/demo" options s = Done r s' /\
    In e (RepoFetchResult.files r) /\
    FileEntry.type e = file /\ wantsContent options = true.
Proof.
  intros options s e.
  eassert (H : repofetch 3 "octo/demo" options s = Done _ _) by (vm_compute; reflexivity).
  assert (Hin : In e (RepoFetchResult.files
                        ltac:(match type of H with _ = Done ?r _ => exact r end)))
    by (left; reflexivity).
  destruct (@repofetch_content_where_wanted Double.runtime 3 "octo/demo" options s _ _ e
              H Hin ltac:(eexists; reflexivity)) as (Ht & Hw & _).
  eexists _, _. split; [exact H|]. split; [exact Hin|]. split; [exact Ht|exact Hw].
Defined.

Lemma repofetch_returns_witness :
  let options := Double.plainOptions None (Some true) in
  let s := Double.start (Double.demoServer Double.neverFails) in
  exists n, forall fuel, (n <= fuel)%nat ->
    repofetch fuel "octo/demo" options s <> OutOfFuel /\
    repofetch fuel "octo/demo" options s = repofetch n "octo/demo" options s.
Proof.
  intros options s.
  apply (@repofetch_returns Double.runtime "octo/demo" options s).
  intros c Hc. discriminate Hc.
Defined.

Lemma buildTree_nodes_witness :
  let entries := [Double.fileEntry "src/utils/helpers.ts" "b1" 10 (Some ".ts"%string)] in
  exists node,
    nodeAt ["src"; "utils"]%string (buildTree entries) = Some node /\
    TreeNode.name node = "utils"%string /\
    TreeNode.entry node = None.
Proof.
  intros entries.
  eassert (H : nodeAt ["src"; "utils"]%string (buildTree entries) = Some _)
    by (vm_compute; reflexivity).
  destruct (proj2 (buildTree_nodes entries ["src"; "utils"]%string ltac:(discriminate))
              _ H) as (Hname & Hentry).
  eexists. split; [exact H|]. split; [|exact Hentry].
  apply (inj Some). symmetry. exact Hname.
Defined.

Lemma formatOutput_without_content_witness :
  @formatOutput Double.runtime Samples.serializer (eraseResult Samples.listing)
    (Samples.formatted "ascii")
  = @formatOutput Double.runtime Samples.serializer Samples.listing
      (Samples.formatted "ascii").
Proof.
  apply (@formatOutput_without_content Double.runtime Samples.serializer); discriminate.
Defined.

Lemma formatSize_rounding_witness :
  exists (t scale : Z) (unit : string),
    formatSize 1048570
    = ((JSText.ofInteger (t / 10) ++ "." ++ JSText.ofInteger (t mod 10)) ++ unit)%string /\
    (1048570 < 1048576 /\ scale = 1024 /\ unit = "KB"%string \/
     1048576 <= 1048570 /\ scale = 1048576 /\ unit = "MB"%string) /\
    10 <= t /\
    2 * scale * t <= 20 * 1048570 + scale < 2 * scale * (t + 1) /\
    (1048570 < 1048576 -> t <= 10240 /\ (t = 10240 <-> 1048525 <= 1048570)).
Proof. apply (formatSize_rounding 1048570). lia. Defined.

Lemma formatOutput_paths_witness :
  JS.split LFchar
    (@formatOutput Double.runtime Samples.serializer Samples.listing
       (Samples.formatted "paths"))
  = ["src"; "src/a.ts"; "README.md"]%string.
Proof.
  apply (proj1 (@formatOutput_paths Double.runtime Samples.serializer Samples.listing
                  (Samples.formatted "paths") eq_refl
                  ltac:(repeat constructor))).
  discriminate.
Defined.

Section Pipeline.
Context `{RT : Runtime} `{SZ : Serializer}.

(** X30. What is printed for the result of [repofetch] in a format other
    than the two JSON ones is the listing of the sorted output of
    [filterTree] for the tree that [getTree] returned: fetching contents
    changes nothing in it. *)
Theorem repofetch_output_listing (fuel : nat) (repo : string)
    (options : RepoFetchOptions.t) (s s' : Sys) (r : RepoFetchResult.t)
    (shown : OutputOptions.t) :
  repofetch fuel repo options s = Done r s' ->
  OutputOptions.format shown <> "json"%string ->
  OutputOptions.format shown <> "json-pretty"%string ->
  exists client s0 t s1 entries,
    newGitHubClient (RepoFetchOptions.token options) s = Done client s0 /\
    getTree client repo (branchOf options) s0 = Done (t, RepoFetchResult.branch r) s1 /\
    filterTree (TreeResponse.tree t) (filterOptionsOf options (sizeBoundOf options))
    = Ok entries /\
    formatOutput r shown
    = formatOutput (resultOf repo (RepoFetchResult.branch r) t (sortEntries entries)) shown.
Proof.
  intros H H1 H2. destruct (repofetch_Done fuel repo options s s' r H)
    as (client & s0 & t & s1 & entries & results & Hnew & Htree & Hf & Hr & _).
  exists client, s0, t, s1, entries.
  split; [exact Hnew|]. split; [exact Htree|]. split; [exact Hf|].
  rewrite <- (formatOutput_erase r shown H1 H2). f_equal.
  rewrite Hr at 1. unfold eraseResult, resultOf.
  cbn [RepoFetchResult.repo RepoFetchResult.branch RepoFetchResult.truncated
       RepoFetchResult.files RepoFetchResult.rateLimit RepoFetchResult.isAuthenticated].
  f_equal. rewrite map_map.
  rewrite (map_ext _ erase (erase_mergeContent results)).
  apply map_erase_id. intros e He.
  apply arraySort_In in He. eapply filterTree_no_content; eassumption.
Qed.

End Pipeline.

Lemma repofetch_output_listing_witness :
  let options := Double.plainOptions None (Some true) in
  let s := Double.start (Double.demoServer Double.neverFails) in
  exists r s' t entries,
    repofetch 3 "octo/demo" options s = Done r s' /\
    @formatOutput Double.runtime Samples.serializer r (Samples.formatted "ascii")
    = @formatOutput Double.runtime Samples.serializer
        (resultOf "octo/demo" (RepoFetchResult.branch r) t
           (@sortEntries Double.runtime entries))
        (Samples.formatted "ascii").
Proof.
  intros options s.
  eassert (H : repofetch 3 "octo/demo" options s = Done _ _) by (vm_compute; reflexivity).
  destruct (@repofetch_output_listing Double.runtime Samples.serializer 3 "octo/demo"
              options s _ _ (Samples.formatted "ascii") H
              ltac:(discriminate) ltac:(discriminate))
    as (client & s0 & t & s1 & entries & _ & _ & _ & Hout).
  eexists _, _, t, entries. split; [exact H|exact Hout].
Defined.
